(** * Visibility culling and multi-draw batching of a renderable

    A shallow embedding of [createRenderable] (its [cull], [uncull] and
    [render] closures) and of [getMdbData], with the properties of the
    culling pass: soundness and completeness of the produced batches,
    run-length merging, buffer reuse and the behaviour of the early
    returns.

    - JavaScript numbers that carry distances are binary64 floats
      ([PrimFloat.float]).
    - Elements of [Int32Array] / [Uint32Array] are integers in [Z]; a
      store wraps ([toInt32], [toUint32]); a store out of range is dropped
      and a load out of range yields [undefined] (stdpp's list insert and
      lookup behave the same way).
    - The batch objects are mutable and shared between the closure
      variable [mdbData] and the array [mdbDataList]; they live in an
      explicit heap of objects addressed by location. *)

From Stdlib Require Import ZArith Lia Floats.
From stdpp Require Import base list strings.

#[local] Open Scope Z_scope.

(** ** Numbers *)

(** [ToInt32] and [ToUint32] of an integer, as typed-array stores apply
    them. *)
Definition toInt32 (z : Z) : Z := (z + 2 ^ 31) mod 2 ^ 32 - 2 ^ 31.
Definition toUint32 (z : Z) : Z := z mod 2 ^ 32.

(** An integer-valued JavaScript number obtained from a typed-array load.
    [None] is [undefined] (load out of range) or the [NaN] that arithmetic
    on it produces. *)
Definition num := option Z.

Definition num_sub (a b : num) : num :=
  match a, b with
  | Some x, Some y => Some (x - y)
  | _, _ => None
  end.

Definition num_add (a b : num) : num :=
  match a, b with
  | Some x, Some y => Some (x + y)
  | _, _ => None
  end.

(** [a === b] on such numbers: [NaN] and [undefined] never equal a number. *)
Definition num_eqb (a b : num) : bool :=
  match a, b with
  | Some x, Some y => x =? y
  | _, _ => false
  end.

(** Stores into an [Int32Array] and a [Uint32Array]; [NaN] is stored
    as 0. *)
Definition storeInt32 (a : num) : Z := from_option toInt32 0 a.
Definition storeUint32 (a : num) : Z := from_option toUint32 0 a.

(** [a > b] on floats is [b < a], also on [NaN]. *)
Definition gtb (a b : float) : bool := PrimFloat.ltb b a.

(** ** Geometry *)

Record Vec3 := mkVec3 { v3x : float; v3y : float; v3z : float }.
Record Vec4 := mkVec4 { v4x : float; v4y : float; v4z : float; v4w : float }.
Record Sphere3D := mkSphere3D { center : Vec3; radius : float }.

(** A load from a [Float32Array]; out of range it is [undefined], which
    every later arithmetic turns into [NaN]. *)
Definition loadFloat (a : list float) (i : nat) : float :=
  default PrimFloat.nan (a !! i).

(** Modelled from the spec: [Sphere3D.fromArray] is not part of the
    sources; the spec describes [cellSpheres] as packed, 4 floats per cell
    (center x, y, z, then the radius). *)
Definition s3fromArray (array : list float) (offset : nat) : Sphere3D :=
  {| center := mkVec3 (loadFloat array offset)
                      (loadFloat array (offset + 1))
                      (loadFloat array (offset + 2));
     radius := loadFloat array (offset + 3) |}.

(** ** Data model *)

Record InstanceGrid := mkInstanceGrid {
  cellOffsets : list Z;
  cellSpheres : list float;
  cellCount : nat
}.

(** One LOD band, the tuple
    [[minDistance, maxDistance, overlap, count, sizeFactor]]. *)
Record LodLevel := mkLodLevel {
  lod_minDistance : float;
  lod_maxDistance : float;
  lod_overlap : float;
  lod_count : Z;
  lod_sizeFactor : float
}.

(** The value cell [values.lodLevels]: its version and its table. *)
Record LodLevels := mkLodLevels {
  lod_version : Z;
  lod_value : list LodLevel
}.

(** The part of [values] that [cull] reads. [uLod] keeps the first two
    components of the vector; the draw and instance counts are integers. *)
Record Values := mkValues {
  drawCount : Z;
  instanceCount : Z;
  instanceGrid : option InstanceGrid;
  uLod : float * float;
  lodLevels : option LodLevels
}.

(** ** The entries of a batch

    The valid part of a batch, read as a sequence of draw entries, and the
    merge rule on such sequences; the array code of [cull] is related to
    it below. *)

Record Entry := mkEntry {
  e_baseInstance : Z;
  e_instanceCount : Z;
  e_count : Z
}.

Definition entriesOf (bis ics cs : list Z) (o : nat) : list Entry :=
  take o (zip_with (fun b p => mkEntry b (fst p) (snd p)) bis (zip ics cs)).

(** The merge rule of lines 135-142 ([checkCount = true]) and of lines
    165-172 ([checkCount = false]) on a sequence of entries. *)
Definition pushEntry (checkCount : bool) (begin cnt : num) (c : Z)
    (es : list Entry) : list Entry :=
  match last es with
  | Some e =>
      if num_eqb (Some (e_baseInstance e + e_instanceCount e)) begin
         && (negb checkCount || (e_count e =? c))
      then <[pred (length es) :=
               mkEntry (e_baseInstance e)
                       (storeInt32 (num_add (Some (e_instanceCount e)) cnt))
                       (e_count e)]> es
      else es ++ [mkEntry (storeUint32 begin) (storeInt32 cnt) (toInt32 c)]
  | None => [mkEntry (storeUint32 begin) (storeInt32 cnt) (toInt32 c)]
  end.

(** The half-open range of instance indices of an entry. *)
Definition covers (e : Entry) (x : Z) : Prop :=
  e_baseInstance e ≤ x < e_baseInstance e + e_instanceCount e.

(** ** The grid invariant *)

(** The start of the range of cell [i]. *)
Definition offset (g : InstanceGrid) (i : nat) : Z :=
  default 0 (cellOffsets g !! i).

(** The partition invariant of an instance grid: [cellCount + 1] offsets,
    starting at 0, non-decreasing, the last one the total number of
    instances. *)
Definition partition_inv (g : InstanceGrid) (total : Z) : Prop :=
  length (cellOffsets g) = S (cellCount g)
  ∧ offset g 0 = 0
  ∧ (∀ i, (i < cellCount g)%nat → offset g i ≤ offset g (S i))
  ∧ offset g (cellCount g) = total.

(** The instance indices of cell [i]. *)
Definition inCell (g : InstanceGrid) (i : nat) (x : Z) : Prop :=
  offset g i ≤ x < offset g (S i).

(** The spheres of cell [i] meets the closed distance interval
    [[lo, hi]]: [d + radius >= lo] and [d - radius <= hi]. *)
Definition meetsRange (d r lo hi : float) : Prop :=
  PrimFloat.leb lo (d + r)%float = true
  ∧ PrimFloat.leb (d - r)%float hi = true.

(** The sphere touches one end of the interval exactly and does not lie
    beyond the other end. *)
Definition touchesRange (d r lo hi : float) : Prop :=
  (PrimFloat.eqb (d + r)%float lo = true
   ∧ PrimFloat.leb (d - r)%float hi = true)
  ∨ (PrimFloat.eqb (d - r)%float hi = true
     ∧ PrimFloat.leb lo (d + r)%float = true).

(** An [Int32] value. *)
Definition isInt32 (z : Z) : Prop := -2 ^ 31 ≤ z < 2 ^ 31.

(** The number of instances of cell [i] and of the cells [a .. b-1]. *)
Definition rangeSize (g : InstanceGrid) (i : nat) : Z :=
  offset g (S i) - offset g i.

Definition runSize (g : InstanceGrid) (a b : nat) : Z :=
  foldr Z.add 0 (rangeSize g <$> seq a (b - a)).

(** ** A reference instance of the collaborators *)

Module Ref.

(** Modelled from the spec: the plane, frustum and value-cell modules are
    not part of the sources. A plane is a normal and a constant, the
    distance of a point is the signed distance along the normal; a frustum
    is a sequence of planes and a sphere is kept unless it lies entirely
    outside one of them; a value cell carries a version that every update
    increments. The properties of [cull] below are proved for arbitrary
    collaborators; this instance serves to run the pass on sample
    inputs. *)
Record Plane3D := mkPlane3D { normal : Vec3; constant : float }.

Definition dot (a b : Vec3) : float :=
  (v3x a * v3x b + v3y a * v3y b + v3z a * v3z b)%float.

Definition distanceToPoint (p : Plane3D) (pt : Vec3) : float :=
  (dot (normal p) pt + constant p)%float.

Definition Frustum3D := list Plane3D.

Definition intersectsSphere3D (f : Frustum3D) (s : Sphere3D) : bool :=
  forallb (fun p => negb (PrimFloat.ltb (distanceToPoint p (center s))
                                       (- radius s)%float)) f.

Record ValueCell := mkValueCell { vc_version : Z; vc_value : Vec4 }.

Definition create (v : Vec4) : ValueCell := mkValueCell 0 v.
Definition update (c : ValueCell) (v : Vec4) : ValueCell :=
  mkValueCell (vc_version c + 1) v.

End Ref.

(** ** Sample inputs

    A camera plane through the origin that looks along the z axis, a
    frustum of the single plane [x ≥ -1], and a few grids; the examples at
    the end of the file run the pass on them. *)

Module Demo.

Definition plane : Ref.Plane3D := Ref.mkPlane3D (mkVec3 0 0 1) 0.

Definition frustum : Ref.Frustum3D := [Ref.mkPlane3D (mkVec3 1 0 0) 1].

(** The packed sphere at [(x, 0, z)] of radius [r]. *)
Definition sphere (x z r : float) : list float := [x; 0%float; z; r].

(** Four cells, the second one empty and out of the frustum. *)
Definition grid4 : InstanceGrid :=
  mkInstanceGrid [0; 10; 10; 25; 40]
    (sphere 0 5 1 ++ sphere (-5) 5 1 ++ sphere 0 5 1 ++ sphere 0 5 1) 4.

(** Three cells, the second one out of the frustum. *)
Definition grid3 : InstanceGrid :=
  mkInstanceGrid [0; 10; 20; 30]
    (sphere 0 5 1 ++ sphere (-5) 5 1 ++ sphere 0 5 1) 3.

(** Three cells, only the second one in the frustum, and it is empty. *)
Definition grid3e : InstanceGrid :=
  mkInstanceGrid [0; 10; 10; 20]
    (sphere (-5) 5 1 ++ sphere 0 5 1 ++ sphere (-5) 5 1) 3.

(** Two cells in the frustum, at distances 45 and 10. *)
Definition grid2 : InstanceGrid :=
  mkInstanceGrid [0; 10; 20] (sphere 0 45 2 ++ sphere 0 10 2) 2.

(** One cell in the frustum, at distance 10. *)
Definition grid1 : InstanceGrid :=
  mkInstanceGrid [0; 10] (sphere 0 10 1) 1.

(** One cell in the frustum whose sphere starts exactly at distance 50. *)
Definition grid1touch : InstanceGrid :=
  mkInstanceGrid [0; 10] (sphere 0 52 2) 1.

(** An overall distance range that none of the cells above reaches. *)
Definition farLod : float * float := (100%float, 200%float).

Definition bands : LodLevels :=
  mkLodLevels 0 [mkLodLevel 0 50 0 3 1; mkLodLevel 40 100 0 2 1].

Definition noLod : float * float := (0%float, 0%float).

(** An overall range whose far end the cell of [grid1touch] touches. *)
Definition nearLod : float * float := (0%float, 50%float).

(** An overall range whose near end the cell of [grid1touch] touches
    and whose far end lies before it. *)
Definition crossedLod : float * float := (54%float, 10%float).

(** Six cells of ten instances, the second and the fifth out of the
    frustum. *)
Definition grid6 : InstanceGrid :=
  mkInstanceGrid [0; 10; 20; 30; 40; 50; 60]
    (sphere 0 5 1 ++ sphere (-5) 5 1 ++ sphere 0 5 1 ++ sphere 0 5 1
     ++ sphere (-5) 5 1 ++ sphere 0 5 1) 6.

(** Two cells, the first one empty and out of the frustum. *)
Definition grid2e : InstanceGrid :=
  mkInstanceGrid [0; 0; 10] (sphere (-5) 5 1 ++ sphere 0 5 1) 2.

(** One cell in the frustum that holds 2^31 instances; its sphere starts
    exactly at distance 50. *)
Definition gridBig : InstanceGrid :=
  mkInstanceGrid [0; 2147483648] (sphere 0 52 2) 1.

(** A table of one band whose draw count is not an [Int32] value. *)
Definition bigCount : LodLevels :=
  mkLodLevels 0 [mkLodLevel 0 50 0 2147483648 1].

(** A table of one band that starts behind the cell of [grid1touch]. *)
Definition farBand : LodLevels :=
  mkLodLevels 0 [mkLodLevel 60 100 0 3 1].

Definition plainValues (g : InstanceGrid) (total : Z) (u : float * float)
    : Values :=
  mkValues 6 total (Some g) u None.

Definition lodValues (g : InstanceGrid) (total : Z) (u : float * float)
    : Values :=
  mkValues 6 total (Some g) u (Some bands).

End Demo.

Section Renderable.

(** The collaborators that are imported from other modules. *)
Variables Plane3D Frustum3D : Type.
Variable p3distanceToPoint : Plane3D → Vec3 → float.
Variable f3intersectsSphere3D : Frustum3D → Sphere3D → bool.
Variable ValueCell : Type.
Variable vc_create : Vec4 → ValueCell.
Variable vc_update : ValueCell → Vec4 → ValueCell.

Record MultiDrawBaseData := mkMdb {
  firsts : list Z;
  counts : list Z;
  offsets : list Z;
  instanceCounts : list Z;
  baseVertices : list Z;
  baseInstances : list Z;
  count : nat;
  uniforms : list (string * ValueCell)
}.

Definition set_count (n : nat) (m : MultiDrawBaseData) : MultiDrawBaseData :=
  mkMdb (firsts m) (counts m) (offsets m) (instanceCounts m)
        (baseVertices m) (baseInstances m) n (uniforms m).

Definition set_uniforms (u : list (string * ValueCell))
    (m : MultiDrawBaseData) : MultiDrawBaseData :=
  mkMdb (firsts m) (counts m) (offsets m) (instanceCounts m)
        (baseVertices m) (baseInstances m) (count m) u.

Definition set_arrays (cs ics bis : list Z)
    (m : MultiDrawBaseData) : MultiDrawBaseData :=
  mkMdb (firsts m) cs (offsets m) ics (baseVertices m) bis
        (count m) (uniforms m).

(** *** The heap of batch objects *)

#[local] Abbreviation loc := nat (only parsing).
#[local] Abbreviation Heap := (list MultiDrawBaseData) (only parsing).

(** The object literal of [getMdbData]: zero-filled arrays of length
    [cellCount]. *)
Definition newMdbData (cellCount : nat) : MultiDrawBaseData :=
  {| firsts := replicate cellCount 0;
     counts := replicate cellCount 0;
     offsets := replicate cellCount 0;
     instanceCounts := replicate cellCount 0;
     baseVertices := replicate cellCount 0;
     baseInstances := replicate cellCount 0;
     count := 0;
     uniforms := [] |}.

(** Dereferencing; every location the renderable holds is allocated
    (see [wf] and [reachable_wf]), so the default is never used. *)
Definition deref (h : Heap) (r : loc) : MultiDrawBaseData :=
  default (newMdbData 0) (h !! r).

Definition modify (f : MultiDrawBaseData → MultiDrawBaseData)
    (r : loc) (h : Heap) : Heap :=
  alter f r h.

Definition alloc (m : MultiDrawBaseData) (h : Heap) : Heap * loc :=
  (h ++ [m], length h).

Definition getMdbData (cellCount : nat) (mdbData : option loc) (h : Heap)
    : Heap * loc :=
  match mdbData with
  | Some r =>
      if (cellCount <=? length (instanceCounts (deref h r)))%nat
      then (h, r)
      else alloc (newMdbData cellCount) h
  | None => alloc (newMdbData cellCount) h
  end.

(** *** The closure state of a renderable *)

(** [mdbDataList] is a JavaScript array: setting its [length] beyond the
    current one leaves holes, [None] here. *)
Record Renderable := mkRenderable {
  heap : Heap;
  mdbData : loc;
  mdbDataList : list (option loc);
  cullEnabled : bool;
  lodLevelsVersion : Z
}.

Definition createRenderable : Renderable :=
  let '(h, r) := getMdbData 0 None [] in
  {| heap := h; mdbData := r; mdbDataList := [];
     cullEnabled := false; lodLevelsVersion := -1 |}.

(** [a.length = n] on a JavaScript array. *)
Definition setLength {A} (n : nat) (a : list (option A)) : list (option A) :=
  resize n None a.

(** ** The culling pass *)

(** The two distance tests that skip a cell:
    [d + s.radius < minDistance] and [d - s.radius > maxDistance]. *)
Definition outsideRange (d r minDistance maxDistance : float) : bool :=
  PrimFloat.ltb (d + r)%float minDistance
  || gtb (d - r)%float maxDistance.

(** [minDistance !== 0 || maxDistance !== 0] *)
Definition hasLodOf (u : float * float) : bool :=
  negb (PrimFloat.eqb (fst u) 0%float) || negb (PrimFloat.eqb (snd u) 0%float).

(** Lines 99-102: one batch per band, reused when large enough, its
    [count] reset. *)
Definition prepareBatch (cellCount : nat)
    (s : Heap * list (option loc)) (i : nat) : Heap * list (option loc) :=
  let '(h, l) := s in
  let '(h1, r) := getMdbData cellCount (mjoin (l !! i)) h in
  (modify (set_count 0) r h1, <[i := Some r]> l).

Definition prepareBatches (cellCount n : nat)
    (s : Heap * list (option loc)) : Heap * list (option loc) :=
  foldl (prepareBatch cellCount) s (seq 0 n).

(** Lines 105-109: the [uLod] uniform of band [i]. *)
Definition lodVec (lv : LodLevel) : Vec4 :=
  mkVec4 (lod_minDistance lv) (lod_maxDistance lv)
         (lod_overlap lv) (lod_sizeFactor lv).

Definition rebuildUniform (lv : LodLevel)
    (m : MultiDrawBaseData) : MultiDrawBaseData :=
  let u :=
    match uniforms m with
    | [u0] => [u0]
    | _ => [("uLod"%string,
             vc_create (mkVec4 0%float 0%float 0%float 0%float))]
    end in
  set_uniforms
    (match u with
     | (name, cell) :: rest => (name, vc_update cell (lodVec lv)) :: rest
     | [] => []
     end) m.

Fixpoint rebuildUniforms (lvls : list LodLevel) (i : nat)
    (l : list (option loc)) (h : Heap) : Heap :=
  match lvls with
  | [] => h
  | lv :: rest =>
      rebuildUniforms rest (S i) l
        (match mjoin (l !! i) with
         | Some r => modify (rebuildUniform lv) r h
         | None => h
         end)
  end.

(** Lines 132-142: add the range of a cell to the batch of a band. *)
Definition appendLod (begin cnt : num) (c : Z)
    (l : MultiDrawBaseData) : MultiDrawBaseData :=
  let o := count l in
  if (0 <? o)%nat
     && num_eqb (num_add (baseInstances l !! (o - 1)%nat)
                         (instanceCounts l !! (o - 1)%nat)) begin
     && num_eqb (counts l !! (o - 1)%nat) (Some c)
  then
    set_arrays (counts l)
      (<[(o - 1)%nat :=
           storeInt32 (num_add (instanceCounts l !! (o - 1)%nat) cnt)]>
         (instanceCounts l))
      (baseInstances l) l
  else
    set_count (o + 1)%nat
      (set_arrays (<[o := toInt32 c]> (counts l))
                  (<[o := storeInt32 cnt]> (instanceCounts l))
                  (<[o := storeUint32 begin]> (baseInstances l)) l).

(** Lines 128-143: the loop over the bands, for one surviving cell. *)
Fixpoint bandLoop (d r : float) (begin cnt : num)
    (l : list (option loc)) (lvls : list LodLevel) (j : nat)
    (h : Heap) : Heap :=
  match lvls with
  | [] => h
  | lv :: rest =>
      bandLoop d r begin cnt l rest (S j)
        (if outsideRange d r (lod_minDistance lv) (lod_maxDistance lv)
         then h
         else match mjoin (l !! j) with
              | Some ref => modify (appendLod begin cnt (lod_count lv)) ref h
              | None => h
              end)
  end.

(** [count === 0] *)
Definition num_is_zero (a : num) : bool := num_eqb a (Some 0).

(** Lines 115-143: the body of the loop over the cells, with a LOD
    table. *)
Definition cullCellLod (cameraPlane : Plane3D) (frustum : Frustum3D)
    (g : InstanceGrid) (u : float * float) (lvls : list LodLevel)
    (l : list (option loc)) (h : Heap) (i : nat) : Heap :=
  let s := s3fromArray (cellSpheres g) (i * 4) in
  let d := p3distanceToPoint cameraPlane (center s) in
  if hasLodOf u && outsideRange d (radius s) (fst u) (snd u) then h
  else if negb (f3intersectsSphere3D frustum s) then h
  else
    let begin := cellOffsets g !! i in
    let end_ := cellOffsets g !! (i + 1)%nat in
    let cnt := num_sub end_ begin in
    if num_is_zero cnt then h
    else bandLoop d (radius s) begin cnt l lvls 0 h.

(** The local variables of the pass without LOD table: the three arrays
    taken out of [mdbData], and [o]. *)
Record Local := mkLocal {
  l_baseInstances : list Z;
  l_instanceCounts : list Z;
  l_counts : list Z;
  l_o : nat
}.

(** Lines 165-172. *)
Definition appendPlain (begin cnt : num) (dc : Z) (s : Local) : Local :=
  let o := l_o s in
  if (0 <? o)%nat
     && num_eqb (num_add (l_baseInstances s !! (o - 1)%nat)
                         (l_instanceCounts s !! (o - 1)%nat)) begin
  then
    mkLocal (l_baseInstances s)
      (<[(o - 1)%nat :=
           storeInt32 (num_add (l_instanceCounts s !! (o - 1)%nat) cnt)]>
         (l_instanceCounts s))
      (l_counts s) o
  else
    mkLocal (<[o := storeUint32 begin]> (l_baseInstances s))
            (<[o := storeInt32 cnt]> (l_instanceCounts s))
            (<[o := toInt32 dc]> (l_counts s))
            (o + 1)%nat.

(** Lines 152-172: the body of the loop over the cells, without LOD
    table. *)
Definition cullCellPlain (cameraPlane : Plane3D) (frustum : Frustum3D)
    (g : InstanceGrid) (u : float * float) (dc : Z)
    (s : Local) (i : nat) : Local :=
  let sph := s3fromArray (cellSpheres g) (i * 4) in
  if hasLodOf u
     && (let d := p3distanceToPoint cameraPlane (center sph) in
         outsideRange d (radius sph) (fst u) (snd u))
  then s
  else if negb (f3intersectsSphere3D frustum sph) then s
  else
    let begin := cellOffsets g !! i in
    let end_ := cellOffsets g !! (i + 1)%nat in
    let cnt := num_sub end_ begin in
    if num_is_zero cnt then s
    else appendPlain begin cnt dc s.

(** Lines 97-144. *)
Definition cullLod (cameraPlane : Plane3D) (frustum : Frustum3D)
    (g : InstanceGrid) (u : float * float) (ll : LodLevels)
    (st : Renderable) : Renderable :=
  let lvls := lod_value ll in
  let '(h1, l1) :=
    prepareBatches (cellCount g) (length lvls)
      (heap st, setLength (length lvls) (mdbDataList st)) in
  let '(h2, ver) :=
    if negb (lod_version ll =? lodLevelsVersion st)
    then (rebuildUniforms lvls 0 l1 h1, lod_version ll)
    else (h1, lodLevelsVersion st) in
  let h3 :=
    foldl (cullCellLod cameraPlane frustum g u lvls l1) h2
          (seq 0 (cellCount g)) in
  {| heap := h3; mdbData := mdbData st; mdbDataList := l1;
     cullEnabled := cullEnabled st; lodLevelsVersion := ver |}.

(** Lines 147-177. *)
Definition cullPlain (cameraPlane : Plane3D) (frustum : Frustum3D)
    (g : InstanceGrid) (u : float * float) (dc : Z)
    (st : Renderable) : Renderable :=
  let '(h1, r) := getMdbData (cellCount g) (Some (mdbData st)) (heap st) in
  let m := deref h1 r in
  let s0 := mkLocal (baseInstances m) (instanceCounts m) (counts m) 0 in
  let s := foldl (cullCellPlain cameraPlane frustum g u dc) s0
                 (seq 0 (cellCount g)) in
  let h2 :=
    modify (fun m => set_count (l_o s)
                       (set_arrays (l_counts s) (l_instanceCounts s)
                                   (l_baseInstances s) m)) r h1 in
  let l1 := <[0%nat := Some r]> (setLength 1 (mdbDataList st)) in
  let h3 := modify (set_uniforms []) r h2 in
  {| heap := h3; mdbData := r; mdbDataList := l1;
     cullEnabled := cullEnabled st; lodLevelsVersion := lodLevelsVersion st |}.

Definition set_cullEnabled (b : bool) (st : Renderable) : Renderable :=
  {| heap := heap st; mdbData := mdbData st; mdbDataList := mdbDataList st;
     cullEnabled := b; lodLevelsVersion := lodLevelsVersion st |}.

(** [cull], lines 84-188. *)
Definition cull (cameraPlane : Plane3D) (frustum : Frustum3D)
    (values : Values) (st : Renderable) : Renderable :=
  let st := set_cullEnabled false st in
  if drawCount values =? 0 then st
  else if instanceCount values =? 0 then st
  else match instanceGrid values with
       | None => st
       | Some g =>
           let st' :=
             match lodLevels values with
             | Some ll =>
                 if (0 <? length (lod_value ll))%nat
                 then cullLod cameraPlane frustum g (uLod values) ll st
                 else cullPlain cameraPlane frustum g (uLod values)
                                (drawCount values) st
             | None =>
                 cullPlain cameraPlane frustum g (uLod values)
                           (drawCount values) st
             end in
           set_cullEnabled true st'
       end.

Definition uncull (st : Renderable) : Renderable :=
  set_cullEnabled false st.

(** The third argument of [renderItem.render]:
    [cullEnabled ? mdbDataList : undefined], with the batches read from
    the heap. The update of [uAlpha] in [render] does not depend on the
    culling state and is left out. *)
Definition renderBatches (st : Renderable)
    : option (list (option MultiDrawBaseData)) :=
  if cullEnabled st
  then Some (option_map (deref (heap st)) <$> mdbDataList st)
  else None.


(** ** Reading the pass cell by cell *)

Definition cellSphere (g : InstanceGrid) (i : nat) : Sphere3D :=
  s3fromArray (cellSpheres g) (i * 4).

Definition cellDistance (cameraPlane : Plane3D) (g : InstanceGrid)
    (i : nat) : float :=
  p3distanceToPoint cameraPlane (center (cellSphere g i)).

Definition cellBegin (g : InstanceGrid) (i : nat) : num := cellOffsets g !! i.
Definition cellEnd (g : InstanceGrid) (i : nat) : num :=
  cellOffsets g !! (i + 1)%nat.
Definition cellSize (g : InstanceGrid) (i : nat) : num :=
  num_sub (cellEnd g i) (cellBegin g i).

(** Cell [i] is skipped by the overall distance test (lines 117-120 and
    153-157). *)
Definition distanceCulled (cameraPlane : Plane3D) (g : InstanceGrid)
    (u : float * float) (i : nat) : bool :=
  hasLodOf u
  && outsideRange (cellDistance cameraPlane g i) (radius (cellSphere g i))
                  (fst u) (snd u).

(** Cell [i] passes the frustum test (lines 121 and 158). *)
Definition inFrustum (frustum : Frustum3D) (g : InstanceGrid)
    (i : nat) : bool :=
  f3intersectsSphere3D frustum (cellSphere g i).

(** Cell [i] reaches the range lookup: it passed the overall distance
    test and the frustum test. *)
Definition survives (cameraPlane : Plane3D) (frustum : Frustum3D)
    (g : InstanceGrid) (u : float * float) (i : nat) : bool :=
  negb (distanceCulled cameraPlane g u i) && inFrustum frustum g i.

(** Cell [i] passes the distance test of band [lv] (lines 129-130). *)
Definition inBand (cameraPlane : Plane3D) (g : InstanceGrid)
    (lv : LodLevel) (i : nat) : bool :=
  negb (outsideRange (cellDistance cameraPlane g i) (radius (cellSphere g i))
                     (lod_minDistance lv) (lod_maxDistance lv)).

(** The cells that contribute to the batch of band [lv]. *)
Definition bandKeep (cameraPlane : Plane3D) (frustum : Frustum3D)
    (g : InstanceGrid) (u : float * float) (lv : LodLevel) (i : nat) : bool :=
  survives cameraPlane frustum g u i && inBand cameraPlane g lv i.

(** The LOD table that [cull] branches on; absent counts as empty. *)
Definition activeLevels (values : Values) : list LodLevel :=
  match lodLevels values with
  | Some ll => lod_value ll
  | None => []
  end.

(** [lodLevels && lodLevels.length > 0] *)
Definition lodMode (values : Values) : bool :=
  (0 <? length (activeLevels values))%nat.

(** The cells that contribute to batch [j], and the draw count written
    into its entries: those of band [j] with a LOD table, those of the
    renderable without. *)
Definition batchKeep (cameraPlane : Plane3D) (frustum : Frustum3D)
    (values : Values) (g : InstanceGrid) (j i : nat) : bool :=
  match activeLevels values !! j with
  | Some lv => bandKeep cameraPlane frustum g (uLod values) lv i
  | None => survives cameraPlane frustum g (uLod values) i
  end.

Definition batchDrawCount (values : Values) (j : nat) : Z :=
  match activeLevels values !! j with
  | Some lv => lod_count lv
  | None => drawCount values
  end.

(** The entries that the cells [keep] selects leave in a batch: the merge
    rule applied to their ranges in index order, empty ranges skipped. *)
Definition cellStep (chk : bool) (keep : nat → bool) (g : InstanceGrid)
    (c : Z) (es : list Entry) (i : nat) : list Entry :=
  if keep i && negb (num_is_zero (cellSize g i))
  then pushEntry chk (cellBegin g i) (cellSize g i) c es
  else es.

Definition mergedEntries (chk : bool) (keep : nat → bool) (g : InstanceGrid)
    (c : Z) : list Entry :=
  foldl (cellStep chk keep g c) [] (seq 0 (cellCount g)).

(** The batches that [render] hands over after a completed pass, as
    objects. *)
Definition batches (st : Renderable) : list MultiDrawBaseData :=
  omap (option_map (deref (heap st))) (mdbDataList st).

(** The states a renderable goes through. *)
Inductive reachable : Renderable → Prop :=
  | reachable_create : reachable createRenderable
  | reachable_cull cameraPlane frustum values st :
      reachable st → reachable (cull cameraPlane frustum values st)
  | reachable_uncull st : reachable st → reachable (uncull st).

Definition entries (m : MultiDrawBaseData) : list Entry :=
  entriesOf (baseInstances m) (instanceCounts m) (counts m) (count m).

(** The capacity of a batch: the length of its arrays. *)
Definition capacity (m : MultiDrawBaseData) : nat :=
  length (instanceCounts m).

(** All three arrays written by [cull] have the capacity as length. *)
Definition uniform_cap (m : MultiDrawBaseData) : Prop :=
  length (baseInstances m) = capacity m ∧ length (counts m) = capacity m.

(** The contents of a batch: its [count] and the entries below it. *)
Definition batchContents (m : MultiDrawBaseData) : nat * list Entry :=
  (count m, entries m).

(** The instances of cell [i] are included in batch [j] of the state
    [st]: one entry of the batch covers the whole range of the cell. *)
Definition coveredIn (st : Renderable) (j : nat) (g : InstanceGrid)
    (i : nat) : Prop :=
  ∃ m k e, batches st !! j = Some m ∧ entries m !! k = Some e
           ∧ ∀ x, inCell g i x → covers e x.

(** The same, and no other entry of the batch reaches into the cell. *)
Definition coveredOnceIn (st : Renderable) (j : nat) (g : InstanceGrid)
    (i : nat) : Prop :=
  ∃ m k e, batches st !! j = Some m ∧ entries m !! k = Some e
           ∧ (∀ x, inCell g i x → covers e x)
           ∧ ∀ k' e' x, entries m !! k' = Some e' → inCell g i x →
               covers e' x → k' = k.

(** ** Invariants and views used in the proofs *)

Definition same_shape (m m' : MultiDrawBaseData) : Prop :=
  uniforms m' = uniforms m
  ∧ capacity m' = capacity m
  ∧ length (baseInstances m') = length (baseInstances m)
  ∧ length (counts m') = length (counts m)
  ∧ firsts m' = firsts m ∧ offsets m' = offsets m
  ∧ baseVertices m' = baseVertices m.

Definition localEntries (s : Local) : list Entry :=
  entriesOf (l_baseInstances s) (l_instanceCounts s) (l_counts s) (l_o s).

Definition local_cap (n : nat) (s : Local) : Prop :=
  length (l_baseInstances s) = n ∧ length (l_instanceCounts s) = n
  ∧ length (l_counts s) = n.

(** Every object of the heap has arrays of one length. *)
Definition heap_ok (h : list MultiDrawBaseData) : Prop :=
  ∀ r, uniform_cap (deref h r).

(** What the pass does to the batch of one band. *)
Definition cellStepMdb (keep : nat → bool) (g : InstanceGrid) (c : Z)
    (m : MultiDrawBaseData) (i : nat) : MultiDrawBaseData :=
  if keep i && negb (num_is_zero (cellSize g i))
  then appendLod (cellBegin g i) (cellSize g i) c m
  else m.

(** No location occurs at two indices of the batch list. *)
Definition slots_inj (l : list (option nat)) : Prop :=
  ∀ j j' r, l !! j = Some (Some r) → l !! j' = Some (Some r) → j = j'.

(** The loop of lines 99-102 by recursion on the slots of the list. *)
Fixpoint prep (cc : nat) (olds : list (option nat))
    (h : list MultiDrawBaseData) : list MultiDrawBaseData * list nat :=
  match olds with
  | [] => (h, [])
  | o :: os =>
      let '(h1, r) := getMdbData cc o h in
      let '(h2, rs) := prep cc os (modify (set_count 0) r h1) in
      (h2, r :: rs)
  end.

Definition same_data (m m' : MultiDrawBaseData) : Prop :=
  count m' = count m ∧ counts m' = counts m
  ∧ instanceCounts m' = instanceCounts m
  ∧ baseInstances m' = baseInstances m
  ∧ firsts m' = firsts m ∧ offsets m' = offsets m
  ∧ baseVertices m' = baseVertices m.

(** Every location held by the renderable is allocated, the objects have
    arrays of one length, and no object occurs twice in the list. *)
Definition wf (st : Renderable) : Prop :=
  heap_ok (heap st)
  ∧ (mdbData st < length (heap st))%nat
  ∧ slots_inj (mdbDataList st)
  ∧ (∀ k o, mdbDataList st !! k = Some o →
       ∃ r, o = Some r ∧ (r < length (heap st))%nat).

(** The draw count of a batch is an [Int32] value, so that the
    comparison [l.counts[o - 1] === lodLevels[j][3]] can succeed. *)
Definition count_fits (chk : bool) (c : Z) : Prop :=
  chk = true → toInt32 c = c.

(** The entries of a batch after the cells below [n]: positive counts
    within the offsets seen so far, increasing and apart, covering
    instances of kept cells only and every kept cell with instances. *)
Definition merge_inv (chk : bool) (keep : nat → bool) (g : InstanceGrid)
    (c : Z) (n : nat) (es : list Entry) : Prop :=
  (∀ k e, es !! k = Some e →
     0 ≤ e_baseInstance e ∧ 0 < e_instanceCount e
     ∧ e_baseInstance e + e_instanceCount e ≤ offset g n
     ∧ e_count e = toInt32 c)
  ∧ (∀ k e e', es !! k = Some e → es !! S k = Some e' →
       e_baseInstance e + e_instanceCount e ≤ e_baseInstance e'
       ∧ (count_fits chk c →
          e_baseInstance e + e_instanceCount e < e_baseInstance e'))
  ∧ (∀ k e x, es !! k = Some e → covers e x →
       ∃ i, (i < n)%nat ∧ keep i = true ∧ inCell g i x)
  ∧ (∀ i, (i < n)%nat → keep i = true → offset g i < offset g (S i) →
       ∃ k e, es !! k = Some e ∧ e_baseInstance e ≤ offset g i
              ∧ offset g (S i) ≤ e_baseInstance e + e_instanceCount e)
  ∧ (length es ≤ n)%nat.

(** *** Further views of a batch and of the heap *)

(** A property of all objects of the heap. *)
Definition heap_all (P : MultiDrawBaseData → Prop)
    (h : list MultiDrawBaseData) : Prop :=
  ∀ r, P (deref h r).

(** The arrays that [cull] never writes, [firsts], [offsets] and
    [baseVertices], are zero-filled and as long as the others. *)
Definition unusedArraysZero (m : MultiDrawBaseData) : Prop :=
  firsts m = replicate (capacity m) 0
  ∧ offsets m = replicate (capacity m) 0
  ∧ baseVertices m = replicate (capacity m) 0.

(** A batch has no uniform, or the single uniform ['uLod']. *)
Definition uniformsShape (m : MultiDrawBaseData) : Prop :=
  uniforms m = [] ∨ ∃ cell, uniforms m = [("uLod"%string, cell)].

(** The number of instances that the entries draw. *)
Definition instanceSum (es : list Entry) : Z :=
  foldr (fun e acc => e_instanceCount e + acc) 0 es.

(** The number of instances in the cells below [n] that [keep] selects. *)
Definition keptSize (keep : nat → bool) (g : InstanceGrid) (n : nat) : Z :=
  foldl (fun acc i => acc + (if keep i then rangeSize g i else 0)) 0
        (seq 0 n).

(** ** Arithmetic of the typed-array stores *)

Lemma toInt32_small z : -2 ^ 31 ≤ z < 2 ^ 31 → toInt32 z = z.
Proof. intros H. unfold toInt32. rewrite Z.mod_small; lia. Qed.

Lemma toUint32_small z : 0 ≤ z < 2 ^ 32 → toUint32 z = z.
Proof. intros H. unfold toUint32. rewrite Z.mod_small; lia. Qed.

(** ** Entries of the arrays *)

Lemma entriesOf_lookup bis ics cs o k :
  entriesOf bis ics cs o !! k =
    if decide (k < o)%nat
    then b ← bis !! k; n ← ics !! k; c ← cs !! k; Some (mkEntry b n c)
    else None.
Proof.
  unfold entriesOf. rewrite lookup_take. case_decide; [|done].
  rewrite lookup_zip_with, lookup_zip_with.
  destruct (bis !! k); simpl; [|done].
  destruct (ics !! k); simpl; [|done].
  by destruct (cs !! k).
Qed.

Lemma entriesOf_length bis ics cs o :
  (o ≤ length bis)%nat → (o ≤ length ics)%nat → (o ≤ length cs)%nat →
  length (entriesOf bis ics cs o) = o.
Proof.
  intros. unfold entriesOf.
  rewrite length_take, length_zip_with, length_zip_with. lia.
Qed.

Lemma entriesOf_0 bis ics cs : entriesOf bis ics cs 0 = [].
Proof. done. Qed.

Lemma entriesOf_last bis ics cs o :
  (o ≤ length bis)%nat → (o ≤ length ics)%nat → (o ≤ length cs)%nat →
  last (entriesOf bis ics cs o) =
    if decide (0 < o)%nat
    then b ← bis !! pred o; n ← ics !! pred o; c ← cs !! pred o;
         Some (mkEntry b n c)
    else None.
Proof.
  intros. rewrite last_lookup, entriesOf_length by done.
  rewrite entriesOf_lookup. repeat case_decide; try done; lia.
Qed.

(** The array code of both merge rules computes [pushEntry]. *)
Lemma entriesOf_push chk bis ics cs o begin cnt c :
  (o < length bis)%nat → (o < length ics)%nat → (o < length cs)%nat →
  let merge :=
    (0 <? o)%nat
    && num_eqb (num_add (bis !! (o - 1)%nat) (ics !! (o - 1)%nat)) begin
    && (negb chk || num_eqb (cs !! (o - 1)%nat) (Some c)) in
  (if merge
   then entriesOf bis
          (<[(o - 1)%nat := storeInt32 (num_add (ics !! (o - 1)%nat) cnt)]> ics) cs o
   else entriesOf (<[o := storeUint32 begin]> bis)
          (<[o := storeInt32 cnt]> ics) (<[o := toInt32 c]> cs) (S o))
  = pushEntry chk begin cnt c (entriesOf bis ics cs o).
Proof.
  intros Hb Hi Hc merge. subst merge. rewrite Nat.sub_1_r.
  set (merge := (_ && _ && _)). unfold pushEntry.
  rewrite entriesOf_last by lia.
  rewrite entriesOf_length by lia.
  destruct (decide (0 < o)%nat) as [Ho|Ho].
  - destruct (lookup_lt_is_Some_2 bis (pred o)) as [b Eb]; [lia|].
    destruct (lookup_lt_is_Some_2 ics (pred o)) as [n En]; [lia|].
    destruct (lookup_lt_is_Some_2 cs (pred o)) as [k Ek]; [lia|].
    subst merge. rewrite Eb, En, Ek. simpl.
    replace (0 <? o)%nat with true by (symmetry; apply Nat.ltb_lt; lia).
    simpl.
    match goal with |- (if ?t then _ else _) = _ => destruct t end.
    + apply list_eq. intros i.
      rewrite entriesOf_lookup.
      destruct (decide (i = pred o)) as [->|Hne].
      * rewrite !list_lookup_insert_eq
          by (rewrite ?entriesOf_length by lia; lia).
        case_decide; [|lia].
        rewrite Eb, Ek. done.
      * rewrite !list_lookup_insert_ne by done.
        by rewrite entriesOf_lookup.
    + apply list_eq. intros i.
      rewrite entriesOf_lookup.
      destruct (decide (i < o)%nat).
      * rewrite lookup_app_l by (rewrite entriesOf_length; lia).
        rewrite entriesOf_lookup.
        rewrite !list_lookup_insert_ne by lia.
        repeat case_decide; (done || lia).
      * rewrite lookup_app_r by (rewrite entriesOf_length; lia).
        rewrite entriesOf_length by lia.
        destruct (decide (i = o)) as [->|].
        -- rewrite Nat.sub_diag. case_decide; [|lia].
           rewrite !list_lookup_insert_eq by lia. done.
        -- case_decide; [lia|]. destruct (i - o)%nat eqn:?; [lia|done].
  - assert (o = 0%nat) as -> by lia. subst merge. simpl.
    apply list_eq. intros i. rewrite entriesOf_lookup.
    destruct i; case_decide; try lia; [|done].
    rewrite !list_lookup_insert_eq by lia. done.
Qed.


(** ** One merge step on a batch object and on the local arrays *)

Lemma same_shape_refl m : same_shape m m.
Proof. by repeat split. Qed.

Lemma same_shape_trans m1 m2 m3 :
  same_shape m1 m2 → same_shape m2 m3 → same_shape m1 m3.
Proof. unfold same_shape. intros H1 H2. destruct_and!. by repeat split; congruence. Qed.

Lemma same_shape_uniform_cap m m' :
  same_shape m m' → uniform_cap m → uniform_cap m'.
Proof. unfold same_shape, uniform_cap. intros. destruct_and!. split; congruence. Qed.

Lemma same_shape_set_count n m : same_shape m (set_count n m).
Proof. by repeat split. Qed.

Lemma appendLod_shape begin cnt c m : same_shape m (appendLod begin cnt c m).
Proof.
  unfold appendLod. case_match; repeat split; simpl;
    unfold capacity; simpl; by rewrite ?length_insert.
Qed.

Lemma appendLod_entries begin cnt c m :
  uniform_cap m → (count m < capacity m)%nat →
  entries (appendLod begin cnt c m) = pushEntry true begin cnt c (entries m).
Proof.
  intros [Hb Hc] Hlt. unfold entries.
  rewrite <- entriesOf_push by (unfold capacity in *; lia).
  unfold appendLod. simpl. rewrite Nat.add_1_r. by case_match.
Qed.

Lemma appendLod_count begin cnt c m :
  (count (appendLod begin cnt c m) ≤ S (count m))%nat.
Proof. unfold appendLod. case_match; simpl; lia. Qed.

Lemma appendPlain_cap n begin cnt dc s :
  local_cap n s → local_cap n (appendPlain begin cnt dc s).
Proof.
  unfold local_cap, appendPlain. intros (?&?&?).
  case_match; simpl; by rewrite ?length_insert.
Qed.

Lemma appendPlain_entries n begin cnt dc s :
  local_cap n s → (l_o s < n)%nat →
  localEntries (appendPlain begin cnt dc s)
  = pushEntry false begin cnt dc (localEntries s).
Proof.
  intros (Hb&Hi&Hc) Hlt. unfold localEntries.
  rewrite <- entriesOf_push by lia.
  unfold appendPlain. simpl. rewrite Nat.add_1_r, andb_true_r. by case_match.
Qed.

Lemma appendPlain_o begin cnt dc s :
  (l_o (appendPlain begin cnt dc s) ≤ S (l_o s))%nat.
Proof. unfold appendPlain. case_match; simpl; lia. Qed.


(** ** The loop over the cells, without LOD table *)

Lemma cullCellPlain_step cameraPlane frustum g u dc s i :
  cullCellPlain cameraPlane frustum g u dc s i =
    if survives cameraPlane frustum g u i && negb (num_is_zero (cellSize g i))
    then appendPlain (cellBegin g i) (cellSize g i) dc s
    else s.
Proof.
  unfold cullCellPlain, survives, distanceCulled, inFrustum, cellDistance,
    cellSphere, cellSize, cellEnd, cellBegin.
  destruct (hasLodOf u && _); simpl; [done|].
  destruct (f3intersectsSphere3D _ _); simpl; [|done].
  by destruct (num_is_zero _).
Qed.

Lemma foldl_seq_S {A} (f : A → nat → A) a n :
  foldl f a (seq 0 (S n)) = f (foldl f a (seq 0 n)) n.
Proof. by rewrite seq_S, foldl_app. Qed.

Lemma plain_loop cameraPlane frustum g u dc cap s0 n :
  local_cap cap s0 → l_o s0 = 0%nat → (n ≤ cap)%nat →
  let s := foldl (cullCellPlain cameraPlane frustum g u dc) s0 (seq 0 n) in
  local_cap cap s ∧ (l_o s ≤ n)%nat
  ∧ localEntries s
    = foldl (cellStep false (survives cameraPlane frustum g u) g dc) []
            (seq 0 n).
Proof.
  intros Hcap Ho. cbv zeta. induction n as [|n IH]; intros Hn.
  - simpl. repeat split; [apply Hcap..|lia|]. unfold localEntries.
    by rewrite Ho.
  - rewrite !foldl_seq_S. destruct IH as (IH1 & IH2 & IH3); [lia|].
    rewrite cullCellPlain_step. unfold cellStep at 1.
    case_match.
    + split; [by apply appendPlain_cap|].
      split; [etrans; [apply appendPlain_o|lia]|].
      rewrite (appendPlain_entries cap) by (done || lia). by rewrite IH3.
    + repeat split; [apply IH1..|lia|done].
Qed.


(** ** The heap *)

Lemma deref_lookup (h : list MultiDrawBaseData) r m :
  h !! r = Some m → deref h r = m.
Proof. unfold deref. by intros ->. Qed.

Lemma deref_modify f r (h : list MultiDrawBaseData) r' :
  deref (modify f r h) r' =
    if decide (r = r' ∧ (r < length h)%nat) then f (deref h r')
    else deref h r'.
Proof.
  unfold deref, modify. case_decide as H.
  - destruct H as [-> H]. rewrite list_lookup_alter_eq.
    destruct (lookup_lt_is_Some_2 h r' H) as [m ->]. done.
  - destruct (decide (r = r')) as [->|Hne].
    + rewrite list_lookup_alter_eq.
      rewrite (lookup_ge_None_2 h r') by lia. done.
    + by rewrite list_lookup_alter_ne.
Qed.

Lemma length_modify f r (h : list MultiDrawBaseData) :
  length (modify f r h) = length h.
Proof. apply length_alter. Qed.

Lemma deref_app_l (h h2 : list MultiDrawBaseData) r :
  (r < length h)%nat → deref (h ++ h2) r = deref h r.
Proof. intros. unfold deref. by rewrite lookup_app_l. Qed.

Lemma deref_alloc m (h : list MultiDrawBaseData) :
  deref (h ++ [m]) (length h) = m.
Proof.
  unfold deref. rewrite lookup_app_r, Nat.sub_diag by lia. done.
Qed.

Lemma newMdbData_uniform_cap n : uniform_cap (newMdbData n).
Proof. unfold uniform_cap, capacity. simpl. by rewrite !length_replicate. Qed.

Lemma newMdbData_capacity n : capacity (newMdbData n) = n.
Proof. unfold capacity. simpl. by rewrite length_replicate. Qed.

Lemma heap_ok_modify f r h :
  (∀ m, uniform_cap m → uniform_cap (f m)) →
  heap_ok h → heap_ok (modify f r h).
Proof.
  intros Hf Hh r'. rewrite deref_modify. case_decide; [apply Hf|]; apply Hh.
Qed.

Lemma heap_ok_alloc n h : heap_ok h → heap_ok (h ++ [newMdbData n]).
Proof.
  intros Hh r. destruct (decide (r < length h)%nat).
  - rewrite deref_app_l by done. apply Hh.
  - unfold deref. destruct (decide (r = length h)) as [->|].
    + rewrite lookup_app_r, Nat.sub_diag by lia.
      apply newMdbData_uniform_cap.
    + rewrite lookup_ge_None_2 by (rewrite length_app; simpl; lia).
      apply (newMdbData_uniform_cap 0).
Qed.

(** [getMdbData] returns the given buffer when it is large enough and a
    fresh one of capacity [cellCount] otherwise. *)
Lemma getMdbData_cases cc o (h : list MultiDrawBaseData) :
  (∃ r0, o = Some r0 ∧ (cc ≤ capacity (deref h r0))%nat
         ∧ getMdbData cc o h = (h, r0))
  ∨ ((∀ r0, o = Some r0 → (capacity (deref h r0) < cc)%nat)
     ∧ getMdbData cc o h = (h ++ [newMdbData cc], length h)).
Proof.
  unfold getMdbData, alloc. destruct o as [r0|].
  - fold (capacity (deref h r0)).
    destruct (Nat.leb_spec cc (capacity (deref h r0))).
    + left. by exists r0.
    + right. split; [|done]. by intros ? [= <-].
  - right. split; [|done]. by intros ? [=].
Qed.

(** ** The loop over the bands and the loop over the cells, on the heap *)

Lemma bandLoop_length d rad b n l lvls j h :
  length (bandLoop d rad b n l lvls j h) = length h.
Proof.
  revert j h. induction lvls as [|lv lvls IH]; intros j h; simpl; [done|].
  rewrite IH. repeat case_match; by rewrite ?length_modify.
Qed.

Lemma bandLoop_other d rad b n l lvls j h r :
  (∀ k, (j ≤ k)%nat → l !! k ≠ Some (Some r)) →
  deref (bandLoop d rad b n l lvls j h) r = deref h r.
Proof.
  revert j h. induction lvls as [|lv lvls IH]; intros j h Hr; simpl; [done|].
  rewrite IH by (intros; apply Hr; lia).
  destruct (outsideRange _ _ _ _); [done|].
  destruct (l !! j) as [[ref|]|] eqn:E; simpl; try done.
  rewrite deref_modify. case_decide as H; [|done].
  destruct H as [-> _]. by destruct (Hr j).
Qed.

Lemma bandLoop_at d rad b n l lvls j h j0 r lv :
  slots_inj l → l !! j0 = Some (Some r) → (r < length h)%nat →
  (j ≤ j0)%nat → lvls !! (j0 - j)%nat = Some lv →
  deref (bandLoop d rad b n l lvls j h) r =
    if outsideRange d rad (lod_minDistance lv) (lod_maxDistance lv)
    then deref h r
    else appendLod b n (lod_count lv) (deref h r).
Proof.
  intros Hinj Hr. revert j h.
  induction lvls as [|lv' lvls IH]; intros j h Hlt Hj Hlv; simpl; [done|].
  destruct (decide (j = j0)) as [->|Hne].
  - rewrite Nat.sub_diag in Hlv. injection Hlv as ->.
    rewrite bandLoop_other.
    2:{ intros k Hk E. specialize (Hinj _ _ _ Hr E). lia. }
    destruct (outsideRange _ _ _ _); [done|].
    rewrite Hr. simpl. rewrite deref_modify. case_decide; [done|].
    naive_solver.
  - assert (j0 - j = S (j0 - S j))%nat as Hs by lia.
    rewrite Hs in Hlv. simpl in Hlv.
    rewrite (IH (S j)); [| |lia|done].
    + assert (∀ h', deref h' r = deref h r → length h' = length h →
        (if outsideRange d rad (lod_minDistance lv) (lod_maxDistance lv)
         then deref h' r else appendLod b n (lod_count lv) (deref h' r)) =
        (if outsideRange d rad (lod_minDistance lv) (lod_maxDistance lv)
         then deref h r else appendLod b n (lod_count lv) (deref h r)))
        as Hsame by (by intros ? -> _).
      destruct (outsideRange d rad (lod_minDistance lv') _); [done|].
      destruct (l !! j) as [[ref|]|] eqn:E; simpl; try done.
      apply Hsame; [|apply length_modify].
      rewrite deref_modify. case_decide as H; [|done].
      destruct H as [-> _]. specialize (Hinj _ _ _ Hr E). lia.
    + repeat case_match; by rewrite ?length_modify.
Qed.

Lemma cullCellLod_length cameraPlane frustum g u lvls l h i :
  length (cullCellLod cameraPlane frustum g u lvls l h i) = length h.
Proof.
  unfold cullCellLod. repeat case_match; try done. apply bandLoop_length.
Qed.

Lemma cullCellLod_other cameraPlane frustum g u lvls l h i r :
  (∀ k, l !! k ≠ Some (Some r)) →
  deref (cullCellLod cameraPlane frustum g u lvls l h i) r = deref h r.
Proof.
  intros. unfold cullCellLod. repeat case_match; try done.
  apply bandLoop_other. auto.
Qed.

Lemma cullCellLod_at cameraPlane frustum g u lvls l h i j0 r lv :
  slots_inj l → l !! j0 = Some (Some r) → (r < length h)%nat →
  lvls !! j0 = Some lv →
  deref (cullCellLod cameraPlane frustum g u lvls l h i) r =
    cellStepMdb (bandKeep cameraPlane frustum g u lv)
                g (lod_count lv) (deref h r) i.
Proof.
  intros Hinj Hr Hlt Hlv.
  unfold cullCellLod, cellStepMdb, bandKeep, survives, distanceCulled,
    inFrustum, inBand, cellDistance, cellSphere, cellSize, cellEnd, cellBegin.
  destruct (hasLodOf u && _); simpl; [done|].
  destruct (f3intersectsSphere3D _ _); simpl; [|done].
  destruct (num_is_zero _).
  - rewrite andb_false_r. done.
  - rewrite andb_true_r.
    rewrite (bandLoop_at _ _ _ _ _ _ _ _ j0 r lv);
      [|done|done|done|lia|by rewrite Nat.sub_0_r].
    by destruct (outsideRange _ _ _ _).
Qed.

Lemma cellLoopLod_length cameraPlane frustum g u lvls l h cells :
  length (foldl (cullCellLod cameraPlane frustum g u lvls l) h cells)
  = length h.
Proof.
  revert h. induction cells as [|i cells IH]; intros h; simpl; [done|].
  by rewrite IH, cullCellLod_length.
Qed.

Lemma cellLoopLod_other cameraPlane frustum g u lvls l h cells r :
  (∀ k, l !! k ≠ Some (Some r)) →
  deref (foldl (cullCellLod cameraPlane frustum g u lvls l) h cells) r
  = deref h r.
Proof.
  intros Hr. revert h.
  induction cells as [|i cells IH]; intros h; simpl; [done|].
  by rewrite IH, cullCellLod_other.
Qed.

Lemma cellLoopLod_at cameraPlane frustum g u lvls l h cells j0 r lv :
  slots_inj l → l !! j0 = Some (Some r) → (r < length h)%nat →
  lvls !! j0 = Some lv →
  deref (foldl (cullCellLod cameraPlane frustum g u lvls l) h cells) r =
    foldl (cellStepMdb (bandKeep cameraPlane frustum g u lv)
                       g (lod_count lv)) (deref h r) cells.
Proof.
  intros Hinj Hr Hlt Hlv. revert h Hlt.
  induction cells as [|i cells IH]; intros h Hlt; simpl; [done|].
  rewrite IH by (by rewrite cullCellLod_length).
  by rewrite (cullCellLod_at _ _ _ _ _ _ _ _ j0 r lv).
Qed.

Lemma mdb_loop keep g c m0 n :
  uniform_cap m0 → count m0 = 0%nat → (n ≤ capacity m0)%nat →
  let m := foldl (cellStepMdb keep g c) m0 (seq 0 n) in
  same_shape m0 m ∧ (count m ≤ n)%nat
  ∧ entries m = foldl (cellStep true keep g c) [] (seq 0 n).
Proof.
  intros Hcap Ho. cbv zeta. induction n as [|n IH]; intros Hn.
  - simpl. split; [apply same_shape_refl|]. split; [lia|].
    unfold entries. by rewrite Ho.
  - rewrite !foldl_seq_S. destruct IH as (IH1 & IH2 & IH3); [lia|].
    unfold cellStepMdb at 1 3 5, cellStep at 1. case_match; [|by auto with lia].
    split; [eapply same_shape_trans; [done|apply appendLod_shape]|].
    split; [etrans; [apply appendLod_count|lia]|].
    rewrite appendLod_entries, IH3; [done|by eapply same_shape_uniform_cap|].
    destruct IH1 as (_ & -> & _). lia.
Qed.


(** ** Preparing the batches of the bands *)

Lemma prepareBatches_prep_gen cc pre olds h :
  foldl (prepareBatch cc) (h, pre ++ olds) (seq (length pre) (length olds))
  = let '(h', rs) := prep cc olds h in (h', pre ++ (Some <$> rs)).
Proof.
  revert pre h. induction olds as [|o os IH]; intros pre h; simpl.
  - by rewrite app_nil_r.
  - rewrite lookup_app_r, Nat.sub_diag by lia. simpl.
    destruct (getMdbData cc o h) as [h1 r].
    replace (<[length pre:=Some r]> (pre ++ o :: os))
      with ((pre ++ [Some r]) ++ os).
    2:{ rewrite <- (Nat.add_0_r (length pre)).
        rewrite insert_app_r. simpl. by rewrite <- app_assoc. }
    replace (S (length pre)) with (length (pre ++ [Some r]))
      by (rewrite length_app; simpl; lia).
    rewrite IH.
    destruct (prep cc os _) as [h2 rs]. by rewrite <- app_assoc.
Qed.

Lemma prepareBatches_prep cc n l h :
  prepareBatches cc n (h, setLength n l)
  = let '(h', rs) := prep cc (setLength n l) h in (h', Some <$> rs).
Proof.
  unfold prepareBatches.
  pose proof (prepareBatches_prep_gen cc [] (setLength n l) h) as H.
  simpl in H. unfold setLength in *. rewrite length_resize in H. apply H.
Qed.

Lemma prep_length cc olds h :
  length (prep cc olds h).2 = length olds.
Proof.
  revert h. induction olds as [|o os IH]; intros h; simpl; [done|].
  destruct (getMdbData cc o h) as [h1 r].
  specialize (IH (modify (set_count 0) r h1)).
  destruct (prep cc os _) as [h2 rs]. simpl in *. by rewrite IH.
Qed.

(** The outcome of one slot: the heap after the buffer is chosen and its
    [count] reset. *)
Lemma prepare_slot cc o h h1 r :
  heap_ok h → (∀ r0, o = Some r0 → (r0 < length h)%nat) →
  getMdbData cc o h = (h1, r) →
  let h2 := modify (set_count 0) r h1 in
  heap_ok h2 ∧ (length h ≤ length h2)%nat ∧ (r < length h2)%nat
  ∧ count (deref h2 r) = 0%nat ∧ (cc ≤ capacity (deref h2 r))%nat
  ∧ (∀ r0, (r0 < length h)%nat → same_shape (deref h r0) (deref h2 r0))
  ∧ (∀ r0, r0 ≠ r → (r0 < length h)%nat → deref h2 r0 = deref h r0)
  ∧ ((o = Some r ∧ (cc ≤ capacity (deref h r))%nat ∧ length h2 = length h)
     ∨ (r = length h ∧ length h2 = S (length h)
        ∧ ∀ r0, o = Some r0 → (capacity (deref h r0) < cc)%nat)).
Proof.
  intros Hok Hval Hget h2. subst h2.
  destruct (getMdbData_cases cc o h) as [(r0 & -> & Hcap & E)|[Hsmall E]];
    rewrite E in Hget; injection Hget as <- <-.
  - pose proof (Hval r0 eq_refl) as Hlt.
    split; [by apply heap_ok_modify|].
    rewrite length_modify. split; [done|]. split; [done|].
    rewrite deref_modify. rewrite decide_True by done.
    split; [done|]. split; [done|].
    split.
    { intros r1 _. rewrite deref_modify. case_decide;
        [apply same_shape_set_count|apply same_shape_refl]. }
    split.
    { intros r1 Hne _. rewrite deref_modify.
      by rewrite decide_False by (intros [? _]; congruence). }
    left. done.
  - split; [by apply heap_ok_modify, heap_ok_alloc|].
    rewrite length_modify, length_app. simpl.
    split; [lia|]. split; [lia|].
    rewrite deref_modify.
    rewrite decide_True by (rewrite length_app; simpl; lia).
    rewrite deref_alloc. split; [done|].
    split; [unfold capacity; simpl; by rewrite length_replicate|].
    split.
    { intros r1 Hr1. rewrite deref_modify.
      rewrite decide_False by lia. rewrite deref_app_l by done.
      apply same_shape_refl. }
    split.
    { intros r1 Hne Hr1. rewrite deref_modify.
      rewrite decide_False by (intros [? _]; congruence).
      by rewrite deref_app_l. }
    right. split; [done|]. split; [lia|done].
Qed.

Lemma prep_spec cc olds h h' rs :
  heap_ok h →
  (∀ k r, olds !! k = Some (Some r) → (r < length h)%nat) →
  slots_inj olds →
  prep cc olds h = (h', rs) →
  heap_ok h' ∧ (length h ≤ length h')%nat ∧ NoDup rs
  ∧ (∀ r, r ∈ rs → (r < length h')%nat ∧ count (deref h' r) = 0%nat
                    ∧ (cc ≤ capacity (deref h' r))%nat)
  ∧ (∀ r, (r < length h)%nat → same_shape (deref h r) (deref h' r))
  ∧ (∀ r, (r < length h)%nat → r ∉ rs → deref h' r = deref h r)
  ∧ (∀ k r r', olds !! k = Some (Some r) → rs !! k = Some r' →
       (capacity (deref h r) ≤ capacity (deref h' r'))%nat
       ∧ ((cc ≤ capacity (deref h r))%nat → r' = r))
  ∧ (∀ r, r ∈ rs →
       (∃ k, olds !! k = Some (Some r)) ∨ (length h ≤ r)%nat).
Proof.
  revert h h' rs.
  induction olds as [|o os IH]; intros h h' rs Hok Hval Hinj Hprep;
    simpl in Hprep.
  - injection Hprep as <- <-.
    split; [done|]. split; [done|]. split; [constructor|].
    split; [by intros ? ?%elem_of_nil|].
    split; [intros; apply same_shape_refl|].
    split; [done|]. split; [done|]. by intros ? ?%elem_of_nil.
  - destruct (getMdbData cc o h) as [h1 r] eqn:Hget.
    destruct (prep cc os _) as [h2 rs'] eqn:Hrec.
    injection Hprep as <- <-.
    destruct (prepare_slot cc o h h1 r Hok) as
      (Hok2 & Hlen2 & Hr2 & Hc2 & Hcap2 & Hsh2 & Hfr2 & Hcase);
      [intros r0 ->; by apply (Hval 0%nat)|done|].
    destruct (IH _ h2 rs' Hok2) as
      (Hok' & Hlen' & Hnd & Hrs & Hsh & Hfr & Hslot & Horig); [| |done|].
    { intros k r0 E. specialize (Hval (S k) r0 E). lia. }
    { intros j j' r0 E1 E2.
      specialize (Hinj (S j) (S j') r0 E1 E2). lia. }
    assert (r ∉ rs') as Hnotin.
    { intros Hin. destruct (Horig r Hin) as [[k E]|?]; [|lia].
      pose proof (Hval (S k) r E) as Hlt.
      destruct Hcase as [(-> & _)|(-> & _)]; [|lia].
      specialize (Hinj 0%nat (S k) r eq_refl E). lia. }
    split; [done|]. split; [lia|]. split; [by constructor|].
    split.
    { intros r0 [->|Hin]%elem_of_cons; [|by apply Hrs].
      rewrite Hfr by done. split; [lia|done]. }
    split.
    { intros r0 Hr0. eapply same_shape_trans; [by apply Hsh2|].
      apply Hsh. lia. }
    split.
    { intros r0 Hr0 Hni. apply not_elem_of_cons in Hni as [Hne Hni].
      rewrite Hfr by (done || lia). by apply Hfr2. }
    split.
    { intros [|k] r0 r' E1 E2; simpl in *.
      - injection E1 as ->. injection E2 as <-.
        pose proof (Hval 0%nat r0 eq_refl) as Hlt.
        rewrite Hfr by done.
        destruct Hcase as [(E & Hc & _)|(-> & _ & Hsm)].
        + injection E as <-.
          destruct (Hsh2 r0 Hlt) as (_ & -> & _). done.
        + specialize (Hsm r0 eq_refl).
          split; [lia|]. intros; lia.
      - pose proof (Hval (S k) r0 E1) as Hlt.
        destruct (Hslot k r0 r' E1 E2) as [H1 H2].
        destruct (Hsh2 r0 Hlt) as (_ & Hc & _). rewrite Hc in *. done. }
    intros r0 [->|Hin]%elem_of_cons.
    + destruct Hcase as [(-> & _)|(-> & _)]; [left; by exists 0%nat|right; lia].
    + destruct (Horig r0 Hin) as [[k E]|?]; [left; by exists (S k)|right; lia].
Qed.


(** ** What the loops leave unchanged *)

Lemma same_data_refl m : same_data m m.
Proof. by repeat split. Qed.

Lemma same_data_trans m1 m2 m3 :
  same_data m1 m2 → same_data m2 m3 → same_data m1 m3.
Proof.
  unfold same_data. intros H1 H2. destruct_and!.
  by repeat split; congruence.
Qed.

Lemma same_data_entries m m' : same_data m m' → entries m' = entries m.
Proof. unfold same_data, entries. intros. destruct_and!. congruence. Qed.

Lemma same_data_capacity m m' : same_data m m' → capacity m' = capacity m.
Proof. unfold same_data, capacity. intros. destruct_and!. congruence. Qed.

Lemma same_data_uniform_cap m m' :
  same_data m m' → uniform_cap m → uniform_cap m'.
Proof.
  unfold same_data, uniform_cap, capacity. intros. destruct_and!.
  split; congruence.
Qed.

Lemma rebuildUniform_data lv m : same_data m (rebuildUniform lv m).
Proof. by repeat split. Qed.

Lemma modify_rel (R : MultiDrawBaseData → MultiDrawBaseData → Prop) f r h r' :
  (∀ m, R m m) → (∀ m, R m (f m)) →
  R (deref h r') (deref (modify f r h) r').
Proof. intros Hrefl Hf. rewrite deref_modify. by case_decide. Qed.

Lemma rebuildUniforms_length lvls i l h :
  length (rebuildUniforms lvls i l h) = length h.
Proof.
  revert i h. induction lvls as [|lv lvls IH]; intros i h; simpl; [done|].
  rewrite IH. case_match; by rewrite ?length_modify.
Qed.

Lemma rebuildUniforms_data lvls i l h r :
  same_data (deref h r) (deref (rebuildUniforms lvls i l h) r).
Proof.
  revert i h. induction lvls as [|lv lvls IH]; intros i h; simpl.
  - apply same_data_refl.
  - eapply same_data_trans; [|apply IH].
    case_match; [|apply same_data_refl].
    apply modify_rel; [apply same_data_refl|apply rebuildUniform_data].
Qed.

Lemma bandLoop_shape d rad b n l lvls j h r :
  same_shape (deref h r) (deref (bandLoop d rad b n l lvls j h) r).
Proof.
  revert j h. induction lvls as [|lv lvls IH]; intros j h; simpl.
  - apply same_shape_refl.
  - eapply same_shape_trans; [|apply IH].
    repeat case_match; try apply same_shape_refl.
    apply modify_rel; [apply same_shape_refl|apply appendLod_shape].
Qed.

Lemma cellLoopLod_shape cameraPlane frustum g u lvls l h cells r :
  same_shape (deref h r)
    (deref (foldl (cullCellLod cameraPlane frustum g u lvls l) h cells) r).
Proof.
  revert h. induction cells as [|i cells IH]; intros h; simpl.
  - apply same_shape_refl.
  - eapply same_shape_trans; [|apply IH].
    unfold cullCellLod. repeat case_match; try apply same_shape_refl.
    apply bandLoop_shape.
Qed.

(** ** Well-formed states *)

Lemma setLength_lookup_Some {A} n (l : list (option A)) k x :
  setLength n l !! k = Some (Some x) → l !! k = Some (Some x).
Proof.
  unfold setLength. intros H.
  destruct (decide (k < n)%nat) as [Hn|Hn].
  - destruct (decide (k < length l)%nat).
    + by rewrite lookup_resize in H.
    + rewrite lookup_resize_new in H by lia. done.
  - rewrite lookup_ge_None_2 in H; [done|]. rewrite length_resize. lia.
Qed.

Lemma setLength_lookup_old {A} n (l : list (option A)) k x :
  l !! k = Some x → (k < n)%nat → setLength n l !! k = Some x.
Proof.
  intros H Hn. unfold setLength.
  rewrite lookup_resize; [done|done|]. by eapply lookup_lt_Some.
Qed.

Lemma slots_inj_fmap_Some (rs : list nat) :
  NoDup rs → slots_inj (Some <$> rs).
Proof.
  intros Hnd j j' r H1 H2.
  rewrite list_lookup_fmap in H1, H2.
  destruct (rs !! j) eqn:E1; [|done].
  destruct (rs !! j') eqn:E2; [|done].
  simpl in *. simplify_eq. by eapply NoDup_lookup.
Qed.


(** ** The pass with a LOD table *)

Lemma cullLod_spec cameraPlane frustum g u ll st :
  wf st →
  let st' := cullLod cameraPlane frustum g u ll st in
  ∃ rs,
    mdbDataList st' = Some <$> rs
    ∧ length rs = length (lod_value ll) ∧ NoDup rs
    ∧ heap_ok (heap st') ∧ (length (heap st) ≤ length (heap st'))%nat
    ∧ mdbData st' = mdbData st ∧ cullEnabled st' = cullEnabled st
    ∧ lodLevelsVersion st' = lod_version ll
    ∧ (∀ r, r ∈ rs → (r < length (heap st'))%nat)
    ∧ (∀ j r lv, rs !! j = Some r → lod_value ll !! j = Some lv →
         entries (deref (heap st') r)
         = mergedEntries true (bandKeep cameraPlane frustum g u lv) g
                         (lod_count lv)
         ∧ (count (deref (heap st') r) ≤ cellCount g)%nat
         ∧ (cellCount g ≤ capacity (deref (heap st') r))%nat)
    ∧ (∀ r, (r < length (heap st))%nat →
         capacity (deref (heap st') r) = capacity (deref (heap st) r))
    ∧ (∀ k r r', mdbDataList st !! k = Some (Some r) → rs !! k = Some r' →
         (capacity (deref (heap st) r) ≤ capacity (deref (heap st') r'))%nat
         ∧ ((cellCount g ≤ capacity (deref (heap st) r))%nat → r' = r))
    ∧ (lodLevelsVersion st = lod_version ll →
       ∀ r, (r < length (heap st))%nat →
         uniforms (deref (heap st') r) = uniforms (deref (heap st) r)).
Proof.
  intros (Hok & Hmd & Hinj & Hval). cbv zeta. unfold cullLod.
  rewrite prepareBatches_prep.
  pose proof (prep_length (cellCount g)
    (setLength (length (lod_value ll)) (mdbDataList st)) (heap st)) as Hlen.
  destruct (prep _ _ _) as [h1 rs] eqn:Hprep. simpl in Hlen.
  unfold setLength in Hlen. rewrite length_resize in Hlen.
  destruct (prep_spec (cellCount g)
              (setLength (length (lod_value ll)) (mdbDataList st))
              (heap st) h1 rs Hok) as
    (Hok1 & Hlen1 & Hnd & Hrs & Hsh1 & _ & Hslot & _); [| |done|].
  { intros k r E%setLength_lookup_Some.
    destruct (Hval _ _ E) as (r' & [= <-] & ?). done. }
  { intros j j' r E1%setLength_lookup_Some E2%setLength_lookup_Some.
    eauto. }
  set (h2v := if negb (lod_version ll =? lodLevelsVersion st)
              then (rebuildUniforms (lod_value ll) 0 (Some <$> rs) h1,
                    lod_version ll)
              else (h1, lodLevelsVersion st)).
  assert (length h2v.1 = length h1
          ∧ (∀ r, same_data (deref h1 r) (deref h2v.1 r))
          ∧ h2v.2 = lod_version ll
          ∧ (lodLevelsVersion st = lod_version ll → h2v.1 = h1))
    as (Hlen2 & Hd2 & Hver & Hsame).
  { subst h2v. destruct (Z.eqb_spec (lod_version ll) (lodLevelsVersion st));
      simpl.
    - split; [done|]. split; [intros; apply same_data_refl|]. done.
    - split; [apply rebuildUniforms_length|].
      split; [intros; apply rebuildUniforms_data|]. split; [done|].
      intros; congruence. }
  destruct h2v as [h2 ver]. simpl in *.
  set (h3 := foldl _ h2 _).
  assert (length h3 = length h2) as Hlen3 by apply cellLoopLod_length.
  assert (∀ r, same_shape (deref h2 r) (deref h3 r)) as Hsh3
    by (intros; apply cellLoopLod_shape).
  assert (∀ r, capacity (deref h3 r) = capacity (deref h1 r)) as Hcap.
  { intros r. destruct (Hsh3 r) as (_ & -> & _).
    by apply same_data_capacity. }
  exists rs. split; [done|]. split; [done|]. split; [done|].
  split.
  { intros r. eapply same_shape_uniform_cap; [apply Hsh3|].
    eapply same_data_uniform_cap; [apply Hd2|]. apply Hok1. }
  split; [lia|]. split; [done|]. split; [done|]. split; [done|].
  split.
  { intros r Hr. destruct (Hrs r Hr). lia. }
  split.
  { intros j r lv Hj Hlv.
    assert (r ∈ rs) as Hin by (by eapply list_elem_of_lookup_2).
    destruct (Hrs r Hin) as (Hr1 & Hc0 & Hcc).
    subst h3.
    rewrite (cellLoopLod_at _ _ _ _ _ _ _ _ j r lv);
      [|by apply slots_inj_fmap_Some
       |by rewrite list_lookup_fmap, Hj|lia|done].
    destruct (mdb_loop (bandKeep cameraPlane frustum g u lv) g (lod_count lv)
                (deref h2 r) (cellCount g)) as (Hs & Hcnt & He).
    - eapply same_data_uniform_cap; [apply Hd2|]. apply Hok1.
    - destruct (Hd2 r) as (-> & _). done.
    - rewrite (same_data_capacity _ _ (Hd2 r)). done.
    - split; [done|]. split; [done|].
      destruct Hs as (_ & -> & _).
      rewrite (same_data_capacity _ _ (Hd2 r)). done. }
  split.
  { intros r Hr. rewrite Hcap. by destruct (Hsh1 r Hr) as (_ & -> & _). }
  split.
  { intros k r r' E Hk. rewrite Hcap.
    apply (Hslot k r r'); [|done].
    apply setLength_lookup_old; [done|].
    apply lookup_lt_Some in Hk. lia. }
  intros Hv r Hr. rewrite (Hsame Hv) in *.
  destruct (Hsh3 r) as (-> & _). by destruct (Hsh1 r Hr) as (-> & _).
Qed.


(** ** The pass without LOD table *)

Lemma setLength_1_insert {A} (l : list (option A)) x :
  <[0%nat := x]> (setLength 1 l) = [x].
Proof. by destruct l as [|? [|? ?]]. Qed.

Lemma cullPlain_spec cameraPlane frustum g u dc st :
  wf st →
  let st' := cullPlain cameraPlane frustum g u dc st in
  ∃ r,
    mdbData st' = r ∧ mdbDataList st' = [Some r]
    ∧ (r < length (heap st'))%nat
    ∧ heap_ok (heap st') ∧ (length (heap st) ≤ length (heap st'))%nat
    ∧ cullEnabled st' = cullEnabled st
    ∧ lodLevelsVersion st' = lodLevelsVersion st
    ∧ entries (deref (heap st') r)
      = mergedEntries false (survives cameraPlane frustum g u) g dc
    ∧ (count (deref (heap st') r) ≤ cellCount g)%nat
    ∧ (cellCount g ≤ capacity (deref (heap st') r))%nat
    ∧ uniforms (deref (heap st') r) = []
    ∧ (capacity (deref (heap st) (mdbData st))
       ≤ capacity (deref (heap st') r))%nat
    ∧ ((cellCount g ≤ capacity (deref (heap st) (mdbData st)))%nat →
       r = mdbData st)
    ∧ (∀ r0, (r0 < length (heap st))%nat →
         capacity (deref (heap st') r0) = capacity (deref (heap st) r0)).
Proof.
  intros (Hok & Hmd & Hinj & Hval). cbv zeta. unfold cullPlain.
  destruct (getMdbData _ _ _) as [h1 r] eqn:Hget.
  assert (heap_ok h1 ∧ (length (heap st) ≤ length h1)%nat
          ∧ (r < length h1)%nat ∧ (cellCount g ≤ capacity (deref h1 r))%nat
          ∧ (capacity (deref (heap st) (mdbData st))
             ≤ capacity (deref h1 r))%nat
          ∧ ((cellCount g ≤ capacity (deref (heap st) (mdbData st)))%nat →
             r = mdbData st)
          ∧ (∀ r0, (r0 < length (heap st))%nat →
               deref h1 r0 = deref (heap st) r0))
    as (Hok1 & Hlen1 & Hr1 & Hcc & Hmono & Hreuse & Hfr).
  { destruct (getMdbData_cases (cellCount g) (Some (mdbData st)) (heap st))
      as [(r0 & [= <-] & Hcap & E)|[Hsmall E]];
      rewrite E in Hget; injection Hget as <- <-.
    - split_and!; (done || lia).
    - specialize (Hsmall _ eq_refl).
      split; [by apply heap_ok_alloc|].
      rewrite length_app, deref_alloc, newMdbData_capacity. simpl.
      split_and!; try lia. intros. by apply deref_app_l. }
  set (m := deref h1 r).
  set (s0 := mkLocal (baseInstances m) (instanceCounts m) (counts m) 0).
  destruct (plain_loop cameraPlane frustum g u dc (capacity m) s0
              (cellCount g)) as ((Hb & Hi & Hc) & Ho & He).
  { destruct (Hok1 r) as [? ?]. by split_and!. }
  { done. }
  { done. }
  set (s := foldl _ s0 _) in *. simpl.
  rewrite setLength_1_insert.
  assert (∀ r0, deref
      (modify (set_uniforms [])
         r (modify (fun m0 => set_count (l_o s)
                      (set_arrays (l_counts s) (l_instanceCounts s)
                                  (l_baseInstances s) m0)) r h1)) r0
    = if decide (r0 = r)
      then set_uniforms [] (set_count (l_o s)
             (set_arrays (l_counts s) (l_instanceCounts s)
                         (l_baseInstances s) m))
      else deref h1 r0) as Hderef.
  { intros r0. rewrite !deref_modify, length_modify.
    destruct (decide (r0 = r)) as [->|Hne].
    - by rewrite !decide_True by done.
    - by rewrite !decide_False by (intros [? _]; congruence). }
  assert (capacity (set_uniforms [] (set_count (l_o s)
             (set_arrays (l_counts s) (l_instanceCounts s)
                         (l_baseInstances s) m))) = capacity m) as Hcapn
    by exact Hi.
  exists r. split; [done|]. split; [done|].
  rewrite !length_modify. split; [done|].
  split.
  { intros r0. rewrite Hderef. case_decide; [|apply Hok1].
    unfold uniform_cap, capacity. simpl. split; congruence. }
  split; [done|]. split; [done|]. split; [done|].
  rewrite !Hderef, decide_True by done.
  rewrite Hcapn.
  split; [apply He|]. split; [done|]. split; [done|]. split; [done|].
  split; [done|]. split; [done|].
  intros r0 Hr0. rewrite Hderef. case_decide as Heq.
  - subst r0. rewrite Hcapn. subst m. by rewrite Hfr.
  - by rewrite Hfr.
Qed.


(** ** Reachable states are well formed *)

Lemma wf_create : wf createRenderable.
Proof.
  unfold wf, createRenderable. simpl. split_and!.
  - apply (heap_ok_alloc 0 []). intros r. unfold deref.
    rewrite lookup_nil. apply (newMdbData_uniform_cap 0).
  - lia.
  - by intros j j' r H.
  - by intros k o H.
Qed.

Lemma wf_set_cullEnabled b st : wf st → wf (set_cullEnabled b st).
Proof. by intros. Qed.

Lemma wf_cullLod cameraPlane frustum g u ll st :
  wf st → wf (cullLod cameraPlane frustum g u ll st).
Proof.
  intros Hwf.
  destruct (cullLod_spec cameraPlane frustum g u ll st Hwf) as
    (rs & Hl & _ & Hnd & Hok & Hlen & Hmd & _ & _ & Hval & _).
  destruct Hwf as (_ & Hmd0 & _). unfold wf. rewrite Hl, Hmd.
  split_and!; [done|lia|by apply slots_inj_fmap_Some|].
  intros k o E. rewrite list_lookup_fmap in E.
  destruct (rs !! k) as [r|] eqn:Er; [|done]. injection E as <-.
  exists r. split; [done|]. apply Hval. by eapply list_elem_of_lookup_2.
Qed.

Lemma wf_cullPlain cameraPlane frustum g u dc st :
  wf st → wf (cullPlain cameraPlane frustum g u dc st).
Proof.
  intros Hwf.
  destruct (cullPlain_spec cameraPlane frustum g u dc st Hwf) as
    (r & Hmd & Hl & Hr & Hok & _).
  unfold wf. rewrite Hl, Hmd. split_and!; [done|done| |].
  - intros [|j] [|j'] r0 E1 E2; simpl in *; done.
  - intros [|k] o E; simpl in *; [|done]. injection E as <-. by exists r.
Qed.

Lemma wf_cull cameraPlane frustum values st :
  wf st → wf (cull cameraPlane frustum values st).
Proof.
  intros Hwf. unfold cull.
  pose proof (wf_set_cullEnabled false st Hwf) as Hwf'.
  repeat case_match; try done; apply (wf_set_cullEnabled true);
    by (apply wf_cullLod || apply wf_cullPlain).
Qed.

Lemma reachable_wf st : reachable st → wf st.
Proof.
  induction 1; [apply wf_create|by apply wf_cull|done].
Qed.

(** ** Offsets of a grid that satisfies the partition invariant *)

Lemma offset_lookup g total i :
  partition_inv g total → (i ≤ cellCount g)%nat →
  cellOffsets g !! i = Some (offset g i).
Proof.
  intros (Hlen & _) Hi. unfold offset.
  destruct (lookup_lt_is_Some_2 (cellOffsets g) i) as [a ->]; [lia|done].
Qed.

Lemma offset_mono g total i j :
  partition_inv g total → (i ≤ j)%nat → (j ≤ cellCount g)%nat →
  offset g i ≤ offset g j.
Proof.
  intros (_ & _ & Hmono & _) Hij. induction Hij as [|j Hij IH]; intros Hj.
  - lia.
  - etrans; [apply IH; lia|]. apply Hmono. lia.
Qed.

Lemma offset_nonneg g total i :
  partition_inv g total → (i ≤ cellCount g)%nat → 0 ≤ offset g i.
Proof.
  intros Hp Hi. destruct Hp as (? & H0 & ?) eqn:E. rewrite <- H0.
  apply (offset_mono g total); [done|lia|done].
Qed.

Lemma offset_le_total g total i :
  partition_inv g total → (i ≤ cellCount g)%nat → offset g i ≤ total.
Proof.
  intros Hp Hi. destruct Hp as (? & ? & ? & Ht) eqn:E. rewrite <- Ht.
  apply (offset_mono g total); [done|done|lia].
Qed.

Lemma cellBegin_offset g total i :
  partition_inv g total → (i ≤ cellCount g)%nat →
  cellBegin g i = Some (offset g i).
Proof. apply offset_lookup. Qed.

Lemma cellSize_offset g total i :
  partition_inv g total → (i < cellCount g)%nat →
  cellSize g i = Some (offset g (S i) - offset g i).
Proof.
  intros Hp Hi. unfold cellSize, cellEnd, cellBegin.
  rewrite Nat.add_1_r.
  rewrite (offset_lookup g total i), (offset_lookup g total (S i)) by (done || lia).
  done.
Qed.

(** Two cells that share an instance index are the same cell. *)
Lemma inCell_inj g total i j x :
  partition_inv g total → (i < cellCount g)%nat → (j < cellCount g)%nat →
  inCell g i x → inCell g j x → i = j.
Proof.
  intros Hp Hi Hj [Hi1 Hi2] [Hj1 Hj2].
  destruct (decide (i = j)) as [|Hne]; [done|exfalso].
  destruct (decide (i < j)%nat).
  - pose proof (offset_mono g total (S i) j Hp). lia.
  - pose proof (offset_mono g total (S j) i Hp). lia.
Qed.


(** ** The merge rule on a grid that satisfies the partition invariant *)

Section Merge.

Variable chk : bool.
Variable keep : nat → bool.
Variable g : InstanceGrid.
Variable total : Z.
Variable c : Z.
Hypothesis Hp : partition_inv g total.
Hypothesis Hfit : total < 2 ^ 31.

#[local] Abbreviation count_fits := (count_fits chk c).
#[local] Abbreviation merge_inv := (merge_inv chk keep g c).

Lemma merge_inv_0 : merge_inv 0 [].
Proof. unfold merge_inv. split_and!; try done; intros; lia. Qed.

Lemma merge_inv_skip n es :
  (n < cellCount g)%nat → merge_inv n es →
  (keep n = true → offset g n < offset g (S n) → False) →
  merge_inv (S n) es.
Proof.
  intros Hn (I1 & I2 & I3 & I4 & I5) Hskip.
  pose proof (offset_mono g total n (S n) Hp) as Hm.
  split_and!.
  - intros k e E. destruct (I1 k e E) as (? & ? & ? & ?).
    split_and!; try done. lia.
  - done.
  - intros k e x E Hx. destruct (I3 k e x E Hx) as (i & ? & ? & ?).
    exists i. split_and!; try done. lia.
  - intros i Hi Hk Hne. destruct (decide (i = n)) as [->|].
    + by destruct Hskip.
    + apply I4; try done. lia.
  - lia.
Qed.

Lemma merge_inv_append n es :
  (n < cellCount g)%nat → merge_inv n es →
  (count_fits → ∀ e, es !! pred (length es) = Some e →
     e_baseInstance e + e_instanceCount e < offset g n) →
  keep n = true → offset g n < offset g (S n) →
  merge_inv (S n)
    (es ++ [mkEntry (offset g n) (offset g (S n) - offset g n) (toInt32 c)]).
Proof.
  intros Hn (I1 & I2 & I3 & I4 & I5) Hlast Hk Hne.
  pose proof (offset_nonneg g total n Hp) as H0.
  split_and!.
  - intros k e E. apply lookup_snoc_Some in E as [[_ E]|[_ <-]].
    + destruct (I1 k e E) as (? & ? & ? & ?). split_and!; try done. lia.
    + simpl. split_and!; try done; lia.
  - intros k e e' E E'.
    apply lookup_snoc_Some in E' as [[Hlt E']|[Hlen <-]].
    + rewrite lookup_app_l in E by lia. eauto.
    + rewrite lookup_app_l in E by lia. simpl.
      destruct (I1 k e E) as (_ & _ & Hle & _).
      split; [done|]. intros Hfits.
      apply Hlast; [done|]. rewrite <- Hlen. done.
  - intros k e x E Hx. apply lookup_snoc_Some in E as [[_ E]|[_ <-]].
    + destruct (I3 k e x E Hx) as (i & ? & ? & ?).
      exists i. split_and!; try done. lia.
    + exists n. split_and!; [lia|done|].
      unfold covers, inCell in *. simpl in Hx. lia.
  - intros i Hi Hki Hnei. destruct (decide (i = n)) as [->|].
    + exists (length es), (mkEntry (offset g n)
        (offset g (S n) - offset g n) (toInt32 c)).
      rewrite lookup_app_r, Nat.sub_diag by lia. simpl.
      split_and!; try done; lia.
    + destruct (I4 i) as (k & e & E & ? & ?); [lia|done|done|].
      exists k, e. rewrite lookup_app_l by (by eapply lookup_lt_Some).
      done.
  - rewrite length_app. simpl. lia.
Qed.

Lemma merge_inv_extend n es e :
  (n < cellCount g)%nat → merge_inv n es →
  es !! pred (length es) = Some e →
  e_baseInstance e + e_instanceCount e = offset g n →
  keep n = true → offset g n < offset g (S n) →
  merge_inv (S n)
    (<[pred (length es) :=
         mkEntry (e_baseInstance e)
                 (e_instanceCount e + (offset g (S n) - offset g n))
                 (e_count e)]> es).
Proof.
  intros Hn (I1 & I2 & I3 & I4 & I5) El Heq Hk Hne.
  pose proof (lookup_lt_Some _ _ _ El) as Hlen.
  destruct (I1 _ _ El) as (Hb0 & Hi0 & _ & Hcnt).
  split_and!.
  - intros k e0 E. destruct (decide (k = pred (length es))) as [->|Hk'].
    + rewrite list_lookup_insert_eq in E by done. injection E as <-.
      simpl. split_and!; try done; lia.
    + rewrite list_lookup_insert_ne in E by done.
      destruct (I1 k e0 E) as (? & ? & ? & ?). split_and!; try done. lia.
  - intros k e0 e' E E'.
    assert (S k < length es)%nat as Hsk.
    { apply lookup_lt_Some in E'. by rewrite length_insert in E'. }
    rewrite list_lookup_insert_ne in E by lia.
    destruct (decide (S k = pred (length es))) as [Hs|Hs].
    + rewrite Hs, list_lookup_insert_eq in E' by done. injection E' as <-.
      simpl. rewrite <- Hs in El. apply (I2 k); done.
    + rewrite list_lookup_insert_ne in E' by done. eauto.
  - intros k e0 x E Hx. destruct (decide (k = pred (length es))) as [->|Hk'].
    + rewrite list_lookup_insert_eq in E by done. injection E as <-.
      unfold covers in Hx. simpl in Hx.
      destruct (decide (x < offset g n)).
      * destruct (I3 _ e x El) as (i & ? & ? & ?); [unfold covers; lia|].
        exists i. split_and!; try done. lia.
      * exists n. split_and!; [lia|done|]. unfold inCell. lia.
    + rewrite list_lookup_insert_ne in E by done.
      destruct (I3 k e0 x E Hx) as (i & ? & ? & ?).
      exists i. split_and!; try done. lia.
  - intros i Hi Hki Hnei. destruct (decide (i = n)) as [->|].
    + eexists (pred (length es)), _.
      rewrite list_lookup_insert_eq by done. split; [done|]. simpl. lia.
    + destruct (I4 i) as (k & e0 & E & ? & ?); [lia|done|done|].
      destruct (decide (k = pred (length es))) as [->|Hk'].
      * eexists (pred (length es)), _.
        rewrite list_lookup_insert_eq by done. split; [done|]. simpl.
        rewrite El in E. injection E as <-. lia.
      * exists k, e0. rewrite list_lookup_insert_ne by done. done.
  - rewrite length_insert. lia.
Qed.

Lemma merge_inv_step n es :
  (n < cellCount g)%nat → merge_inv n es →
  merge_inv (S n) (cellStep chk keep g c es n).
Proof.
  intros Hn Hinv. unfold cellStep.
  rewrite (cellSize_offset g total), (cellBegin_offset g total)
    by (done || lia).
  pose proof (offset_mono g total n (S n) Hp) as Hm.
  pose proof (offset_nonneg g total n Hp) as H0.
  pose proof (offset_le_total g total (S n) Hp) as Ht.
  unfold num_is_zero, num_eqb.
  destruct (keep n) eqn:Hk; simpl;
    [|apply merge_inv_skip; (done || intros; congruence)].
  destruct (Z.eqb_spec (offset g (S n) - offset g n) 0) as [Hz|Hz]; simpl;
    [apply merge_inv_skip; (done || intros; lia)|].
  unfold pushEntry, storeInt32, storeUint32. simpl.
  rewrite toUint32_small, toInt32_small by lia.
  rewrite last_lookup.
  destruct (es !! pred (length es)) as [e|] eqn:El.
  - destruct Hinv as (I1 & Hrest). destruct (I1 _ _ El) as (? & ? & ? & Hcnt).
    assert (merge_inv n es) as Hinv by (by split).
    destruct ((e_baseInstance e + e_instanceCount e =? offset g n)
              && (negb chk || (e_count e =? c))) eqn:Hmerge.
    + apply andb_true_iff in Hmerge as [Heq%Z.eqb_eq _].
      rewrite toInt32_small by lia.
      apply merge_inv_extend; (done || lia).
    + apply merge_inv_append; try (done || lia).
      intros Hfits e' E. rewrite El in E. injection E as <-.
      assert (negb chk || (e_count e =? c) = true) as Hcc.
      { destruct (negb chk) eqn:En; [done|].
        apply negb_false_iff in En. simpl.
        rewrite Hcnt, Hfits by done. apply Z.eqb_refl. }
      rewrite Hcc, andb_true_r in Hmerge.
      apply Z.eqb_neq in Hmerge. lia.
  - assert (es = []) as ->.
    { destruct es as [|e0 es0] using rev_ind; [done|].
      rewrite length_app in El. simpl in El.
      rewrite lookup_app_r in El by lia.
      replace (pred (length es0 + 1) - length es0)%nat with 0%nat in El
        by lia. done. }
    apply (merge_inv_append n []); try (done || lia).
Qed.

Lemma merge_inv_prefix n :
  (n ≤ cellCount g)%nat →
  merge_inv n (foldl (cellStep chk keep g c) [] (seq 0 n)).
Proof.
  induction n as [|n IH]; intros Hn.
  - apply merge_inv_0.
  - rewrite foldl_seq_S. apply merge_inv_step; [lia|]. apply IH. lia.
Qed.

Lemma merge_inv_final :
  merge_inv (cellCount g) (mergedEntries chk keep g c).
Proof. by apply merge_inv_prefix. Qed.


(** *** Consequences for the entries *)

Lemma merge_sorted n es k k' e e' :
  merge_inv n es → (k < k')%nat →
  es !! k = Some e → es !! k' = Some e' →
  e_baseInstance e + e_instanceCount e ≤ e_baseInstance e'
  ∧ (count_fits → e_baseInstance e + e_instanceCount e < e_baseInstance e').
Proof.
  intros (I1 & I2 & _) Hlt E. revert e'.
  induction Hlt as [|k' Hlt IH]; intros e' E'.
  - by apply (I2 k).
  - destruct (lookup_lt_is_Some_2 es k') as [e1 E1].
    { apply lookup_lt_Some in E'. lia. }
    destruct (IH e1 E1) as [Hle _].
    destruct (I2 k' e1 e' E1 E') as [Hle' Hlt'].
    destruct (I1 k' e1 E1) as (_ & Hpos & _).
    split; [lia|]. intros Hf. specialize (Hlt' Hf). lia.
Qed.

Lemma merge_disjoint n es k k' e e' x :
  merge_inv n es → k ≠ k' →
  es !! k = Some e → es !! k' = Some e' →
  covers e x → covers e' x → False.
Proof.
  intros Hinv Hne E E' Hx Hx'. unfold covers in *.
  destruct (decide (k < k')%nat).
  - destruct (merge_sorted n es k k' e e') as [? _]; try done. lia.
  - destruct (merge_sorted n es k' k e' e) as [? _]; try done; lia.
Qed.

(** A kept cell with instances lies in exactly one entry. *)
Lemma merge_complete n es i :
  merge_inv n es → (n ≤ cellCount g)%nat →
  (i < n)%nat → keep i = true → offset g i < offset g (S i) →
  ∃ k e, es !! k = Some e
    ∧ (∀ x, inCell g i x → covers e x)
    ∧ (∀ k' e' x, es !! k' = Some e' → inCell g i x → covers e' x → k' = k).
Proof.
  intros Hinv Hn Hi Hk Hne.
  pose proof Hinv as (I1 & I2 & I3 & I4 & I5).
  destruct (I4 i Hi Hk Hne) as (k & e & E & Hb & He).
  exists k, e. split; [done|]. split.
  - unfold inCell, covers. intros; lia.
  - intros k' e' x E' Hx Hx'.
    destruct (decide (k' = k)) as [|Hd]; [done|exfalso].
    apply (merge_disjoint n es k' k e' e x); try done.
    unfold inCell, covers in *. lia.
Qed.

(** No entry reaches into a cell that was not kept. *)
Lemma merge_sound n es i k e x :
  merge_inv n es → (n ≤ cellCount g)%nat → (i < cellCount g)%nat →
  keep i = false → es !! k = Some e → inCell g i x → covers e x → False.
Proof.
  intros (_ & _ & I3 & _) Hn Hi Hk E Hx Hc.
  destruct (I3 k e x E Hc) as (i' & Hi' & Hk' & Hx').
  assert (i' = i) as -> by (eapply inCell_inj; try done; lia).
  congruence.
Qed.

(** The cells [a .. b-1], all kept, lie in one entry. *)
Lemma merge_run_covered n es a b :
  merge_inv n es → count_fits → (a ≤ b)%nat → (b ≤ n)%nat →
  (n ≤ cellCount g)%nat →
  (∀ i, (a ≤ i < b)%nat → keep i = true) →
  offset g a < offset g b →
  ∃ k e, es !! k = Some e ∧ e_baseInstance e ≤ offset g a
         ∧ offset g b ≤ e_baseInstance e + e_instanceCount e.
Proof.
  intros Hinv Hfits Hab. induction Hab as [|b Hab IH];
    intros Hb Hn Hrun Hne; [lia|].
  pose proof Hinv as (I1 & I2 & I3 & I4 & I5).
  pose proof (offset_mono g total a b Hp Hab) as Hm1.
  pose proof (offset_mono g total b (S b) Hp) as Hm2.
  destruct (decide (offset g b = offset g (S b))) as [Heq|Hneq].
  { rewrite <- Heq. apply IH; try lia. intros; apply Hrun; lia. }
  destruct (I4 b) as (k2 & e2 & E2 & Hb2 & He2); [lia|apply Hrun; lia|lia|].
  destruct (decide (offset g a = offset g b)) as [Heq|Hneq'].
  { exists k2, e2. split; [done|]. lia. }
  destruct IH as (k1 & e1 & E1 & Hb1 & He1); [lia|lia| |lia|].
  { intros; apply Hrun; lia. }
  destruct (I1 _ _ E1) as (_ & Hpos1 & _).
  destruct (I1 _ _ E2) as (_ & Hpos2 & _).
  assert (k1 = k2) as ->.
  { destruct (decide (k1 = k2)) as [|Hd]; [done|exfalso].
    destruct (decide (k1 < k2)%nat).
    - destruct (merge_sorted n es k1 k2 e1 e2) as [_ Hs]; try done.
      specialize (Hs Hfits). lia.
    - destruct (merge_sorted n es k2 k1 e2 e1) as [Hs _]; try done; lia. }
  rewrite E1 in E2. injection E2 as <-.
  exists k2, e1. split; [done|]. lia.
Qed.

(** A maximal run of kept cells, with non-empty cells next to it, is
    exactly one entry. *)
Lemma merge_run_exact es a b :
  merge_inv (cellCount g) es → count_fits →
  (a ≤ b)%nat → (b ≤ cellCount g)%nat →
  (∀ i, (a ≤ i < b)%nat → keep i = true) →
  offset g a < offset g b →
  (a = 0%nat
   ∨ ∃ a', a = S a' ∧ keep a' = false ∧ offset g a' < offset g a) →
  (b = cellCount g ∨ (keep b = false ∧ offset g b < offset g (S b))) →
  ∃ k e, es !! k = Some e
    ∧ e_baseInstance e = offset g a
    ∧ e_instanceCount e = offset g b - offset g a
    ∧ (∀ k' e' x, es !! k' = Some e' → offset g a ≤ x < offset g b →
         covers e' x → k' = k).
Proof.
  intros Hinv Hfits Hab Hb Hrun Hne Hleft Hright.
  destruct (merge_run_covered (cellCount g) es a b)
    as (k & e & E & Hlo & Hhi); try done.
  pose proof Hinv as (I1 & I2 & I3 & I4 & I5).
  destruct (I1 _ _ E) as (Hb0 & Hpos & Hend & _).
  assert (e_baseInstance e = offset g a) as Hbase.
  { destruct (decide (e_baseInstance e = offset g a)) as [|Hd];
      [done|exfalso].
    destruct (I3 k e (offset g a - 1) E) as (i & Hi & Hki & Hxi);
      [unfold covers; lia|].
    destruct Hleft as [->|(a' & -> & Hka & Hnea)].
    - pose proof (offset_nonneg g total i Hp). unfold inCell in Hxi.
      destruct Hp as (_ & H0 & _). lia.
    - assert (i = a') as ->.
      { apply (inCell_inj g total i a' (offset g (S a') - 1));
          [done|lia|lia|done|unfold inCell; lia]. }
      congruence. }
  assert (e_baseInstance e + e_instanceCount e = offset g b) as Hlast.
  { destruct (decide (e_baseInstance e + e_instanceCount e = offset g b))
      as [|Hd]; [done|exfalso].
    destruct (I3 k e (offset g b) E) as (i & Hi & Hki & Hxi);
      [unfold covers; lia|].
    assert (b = cellCount g
            ∨ ((b < cellCount g)%nat ∧ keep b = false
               ∧ offset g b < offset g (S b))) as Hright'.
    { destruct Hright as [?|[? ?]]; [by left|].
      destruct (decide (b = cellCount g)); [by left|right].
      split; [lia|done]. }
    destruct Hright' as [->|(Hbl & Hkb & Hneb)].
    - pose proof (offset_le_total g total (S i) Hp).
      destruct Hp as (_ & _ & _ & Ht). unfold inCell in Hxi. lia.
    - assert (i = b) as ->.
      { apply (inCell_inj g total i b (offset g b));
          [done|lia|lia|done|unfold inCell; lia]. }
      congruence. }
  exists k, e. split; [done|]. split; [done|]. split; [lia|].
  intros k' e' x E' Hx Hc.
  destruct (decide (k' = k)) as [|Hd]; [done|exfalso].
  apply (merge_disjoint (cellCount g) es k' k e' e x); try done.
  unfold covers. lia.
Qed.

(** A run of kept cells whose range no kept cell with instances outside
    the run adjoins is exactly one entry. *)
Lemma merge_run_separated es a b :
  merge_inv (cellCount g) es → count_fits →
  (a ≤ b)%nat → (b ≤ cellCount g)%nat →
  (∀ i, (a ≤ i < b)%nat → keep i = true) →
  offset g a < offset g b →
  (∀ i, (i < a)%nat → keep i = true → offset g i < offset g (S i) →
     offset g (S i) < offset g a) →
  (∀ i, (b ≤ i < cellCount g)%nat → keep i = true →
     offset g i < offset g (S i) → offset g b < offset g i) →
  ∃ k e, es !! k = Some e
    ∧ e_baseInstance e = offset g a
    ∧ e_instanceCount e = offset g b - offset g a
    ∧ (∀ k' e' x, es !! k' = Some e' → offset g a ≤ x < offset g b →
         covers e' x → k' = k).
Proof.
  intros Hinv Hfits Hab Hb Hrun Hne Hleft Hright.
  destruct (merge_run_covered (cellCount g) es a b)
    as (k & e & E & Hlo & Hhi); try done.
  pose proof Hinv as (I1 & I2 & I3 & I4 & I5).
  destruct (I1 _ _ E) as (Hb0 & Hpos & Hend & _).
  assert (e_baseInstance e = offset g a) as Hbase.
  { destruct (decide (e_baseInstance e = offset g a)) as [|Hd];
      [done|exfalso].
    destruct (I3 k e (offset g a - 1) E) as (i & Hi & Hki & [Hx1 Hx2]);
      [unfold covers; lia|].
    assert (i < a)%nat as Hia.
    { destruct (decide (i < a)%nat) as [|Hge]; [done|exfalso].
      pose proof (offset_mono g total a i Hp). lia. }
    specialize (Hleft i Hia Hki). lia. }
  assert (e_baseInstance e + e_instanceCount e = offset g b) as Hlast.
  { destruct (decide (e_baseInstance e + e_instanceCount e = offset g b))
      as [|Hd]; [done|exfalso].
    destruct (I3 k e (offset g b) E) as (i & Hi & Hki & [Hx1 Hx2]);
      [unfold covers; lia|].
    assert (b ≤ i)%nat as Hbi.
    { destruct (decide (b ≤ i)%nat) as [|Hlt]; [done|exfalso].
      pose proof (offset_mono g total (S i) b Hp). lia. }
    specialize (Hright i (conj Hbi Hi) Hki). lia. }
  exists k, e. split; [done|]. split; [done|]. split; [lia|].
  intros k' e' x E' Hx Hc.
  destruct (decide (k' = k)) as [|Hd]; [done|exfalso].
  apply (merge_disjoint (cellCount g) es k' k e' e x); try done.
  unfold covers. lia.
Qed.


(** *** Totals and exact coverage *)

Lemma instanceSum_snoc es e :
  instanceSum (es ++ [e]) = instanceSum es + e_instanceCount e.
Proof.
  unfold instanceSum. induction es as [|e0 es IH]; simpl; [lia|].
  rewrite IH. lia.
Qed.

Lemma instanceSum_insert es k e e' :
  es !! k = Some e →
  instanceSum (<[k := e']> es)
  = instanceSum es - e_instanceCount e + e_instanceCount e'.
Proof.
  unfold instanceSum. revert k.
  induction es as [|e0 es IH]; intros k E; [done|].
  destruct k as [|k]; simpl in *.
  - injection E as ->. lia.
  - rewrite (IH k E). lia.
Qed.

Lemma merge_sum_step n es :
  (n < cellCount g)%nat → merge_inv n es →
  instanceSum (cellStep chk keep g c es n)
  = instanceSum es + (if keep n then rangeSize g n else 0).
Proof.
  intros Hn Hinv. unfold cellStep, rangeSize.
  rewrite (cellSize_offset g total), (cellBegin_offset g total)
    by (done || lia).
  pose proof (offset_mono g total n (S n) Hp) as Hm.
  pose proof (offset_nonneg g total n Hp) as H0.
  pose proof (offset_le_total g total (S n) Hp) as Ht.
  unfold num_is_zero, num_eqb.
  destruct (keep n) eqn:Hk; simpl; [|lia].
  destruct (Z.eqb_spec (offset g (S n) - offset g n) 0) as [Hz|Hz]; simpl;
    [lia|].
  unfold pushEntry, storeInt32, storeUint32. simpl.
  rewrite toUint32_small, toInt32_small by lia.
  rewrite last_lookup.
  destruct (es !! pred (length es)) as [e|] eqn:El.
  - destruct Hinv as (I1 & _). destruct (I1 _ _ El) as (? & ? & ? & _).
    destruct ((e_baseInstance e + e_instanceCount e =? offset g n)
              && (negb chk || (e_count e =? c))) eqn:Hmerge.
    + apply andb_true_iff in Hmerge as [Heq%Z.eqb_eq _].
      rewrite toInt32_small by lia.
      rewrite (instanceSum_insert _ _ e) by done. simpl. lia.
    + rewrite instanceSum_snoc. simpl. lia.
  - assert (es = []) as ->.
    { destruct es as [|e0 es0] using rev_ind; [done|].
      rewrite length_app in El. simpl in El.
      rewrite lookup_app_r in El by lia.
      replace (pred (length es0 + 1) - length es0)%nat with 0%nat in El
        by lia. done. }
    simpl. lia.
Qed.

Lemma merge_sum_prefix n :
  (n ≤ cellCount g)%nat →
  instanceSum (foldl (cellStep chk keep g c) [] (seq 0 n)) = keptSize keep g n.
Proof.
  unfold keptSize. induction n as [|n IH]; intros Hn; [done|].
  rewrite !foldl_seq_S, merge_sum_step, IH; [done|lia|lia|].
  apply merge_inv_prefix. lia.
Qed.

Lemma merge_covered_iff es x :
  merge_inv (cellCount g) es →
  (∃ k e, es !! k = Some e ∧ covers e x)
  ↔ (∃ i, (i < cellCount g)%nat ∧ keep i = true ∧ inCell g i x).
Proof.
  intros (_ & _ & I3 & I4 & _). split.
  - intros (k & e & E & Hc). by apply (I3 k e).
  - intros (i & Hi & Hk & Hx).
    destruct (I4 i Hi Hk) as (k & e & E & Hlo & Hhi);
      [unfold inCell in Hx; lia|].
    exists k, e. split; [done|]. unfold inCell, covers in *. lia.
Qed.

Lemma merge_within_total es k e :
  merge_inv (cellCount g) es → es !! k = Some e →
  0 ≤ e_baseInstance e ∧ 0 < e_instanceCount e
  ∧ e_baseInstance e + e_instanceCount e ≤ total.
Proof.
  intros (I1 & _) E. destruct (I1 k e E) as (? & ? & Hle & _).
  destruct Hp as (_ & _ & _ & <-). done.
Qed.

Lemma merge_empty_iff es :
  merge_inv (cellCount g) es →
  es = [] ↔ ∀ i, (i < cellCount g)%nat → keep i = true → rangeSize g i = 0.
Proof.
  intros Hinv. pose proof Hinv as (I1 & _ & I3 & I4 & _). split.
  - intros -> i Hi Hk.
    pose proof (offset_mono g total i (S i) Hp) as Hm. unfold rangeSize.
    destruct (decide (offset g i < offset g (S i))) as [Hlt|]; [|lia].
    by destruct (I4 i Hi Hk Hlt) as (k & e & E & _).
  - intros Hnone. destruct es as [|e es]; [done|exfalso].
    destruct (I1 0%nat e eq_refl) as (_ & Hpos & _).
    destruct (I3 0%nat e (e_baseInstance e) eq_refl) as (i & Hi & Hk & Hx);
      [unfold covers; lia|].
    specialize (Hnone i Hi Hk). unfold rangeSize, inCell in *. lia.
Qed.

(** All cells kept: the batch is the single entry of all instances. *)
Lemma merge_all_kept es :
  merge_inv (cellCount g) es → count_fits →
  (∀ i, (i < cellCount g)%nat → keep i = true) → 0 < total →
  es = [mkEntry 0 total (toInt32 c)].
Proof.
  intros Hinv Hfits Hall Hpos.
  pose proof Hp as (_ & H0 & _ & Ht).
  destruct (merge_run_exact es 0 (cellCount g))
    as (k & e & E & Hbase & Hcnt & Huniq);
    try done; try lia; try (by left);
    try (intros i [_ Hi]; by apply Hall).
  pose proof Hinv as (I1 & _).
  assert (∀ k' e', es !! k' = Some e' → k' = k) as Hone.
  { intros k' e' E'. destruct (merge_within_total es k' e' Hinv E')
      as (? & ? & ?).
    apply (Huniq k' e' (e_baseInstance e')); [done|lia|unfold covers; lia]. }
  destruct (I1 k e E) as (_ & _ & _ & Hc).
  destruct es as [|e0 es]; [done|].
  pose proof (Hone 0%nat e0 eq_refl) as <-.
  destruct es as [|e1 es]; [|by specialize (Hone 1%nat e1 eq_refl)].
  simpl in E. injection E as ->. destruct e as [b n cc]. simpl in *.
  f_equal. f_equal; lia.
Qed.

End Merge.


(** ** The batches of a completed pass *)

Lemma cull_lod cameraPlane frustum values g ll st :
  drawCount values ≠ 0 → instanceCount values ≠ 0 →
  instanceGrid values = Some g →
  lodLevels values = Some ll → lod_value ll ≠ [] →
  cull cameraPlane frustum values st
  = set_cullEnabled true
      (cullLod cameraPlane frustum g (uLod values) ll
               (set_cullEnabled false st)).
Proof.
  intros Hd Hi Hg Hl Hne. unfold cull.
  rewrite (proj2 (Z.eqb_neq _ _) Hd), (proj2 (Z.eqb_neq _ _) Hi), Hg, Hl.
  by destruct (lod_value ll).
Qed.

Lemma cull_plain cameraPlane frustum values g st :
  drawCount values ≠ 0 → instanceCount values ≠ 0 →
  instanceGrid values = Some g → activeLevels values = [] →
  cull cameraPlane frustum values st
  = set_cullEnabled true
      (cullPlain cameraPlane frustum g (uLod values) (drawCount values)
                 (set_cullEnabled false st)).
Proof.
  intros Hd Hi Hg Hl. unfold cull, activeLevels in *.
  rewrite (proj2 (Z.eqb_neq _ _) Hd), (proj2 (Z.eqb_neq _ _) Hi), Hg.
  destruct (lodLevels values) as [ll|]; [|done]. by rewrite Hl.
Qed.

Lemma activeLevels_cases values :
  activeLevels values = []
  ∨ ∃ ll, lodLevels values = Some ll ∧ lod_value ll ≠ []
          ∧ activeLevels values = lod_value ll.
Proof.
  unfold activeLevels. destruct (lodLevels values) as [ll|]; [|by left].
  destruct (lod_value ll) eqn:E; [by left|right].
  exists ll. by rewrite E.
Qed.

Lemma batches_fmap h md rs b v :
  batches (mkRenderable h md (Some <$> rs) b v) = deref h <$> rs.
Proof.
  unfold batches. simpl. induction rs as [|r rs IH]; [done|].
  simpl. by f_equal.
Qed.

Lemma batches_set_cullEnabled b st :
  batches (set_cullEnabled b st) = batches st.
Proof. done. Qed.

Lemma batches_eq st rs :
  mdbDataList st = Some <$> rs → batches st = deref (heap st) <$> rs.
Proof. destruct st. simpl. intros ->. apply batches_fmap. Qed.

Lemma count_entries m :
  uniform_cap m → (count m ≤ capacity m)%nat → length (entries m) = count m.
Proof.
  intros [Hb Hc] Hle. unfold entries, capacity in *.
  apply entriesOf_length; lia.
Qed.

Lemma cull_batches cameraPlane frustum values g st :
  wf st → drawCount values ≠ 0 → instanceCount values ≠ 0 →
  instanceGrid values = Some g →
  let st' := cull cameraPlane frustum values st in
  length (batches st') = Nat.max 1 (length (activeLevels values))
  ∧ ∀ j m, batches st' !! j = Some m →
      entries m
      = mergedEntries (lodMode values)
          (batchKeep cameraPlane frustum values g j) g
          (batchDrawCount values j)
      ∧ (count m ≤ cellCount g)%nat ∧ (cellCount g ≤ capacity m)%nat
      ∧ uniform_cap m.
Proof.
  intros Hwf Hd Hi Hg. cbv zeta.
  apply (wf_set_cullEnabled false) in Hwf.
  destruct (activeLevels_cases values) as [Hl|(ll & Hll & Hne & Hl)].
  - rewrite (cull_plain _ _ _ g) by done. rewrite batches_set_cullEnabled.
    destruct (cullPlain_spec cameraPlane frustum g (uLod values)
                (drawCount values) _ Hwf)
      as (r & _ & Hlist & _ & Hok & _ & _ & _ & He & Hc & Hcap & _).
    rewrite (batches_eq _ [r]) by done. rewrite Hl. simpl.
    split; [done|]. intros [|j] m E; [|done]. injection E as <-.
    unfold lodMode, batchKeep, batchDrawCount. rewrite Hl. simpl.
    by split_and!.
  - rewrite (cull_lod _ _ _ g ll) by done. rewrite batches_set_cullEnabled.
    destruct (cullLod_spec cameraPlane frustum g (uLod values) ll _ Hwf)
      as (rs & Hlist & Hlen & _ & Hok & _ & _ & _ & _ & _ & Hent & _).
    rewrite (batches_eq _ rs) by done. rewrite length_fmap, Hlen, Hl.
    split; [destruct (lod_value ll); simpl; (done || lia)|].
    intros j m E. rewrite list_lookup_fmap in E.
    destruct (rs !! j) as [r|] eqn:Er; [|done]. injection E as <-.
    destruct (lookup_lt_is_Some_2 (lod_value ll) j) as [lv Elv].
    { apply lookup_lt_Some in Er. lia. }
    destruct (Hent j r lv Er Elv) as (He & Hc & Hcap).
    unfold lodMode, batchKeep, batchDrawCount. rewrite Hl, Elv.
    replace (0 <? length (lod_value ll))%nat with true
      by (destruct (lod_value ll); done).
    by split_and!.
Qed.


(** ** The float comparisons *)

Lemma SFcompare_antisym x y :
  SFcompare y x = option_map CompOpp (SFcompare x y).
Proof.
  destruct x as [[]|[]| |[] m1 e1], y as [[]|[]| |[] m2 e2]; simpl; try done.
  - rewrite (Z.compare_antisym e1 e2).
    destruct (e1 ?= e2)%Z; simpl; try done.
    rewrite (Pos.compare_cont_antisym m1 m2 Eq). simpl.
    by destruct (Pos.compare_cont Eq m1 m2).
  - rewrite (Z.compare_antisym e1 e2).
    destruct (e1 ?= e2)%Z; simpl; try done.
    by rewrite (Pos.compare_cont_antisym m1 m2 Eq).
Qed.

Lemma leb_not_ltb (x y : float) :
  PrimFloat.leb x y = true → PrimFloat.ltb y x = false.
Proof.
  rewrite FloatAxioms.leb_spec, FloatAxioms.ltb_spec. unfold SFleb, SFltb.
  rewrite (SFcompare_antisym (Prim2SF x) (Prim2SF y)).
  by destruct (SFcompare (Prim2SF x) (Prim2SF y)) as [[]|].
Qed.

Lemma eqb_leb (x y : float) :
  PrimFloat.eqb x y = true →
  PrimFloat.leb x y = true ∧ PrimFloat.leb y x = true.
Proof.
  rewrite FloatAxioms.eqb_spec, !FloatAxioms.leb_spec.
  unfold SFeqb, SFleb.
  rewrite (SFcompare_antisym (Prim2SF x) (Prim2SF y)).
  by destruct (SFcompare (Prim2SF x) (Prim2SF y)) as [[]|].
Qed.

(** The distance test is inclusive: a sphere that meets the closed
    interval is not skipped. *)
Lemma meetsRange_not_outside d r lo hi :
  meetsRange d r lo hi → outsideRange d r lo hi = false.
Proof.
  intros [H1 H2]. unfold outsideRange, gtb.
  by rewrite (leb_not_ltb _ _ H1), (leb_not_ltb _ _ H2).
Qed.

Lemma touchesRange_meets d r lo hi :
  touchesRange d r lo hi → meetsRange d r lo hi.
Proof.
  intros [[He Hl]|[He Hl]]; apply eqb_leb in He as [? ?]; by split.
Qed.


(** ** Properties of [cull] *)



(** The entries of every batch of a completed pass satisfy the merge
    invariant of the grid. *)
Lemma cull_merge_inv cameraPlane frustum values g total st j m :
  wf st → drawCount values ≠ 0 → instanceCount values ≠ 0 →
  instanceGrid values = Some g →
  partition_inv g total → total < 2 ^ 31 →
  batches (cull cameraPlane frustum values st) !! j = Some m →
  merge_inv (lodMode values) (batchKeep cameraPlane frustum values g j) g
            (batchDrawCount values j) (cellCount g) (entries m)
  ∧ length (entries m) = count m
  ∧ (count m ≤ cellCount g)%nat ∧ (cellCount g ≤ capacity m)%nat.
Proof.
  intros Hwf Hd Hi Hg Hp Hfit E.
  destruct (cull_batches cameraPlane frustum values g st Hwf Hd Hi Hg)
    as [_ Hb].
  destruct (Hb j m E) as (He & Hc & Hcap & Hu).
  rewrite He. split; [by apply (merge_inv_final _ _ _ total)|].
  rewrite <- He. split; [apply count_entries; (done || lia)|done].
Qed.

(** C5. When [drawCount] is 0, or [instanceCount] is 0, or no instance
    grid is attached, [cull] returns without touching any batch (the heap
    of batch objects, the list and the standalone buffer are unchanged)
    and leaves culling disabled, so that [render] passes no batches and
    the full draw is submitted. *)
Theorem cull_noop_on_degenerate_input cameraPlane frustum values st :
  drawCount values = 0 ∨ instanceCount values = 0
  ∨ instanceGrid values = None →
  let st' := cull cameraPlane frustum values st in
  heap st' = heap st ∧ mdbData st' = mdbData st
  ∧ mdbDataList st' = mdbDataList st
  ∧ lodLevelsVersion st' = lodLevelsVersion st
  ∧ cullEnabled st' = false
  ∧ renderBatches st' = None.
Proof.
  intros H. cbv zeta. unfold cull.
  destruct (Z.eqb_spec (drawCount values) 0); [done|].
  destruct (Z.eqb_spec (instanceCount values) 0); [done|].
  destruct (instanceGrid values); [|done].
  by destruct H as [?|[?|?]].
Qed.

(** C10. After a pass taken with an absent or empty LOD table the batch
    list holds exactly one batch, the standalone buffer, and its sequence
    of uniforms is empty, whatever an earlier pass left there. *)
Theorem cull_plain_single_batch_no_uniforms
    cameraPlane frustum values g st :
  reachable st →
  drawCount values ≠ 0 → instanceCount values ≠ 0 →
  instanceGrid values = Some g → activeLevels values = [] →
  let st' := cull cameraPlane frustum values st in
  mdbDataList st' = [Some (mdbData st')]
  ∧ batches st' = [deref (heap st') (mdbData st')]
  ∧ uniforms (deref (heap st') (mdbData st')) = []
  ∧ renderBatches st' = Some [Some (deref (heap st') (mdbData st'))].
Proof.
  intros Hr Hd Hi Hg Hl. cbv zeta.
  pose proof (wf_set_cullEnabled false st (reachable_wf st Hr)) as Hwf.
  rewrite (cull_plain _ _ _ g) by done.
  destruct (cullPlain_spec cameraPlane frustum g (uLod values)
              (drawCount values) _ Hwf)
    as (r & Hmd & Hlist & _ & _ & _ & _ & _ & _ & _ & _ & Hu & _).
  unfold renderBatches, batches. simpl. rewrite Hlist, Hmd. simpl.
  by rewrite Hu.
Qed.


(** C4, amended. Under the partition invariant of a grid with fewer
    than 2^31 instances, every batch of a completed pass has exactly [count]
    entries, each with a positive [instanceCount],
    in strictly increasing [baseInstance] order, and no two of them share
    an instance index. *)
Theorem cull_batch_entries_disjoint_increasing
    cameraPlane frustum values g total st m :
  reachable st →
  drawCount values ≠ 0 → instanceCount values ≠ 0 →
  instanceGrid values = Some g →
  partition_inv g total → total < 2 ^ 31 →
  m ∈ batches (cull cameraPlane frustum values st) →
  length (entries m) = count m
  ∧ (∀ k e, entries m !! k = Some e → 0 < e_instanceCount e)
  ∧ (∀ k k' e e', (k < k')%nat →
       entries m !! k = Some e → entries m !! k' = Some e' →
       e_baseInstance e < e_baseInstance e'
       ∧ ∀ x, ¬ (covers e x ∧ covers e' x)).
Proof.
  intros Hr Hd Hi Hg Hp Hfit Hm.
  apply list_elem_of_lookup in Hm as [j Hj].
  destruct (cull_merge_inv cameraPlane frustum values g total st j m)
    as (Hinv & Hlen & _); try done; [by apply reachable_wf|].
  split; [done|]. split.
  - intros k e E. destruct Hinv as (I1 & _).
    by destruct (I1 k e E) as (_ & ? & _).
  - intros k k' e e' Hlt E E'.
    pose proof (merge_sorted _ _ _ _ _ _ _ _ _ _ Hinv Hlt E E') as [Hle _].
    destruct Hinv as (I1 & _). destruct (I1 k e E) as (_ & Hpos & _).
    split; [lia|]. unfold covers. intros x [? ?]. lia.
Qed.


(** A completed pass has a batch at index 0 and at the index of every
    band. *)
Lemma cull_batch_exists cameraPlane frustum values g st j :
  wf st → drawCount values ≠ 0 → instanceCount values ≠ 0 →
  instanceGrid values = Some g →
  j = 0%nat ∨ is_Some (activeLevels values !! j) →
  is_Some (batches (cull cameraPlane frustum values st) !! j).
Proof.
  intros Hwf Hd Hi Hg Hj.
  destruct (cull_batches cameraPlane frustum values g st Hwf Hd Hi Hg)
    as [Hlen _].
  apply lookup_lt_is_Some_2. rewrite Hlen.
  destruct Hj as [->|Hj%lookup_lt_is_Some_1]; lia.
Qed.

(** A kept cell with instances is included, exactly once, in its batch. *)
Lemma cull_covers_kept cameraPlane frustum values g total st j i :
  wf st → drawCount values ≠ 0 → instanceCount values ≠ 0 →
  instanceGrid values = Some g →
  partition_inv g total → total < 2 ^ 31 →
  j = 0%nat ∨ is_Some (activeLevels values !! j) →
  (i < cellCount g)%nat → offset g i < offset g (S i) →
  batchKeep cameraPlane frustum values g j i = true →
  coveredOnceIn (cull cameraPlane frustum values st) j g i.
Proof.
  intros Hwf Hd Hi Hg Hp Hfit Hj Hlt Hne Hk.
  destruct (cull_batch_exists cameraPlane frustum values g st j)
    as [m Hm]; try done.
  destruct (cull_merge_inv cameraPlane frustum values g total st j m)
    as [Hinv _]; try done.
  edestruct merge_complete as (k & e & E & Hcov & Huniq);
    [exact Hinv|done..|].
  by exists m, k, e.
Qed.

(** A cell that is included in a batch was kept for it. *)
Lemma cull_covered_kept cameraPlane frustum values g total st j i :
  wf st → drawCount values ≠ 0 → instanceCount values ≠ 0 →
  instanceGrid values = Some g →
  partition_inv g total → total < 2 ^ 31 →
  (i < cellCount g)%nat → offset g i < offset g (S i) →
  coveredIn (cull cameraPlane frustum values st) j g i →
  batchKeep cameraPlane frustum values g j i = true.
Proof.
  intros Hwf Hd Hi Hg Hp Hfit Hlt Hne (m & k & e & Hm & E & Hcov).
  destruct (cull_merge_inv cameraPlane frustum values g total st j m)
    as [Hinv _]; try done.
  destruct (batchKeep _ _ _ _ j i) eqn:Hk; [done|exfalso].
  apply (merge_sound _ _ g total _ Hp _ _ i k e (offset g i) Hinv);
    try done; try (unfold inCell; lia).
  apply Hcov. unfold inCell. lia.
Qed.

Lemma coveredOnceIn_coveredIn st j g i :
  coveredOnceIn st j g i → coveredIn st j g i.
Proof. intros (m & k & e & ? & ? & ? & _). by exists m, k, e. Qed.

Lemma batchKeep_band cameraPlane frustum values g j lv i :
  activeLevels values !! j = Some lv →
  batchKeep cameraPlane frustum values g j i
  = negb (distanceCulled cameraPlane g (uLod values) i)
    && inFrustum frustum g i && inBand cameraPlane g lv i.
Proof. intros E. unfold batchKeep, bandKeep, survives. by rewrite E. Qed.

Lemma batchKeep_plain cameraPlane frustum values g j i :
  activeLevels values = [] →
  batchKeep cameraPlane frustum values g j i
  = negb (distanceCulled cameraPlane g (uLod values) i)
    && inFrustum frustum g i.
Proof. intros E. unfold batchKeep, survives. by rewrite E. Qed.

(** C3, amended. With a LOD table and under the partition invariant (of
    a grid with fewer than 2^31 instances),
    every cell that passes the frustum test, has a non-empty instance
    range and is not skipped by the overall [uLod] distance test is tested
    against every band on its own: for each band [j] whose distance
    interval the sphere of the cell meets, the range of the cell is
    covered by exactly one entry of the batch of band [j]. *)
Theorem cull_complete_per_band
    cameraPlane frustum values g total st j lv i :
  reachable st →
  drawCount values ≠ 0 → instanceCount values ≠ 0 →
  instanceGrid values = Some g →
  partition_inv g total → total < 2 ^ 31 →
  activeLevels values !! j = Some lv →
  (i < cellCount g)%nat → offset g i < offset g (S i) →
  inFrustum frustum g i = true →
  distanceCulled cameraPlane g (uLod values) i = false →
  meetsRange (cellDistance cameraPlane g i) (radius (cellSphere g i))
             (lod_minDistance lv) (lod_maxDistance lv) →
  coveredOnceIn (cull cameraPlane frustum values st) j g i.
Proof.
  intros Hr Hd Hi Hg Hp Hfit Hlv Hlt Hne Hf Hdc Hmeet.
  apply (cull_covers_kept _ _ _ g total); try done.
  - by apply reachable_wf.
  - right. by eexists.
  - rewrite (batchKeep_band _ _ _ _ _ lv) by done.
    rewrite Hdc, Hf. simpl. unfold inBand.
    by rewrite meetsRange_not_outside.
Qed.

(** The overall distance test in terms of the float comparisons of
    lines 93, 118-119 and 155-156. *)
Lemma distanceCulled_false cameraPlane g u i :
  distanceCulled cameraPlane g u i = false
  ↔ (PrimFloat.eqb (fst u) 0 = true ∧ PrimFloat.eqb (snd u) 0 = true)
    ∨ (PrimFloat.ltb (cellDistance cameraPlane g i
                      + radius (cellSphere g i))%float (fst u) = false
       ∧ PrimFloat.ltb (snd u)
           (cellDistance cameraPlane g i
            - radius (cellSphere g i))%float = false).
Proof.
  unfold distanceCulled, hasLodOf, outsideRange, gtb.
  destruct (PrimFloat.eqb (fst u) 0), (PrimFloat.eqb (snd u) 0),
    (PrimFloat.ltb _ (fst u)), (PrimFloat.ltb (snd u) _); simpl;
    split; try done; try (by left); try (by right);
    intros [[? ?]|[? ?]]; done.
Qed.

(** C6, amended. Without LOD table (absent or empty) and under the
    partition invariant of a grid with fewer than 2^31 instances, a
    non-empty cell is included in the single batch
    exactly when it passes the frustum test and is not skipped by the
    overall distance test, which applies exactly when one of the [uLod]
    distances is not 0: the cell is included if and only if it is in the
    frustum and either both distances are 0, or neither
    [d + radius < min] nor [d - radius > max] holds. When both [uLod]
    distances are 0 that is the frustum test alone, whatever the camera
    plane. *)
Theorem cull_plain_distance_test_only_by_uLod
    cameraPlane frustum values g total st i :
  reachable st →
  drawCount values ≠ 0 → instanceCount values ≠ 0 →
  instanceGrid values = Some g →
  partition_inv g total → total < 2 ^ 31 →
  activeLevels values = [] →
  (i < cellCount g)%nat → offset g i < offset g (S i) →
  let d := cellDistance cameraPlane g i in
  let r := radius (cellSphere g i) in
  let lo := fst (uLod values) in
  let hi := snd (uLod values) in
  let st' := cull cameraPlane frustum values st in
  (coveredIn st' 0 g i
   ↔ inFrustum frustum g i = true
     ∧ distanceCulled cameraPlane g (uLod values) i = false)
  ∧ (coveredIn st' 0 g i
     ↔ inFrustum frustum g i = true
       ∧ ((PrimFloat.eqb lo 0 = true ∧ PrimFloat.eqb hi 0 = true)
          ∨ (PrimFloat.ltb (d + r)%float lo = false
             ∧ PrimFloat.ltb hi (d - r)%float = false)))
  ∧ (PrimFloat.eqb lo 0 = true → PrimFloat.eqb hi 0 = true →
     (coveredIn st' 0 g i ↔ inFrustum frustum g i = true)).
Proof.
  intros Hr Hd Hi Hg Hp Hfit Hl Hlt Hne d r lo hi st'.
  pose proof (reachable_wf st Hr) as Hwf.
  assert (coveredIn st' 0 g i
          ↔ inFrustum frustum g i = true
            ∧ distanceCulled cameraPlane g (uLod values) i = false) as Hiff.
  { split.
    - intros Hc.
      apply (cull_covered_kept _ _ _ g total) in Hc; try done.
      rewrite batchKeep_plain in Hc by done.
      apply andb_true_iff in Hc as [Hc1 Hc2].
      by apply negb_true_iff in Hc1.
    - intros [Hf Hdc]. apply coveredOnceIn_coveredIn.
      apply (cull_covers_kept _ _ _ g total); try done; [by left|].
      rewrite batchKeep_plain by done. by rewrite Hdc, Hf. }
  split; [done|].
  rewrite distanceCulled_false in Hiff. fold d r lo hi in Hiff.
  split; [done|]. intros Hlo Hhi. rewrite Hiff.
  split; [by intros [? _]|]. intros Hf. split; [done|]. by left.
Qed.

(** C9, amended. The distance tests are inclusive. Neither comparison
    rejects a sphere that touches its threshold exactly
    ([d + radius = min], [d - radius = max]), so a sphere that touches one
    end of a distance interval (and does not lie beyond the other end) is
    not rejected by the test of that interval; and, under the partition
    invariant of a grid with fewer than 2^31 instances, a non-empty cell
    in the frustum is included
    - without LOD table, when it touches an end of the overall range;
    - in the batch of band [j], when it touches an end of the interval of
      band [j] and is not skipped by the overall test;
    - in the batch of band [j], when it touches an end of the overall
      range and passes the test of band [j]. *)
Theorem cull_inclusive_thresholds
    cameraPlane frustum values g total st i :
  reachable st →
  drawCount values ≠ 0 → instanceCount values ≠ 0 →
  instanceGrid values = Some g →
  partition_inv g total → total < 2 ^ 31 →
  (i < cellCount g)%nat → offset g i < offset g (S i) →
  inFrustum frustum g i = true →
  let d := cellDistance cameraPlane g i in
  let r := radius (cellSphere g i) in
  let st' := cull cameraPlane frustum values st in
  (∀ lo, PrimFloat.eqb (d + r)%float lo = true →
         PrimFloat.ltb (d + r)%float lo = false)
  ∧ (∀ hi, PrimFloat.eqb (d - r)%float hi = true →
           gtb (d - r)%float hi = false)
  ∧ (∀ lo hi, touchesRange d r lo hi → outsideRange d r lo hi = false)
  ∧ (activeLevels values = [] →
     touchesRange d r (fst (uLod values)) (snd (uLod values)) →
     coveredIn st' 0 g i)
  ∧ (∀ j lv, activeLevels values !! j = Some lv →
       distanceCulled cameraPlane g (uLod values) i = false →
       touchesRange d r (lod_minDistance lv) (lod_maxDistance lv) →
       coveredIn st' j g i)
  ∧ (∀ j lv, activeLevels values !! j = Some lv →
       touchesRange d r (fst (uLod values)) (snd (uLod values)) →
       inBand cameraPlane g lv i = true →
       coveredIn st' j g i).
Proof.
  intros Hr Hd Hi Hg Hp Hfit Hlt Hne Hf d r st'.
  pose proof (reachable_wf st Hr) as Hwf.
  assert (∀ lo hi, touchesRange d r lo hi → outsideRange d r lo hi = false)
    as Htouch.
  { intros lo hi Ht. by apply meetsRange_not_outside, touchesRange_meets. }
  assert (touchesRange d r (fst (uLod values)) (snd (uLod values)) →
          distanceCulled cameraPlane g (uLod values) i = false) as Hover.
  { intros Ht. unfold distanceCulled. fold d r.
    rewrite (Htouch _ _ Ht). apply andb_false_r. }
  split; [intros lo [_ He]%eqb_leb; by apply leb_not_ltb|].
  split; [intros hi [He _]%eqb_leb; unfold gtb; by apply leb_not_ltb|].
  split; [done|]. split; [|split].
  - intros Hl Ht. apply coveredOnceIn_coveredIn.
    apply (cull_covers_kept _ _ _ g total); try done; [by left|].
    rewrite batchKeep_plain by done. by rewrite (Hover Ht), Hf.
  - intros j lv Hlv Hdc Ht. apply coveredOnceIn_coveredIn.
    apply (cull_covers_kept _ _ _ g total); try done; [right; by eexists|].
    rewrite (batchKeep_band _ _ _ _ _ lv) by done.
    rewrite Hdc, Hf. simpl. unfold inBand. fold d r.
    by rewrite (Htouch _ _ Ht).
  - intros j lv Hlv Ht Hb. apply coveredOnceIn_coveredIn.
    apply (cull_covers_kept _ _ _ g total); try done; [right; by eexists|].
    rewrite (batchKeep_band _ _ _ _ _ lv) by done.
    by rewrite (Hover Ht), Hf, Hb.
Qed.


Lemma mdbDataList_set_cullEnabled b st :
  mdbDataList (set_cullEnabled b st) = mdbDataList st.
Proof. done. Qed.

Lemma lodLevelsVersion_set_cullEnabled b st :
  lodLevelsVersion (set_cullEnabled b st) = lodLevelsVersion st.
Proof. done. Qed.

Lemma cull_early cameraPlane frustum values st :
  drawCount values = 0 ∨ instanceCount values = 0
  ∨ instanceGrid values = None →
  cull cameraPlane frustum values st = set_cullEnabled false st.
Proof.
  intros H. unfold cull.
  destruct (Z.eqb_spec (drawCount values) 0); [done|].
  destruct (Z.eqb_spec (instanceCount values) 0); [done|].
  destruct (instanceGrid values); [|done].
  by destruct H as [?|[?|?]].
Qed.

Lemma cull_runs_or_not values :
  (drawCount values = 0 ∨ instanceCount values = 0
   ∨ instanceGrid values = None)
  ∨ ∃ g, drawCount values ≠ 0 ∧ instanceCount values ≠ 0
         ∧ instanceGrid values = Some g.
Proof.
  destruct (decide (drawCount values = 0)); [by left; left|].
  destruct (decide (instanceCount values = 0)); [by left; right; left|].
  destruct (instanceGrid values) as [g|] eqn:E; [|by left; right; right].
  right. by exists g.
Qed.

Lemma fmap_deref_ext {A} (f : MultiDrawBaseData → A) h1 h2 (rs : list nat) :
  (∀ r, r ∈ rs → f (deref h2 r) = f (deref h1 r)) →
  f <$> (deref h2 <$> rs) = f <$> (deref h1 <$> rs).
Proof.
  induction rs as [|r rs IH]; intros H; simpl; [done|].
  rewrite H by apply list_elem_of_here. f_equal.
  apply IH. intros r' Hr'. apply H. by apply list_elem_of_further.
Qed.

Lemma all_Some_fmap {A} (l : list (option A)) :
  (∀ k o, l !! k = Some o → is_Some o) → ∃ rs, l = Some <$> rs.
Proof.
  induction l as [|o l IH]; intros H.
  - by exists [].
  - destruct (H 0%nat o eq_refl) as [r ->].
    destruct IH as [rs ->]; [intros k o' E; by apply (H (S k))|].
    by exists (r :: rs).
Qed.

Lemma wf_list st :
  wf st → ∃ rs, mdbDataList st = Some <$> rs
                ∧ ∀ r, r ∈ rs → (r < length (heap st))%nat.
Proof.
  intros (_ & _ & _ & Hval).
  destruct (all_Some_fmap (mdbDataList st)) as [rs Hrs].
  { intros k o E. destruct (Hval k o E) as (r & -> & _). by eexists. }
  exists rs. split; [done|]. intros r [k Hk]%list_elem_of_lookup.
  destruct (Hval k (Some r)) as (r' & [= <-] & ?); [|done].
  by rewrite Hrs, list_lookup_fmap, Hk.
Qed.

(** C7. Two passes in succession with the same camera plane, frustum and
    values leave the same batches after the second as after the first:
    the same list of batch objects, each with the same [count] and the
    same entries below it; the second pass changes no uniforms, and its
    test [values.lodLevels.ref.version !== lodLevelsVersion] fails. *)
Theorem cull_twice_same_batches cameraPlane frustum values st :
  reachable st →
  let st1 := cull cameraPlane frustum values st in
  let st2 := cull cameraPlane frustum values st1 in
  mdbDataList st2 = mdbDataList st1
  ∧ batchContents <$> batches st2 = batchContents <$> batches st1
  ∧ uniforms <$> batches st2 = uniforms <$> batches st1
  ∧ lodLevelsVersion st2 = lodLevelsVersion st1
  ∧ (∀ ll, drawCount values ≠ 0 → instanceCount values ≠ 0 →
       is_Some (instanceGrid values) →
       lodLevels values = Some ll → lod_value ll ≠ [] →
       (lod_version ll =? lodLevelsVersion st1) = true).
Proof.
  intros Hr st1 st2.
  pose proof (reachable_wf st Hr) as Hwf.
  destruct (cull_runs_or_not values) as [Hearly|(g & Hd & Hi & Hg)].
  { subst st2 st1. rewrite !(cull_early _ _ _ _ Hearly).
    split_and!; try done.
    intros ll Hd Hi [g Hg]. destruct Hearly as [?|[?|?]]; congruence. }
  pose proof (wf_cull cameraPlane frustum values st Hwf) as Hwf1.
  fold st1 in Hwf1.
  destruct (cull_batches cameraPlane frustum values g st Hwf Hd Hi Hg)
    as [_ Hb1]. fold st1 in Hb1.
  destruct (cull_batches cameraPlane frustum values g st1 Hwf1 Hd Hi Hg)
    as [_ Hb2]. fold st2 in Hb2.
  assert (∀ j m1 m2, batches st1 !! j = Some m1 → batches st2 !! j = Some m2
          → batchContents m2 = batchContents m1) as Hcont.
  { intros j m1 m2 E1 E2.
    destruct (Hb1 j m1 E1) as (He1 & Hc1 & Hcap1 & Hu1).
    destruct (Hb2 j m2 E2) as (He2 & Hc2 & Hcap2 & Hu2).
    unfold batchContents.
    rewrite <- (count_entries m1), <- (count_entries m2) by (done || lia).
    by rewrite He1, He2. }
  apply (wf_set_cullEnabled false) in Hwf.
  pose proof (wf_set_cullEnabled false st1 Hwf1) as Hwf1'.
  destruct (activeLevels_cases values) as [Hl|(ll & Hll & Hne & Hl)].
  - subst st2. rewrite (cull_plain _ _ _ g _ Hd Hi Hg Hl) in *.
    assert (st1 = set_cullEnabled true
              (cullPlain cameraPlane frustum g (uLod values)
                 (drawCount values) (set_cullEnabled false st))) as Est1
      by (subst st1; by apply cull_plain).
    destruct (cullPlain_spec cameraPlane frustum g (uLod values)
                (drawCount values) _ Hwf)
      as (r1 & Hmd1 & Hlist1 & Hr1 & _ & _ & _ & Hv1 & _ & _ & Hcap1
          & Hu1 & _).
    destruct (cullPlain_spec cameraPlane frustum g (uLod values)
                (drawCount values) _ Hwf1')
      as (r2 & Hmd2 & Hlist2 & Hr2 & _ & _ & _ & Hv2 & _ & _ & _
          & Hu2 & _ & Hreuse & _).
    assert (mdbData st1 = r1 ∧ mdbDataList st1 = [Some r1]
            ∧ heap st1 = heap (cullPlain cameraPlane frustum g (uLod values)
                 (drawCount values) (set_cullEnabled false st))) as
      (Emd & Elist & Eheap) by (by rewrite Est1).
    simpl in Hreuse. rewrite Emd, Eheap in Hreuse.
    rewrite (Hreuse Hcap1) in *. clear Hreuse.
    rewrite mdbDataList_set_cullEnabled, lodLevelsVersion_set_cullEnabled.
    split; [by rewrite Hlist2, Elist|].
    assert (batches st1 = [deref (heap st1) r1]) as Eb1
      by (by rewrite (batches_eq st1 [r1])).
    rewrite batches_set_cullEnabled in *.
    rewrite (batches_eq _ [r1]) in * by done.
    rewrite Eb1. simpl.
    split; [by rewrite (Hcont 0%nat _ _ ltac:(by rewrite Eb1) eq_refl)|].
    split; [by rewrite Hu2, Eheap, Hu1|].
    split; [done|]. intros ll _ _ _ Hll Hne.
    unfold activeLevels in Hl. by rewrite Hll in Hl.
  - subst st2. rewrite (cull_lod _ _ _ g ll _ Hd Hi Hg Hll Hne) in *.
    assert (st1 = set_cullEnabled true
              (cullLod cameraPlane frustum g (uLod values) ll
                 (set_cullEnabled false st))) as Est1
      by (subst st1; by apply cull_lod).
    destruct (cullLod_spec cameraPlane frustum g (uLod values) ll _ Hwf)
      as (rs1 & Hlist1 & Hlen1 & _ & _ & _ & _ & _ & Hv1 & Hval1 & Hent1
          & _).
    destruct (cullLod_spec cameraPlane frustum g (uLod values) ll _ Hwf1')
      as (rs2 & Hlist2 & Hlen2 & _ & _ & _ & _ & _ & Hv2 & _ & _ & _
          & Hslot & Hunif).
    assert (mdbDataList st1 = Some <$> rs1
            ∧ lodLevelsVersion st1 = lod_version ll
            ∧ heap st1 = heap (cullLod cameraPlane frustum g (uLod values)
                 ll (set_cullEnabled false st))) as
      (Elist & Ever & Eheap) by (by rewrite Est1).
    simpl in Hslot, Hunif. rewrite Elist in Hslot.
    rewrite Ever, Eheap in Hunif. rewrite Eheap in Hslot.
    specialize (Hunif eq_refl).
    assert (rs2 = rs1) as ->.
    { apply list_eq. intros k.
      destruct (rs1 !! k) as [r|] eqn:E1.
      - destruct (lookup_lt_is_Some_2 rs2 k) as [r' E2].
        { apply lookup_lt_Some in E1. lia. }
        destruct (lookup_lt_is_Some_2 (lod_value ll) k) as [lv Elv].
        { apply lookup_lt_Some in E1. lia. }
        destruct (Hslot k r r') as [_ Hsame]; [|done|].
        { by rewrite list_lookup_fmap, E1. }
        destruct (Hent1 k r lv E1 Elv) as (_ & _ & Hcap).
        rewrite E2, (Hsame Hcap). done.
      - apply lookup_ge_None. apply lookup_ge_None in E1. lia. }
    rewrite mdbDataList_set_cullEnabled, lodLevelsVersion_set_cullEnabled.
    split; [by rewrite Hlist2, Elist|].
    rewrite batches_set_cullEnabled in *.
    rewrite (batches_eq _ rs1) in * by done.
    rewrite (batches_eq st1 rs1) in * by done.
    split.
    { apply fmap_deref_ext. intros r [k Hk]%list_elem_of_lookup.
      apply (Hcont k); by rewrite list_lookup_fmap, Hk. }
    split.
    { rewrite Eheap. apply fmap_deref_ext. intros r Hin.
      apply Hunif. by apply Hval1. }
    split; [by rewrite Hv2, Ever|].
    intros ll' _ _ _ Hll' _. rewrite Hll in Hll'. injection Hll' as <-.
    rewrite Ever. apply Z.eqb_refl.
Qed.


Lemma runSize_telescope g a n :
  foldr Z.add 0 (rangeSize g <$> seq a n) = offset g (a + n) - offset g a.
Proof.
  revert a. induction n as [|n IH]; intros a; simpl.
  - rewrite Nat.add_0_r. lia.
  - rewrite IH. unfold rangeSize.
    replace (a + S n)%nat with (S a + n)%nat by lia. lia.
Qed.

Lemma runSize_offsets g a b :
  (a ≤ b)%nat → runSize g a b = offset g b - offset g a.
Proof.
  intros Hab. unfold runSize. rewrite runSize_telescope.
  by replace (a + (b - a))%nat with b by lia.
Qed.

(** C1, amended. Under the partition invariant (of a grid with fewer
    than 2^31 instances), and in a batch of a LOD band when the draw count
    of that band is an [Int32] value: every run of consecutively-indexed
    cells that all pass the tests of the batch, that holds at least one
    instance, and whose range no cell outside the run that passes the
    tests and has instances adjoins, leaves exactly one entry in the
    batch: its [baseInstance] is the start of the range of the first cell,
    its [instanceCount] the sum of the range sizes, and no other entry
    reaches into the run. A maximal run is such a run unless a kept cell
    adjoins it across empty cells. *)
Theorem cull_merges_maximal_run
    cameraPlane frustum values g total st j a b :
  reachable st →
  drawCount values ≠ 0 → instanceCount values ≠ 0 →
  instanceGrid values = Some g →
  partition_inv g total → total < 2 ^ 31 →
  (∀ lv, activeLevels values !! j = Some lv → isInt32 (lod_count lv)) →
  j = 0%nat ∨ is_Some (activeLevels values !! j) →
  (a < b)%nat → (b ≤ cellCount g)%nat →
  (∀ i, (a ≤ i < b)%nat →
     batchKeep cameraPlane frustum values g j i = true) →
  0 < runSize g a b →
  (∀ i, (i < a)%nat →
     batchKeep cameraPlane frustum values g j i = true →
     0 < rangeSize g i → offset g (S i) < offset g a) →
  (∀ i, (b ≤ i < cellCount g)%nat →
     batchKeep cameraPlane frustum values g j i = true →
     0 < rangeSize g i → offset g b < offset g i) →
  ∃ m k e,
    batches (cull cameraPlane frustum values st) !! j = Some m
    ∧ entries m !! k = Some e
    ∧ e_baseInstance e = offset g a
    ∧ e_instanceCount e = runSize g a b
    ∧ ∀ k' e' x, entries m !! k' = Some e' →
        offset g a ≤ x < offset g b → covers e' x → k' = k.
Proof.
  intros Hr Hd Hi Hg Hp Hfit Hint Hj Hab Hb Hrun Hsize Hleft Hright.
  pose proof (reachable_wf st Hr) as Hwf.
  destruct (cull_batch_exists cameraPlane frustum values g st j)
    as [m Hm]; try done.
  destruct (cull_merge_inv cameraPlane frustum values g total st j m)
    as [Hinv _]; try done.
  rewrite runSize_offsets in * by lia.
  assert (count_fits (lodMode values) (batchDrawCount values j)) as Hfits.
  { intros Hmode. unfold lodMode in Hmode. apply Nat.ltb_lt in Hmode.
    unfold batchDrawCount.
    destruct (activeLevels values !! j) as [lv|] eqn:Elv.
    - by apply toInt32_small, Hint.
    - destruct Hj as [->|[? ?]]; [|done].
      apply lookup_ge_None in Elv. lia. }
  edestruct (merge_run_separated (lodMode values)
               (batchKeep cameraPlane frustum values g j) g total
               (batchDrawCount values j) Hp (entries m) a b)
    as (k & e & E & Hbase & Hcnt & Huniq); try done; try lia.
  - intros i Hia Hk Hne. apply Hleft; try done. unfold rangeSize. lia.
  - intros i Hbi Hk Hne. apply Hright; try done. unfold rangeSize. lia.
  - exists m, k, e. by split_and!.
Qed.

(** C8, amended. [getMdbData] returns the given buffer, and creates
    nothing, when its capacity is at least [cellCount]; otherwise (no
    buffer given, or one of smaller capacity) it returns a fresh buffer:
    an object that did not exist before, of capacity exactly [cellCount],
    which is larger than that of the given one, all arrays zero-filled,
    [count] 0 and no uniforms, the existing objects being left as they
    are. So the buffer returned is never smaller than the one given.
    Hence, over any pass, the standalone buffer [mdbData] never loses
    capacity, and with a non-empty LOD table the batch at an index that
    was already in the list does not lose capacity. After every completed
    pass the [count] of each batch is at most [cellCount], which is at
    most its capacity. *)
Theorem cull_capacity cameraPlane frustum values st :
  reachable st →
  let st' := cull cameraPlane frustum values st in
  (∀ cc o h,
     (cc ≤ capacity (deref (getMdbData cc o h).1 (getMdbData cc o h).2))%nat
     ∧ (∀ r0, o = Some r0 →
          (capacity (deref h r0)
           ≤ capacity (deref (getMdbData cc o h).1
                             (getMdbData cc o h).2))%nat
          ∧ ((cc ≤ capacity (deref h r0))%nat →
             getMdbData cc o h = (h, r0)))
     ∧ ((∀ r0, o = Some r0 → (capacity (deref h r0) < cc)%nat) →
        (getMdbData cc o h).2 = length h
        ∧ length (getMdbData cc o h).1 = S (length h)
        ∧ (∀ r, (r < length h)%nat →
             deref (getMdbData cc o h).1 r = deref h r)
        ∧ capacity (deref (getMdbData cc o h).1 (getMdbData cc o h).2) = cc
        ∧ (∀ r0, o = Some r0 →
             (capacity (deref h r0)
              < capacity (deref (getMdbData cc o h).1
                                (getMdbData cc o h).2))%nat)
        ∧ unusedArraysZero
            (deref (getMdbData cc o h).1 (getMdbData cc o h).2)
        ∧ batchContents
            (deref (getMdbData cc o h).1 (getMdbData cc o h).2) = (0%nat, [])
        ∧ counts (deref (getMdbData cc o h).1 (getMdbData cc o h).2)
          = replicate cc 0
        ∧ instanceCounts
            (deref (getMdbData cc o h).1 (getMdbData cc o h).2)
          = replicate cc 0
        ∧ baseInstances
            (deref (getMdbData cc o h).1 (getMdbData cc o h).2)
          = replicate cc 0
        ∧ uniforms (deref (getMdbData cc o h).1 (getMdbData cc o h).2)
          = []))
  ∧ (capacity (deref (heap st) (mdbData st))
     ≤ capacity (deref (heap st') (mdbData st')))%nat
  ∧ (lodMode values = true →
     ∀ j m m', batches st !! j = Some m → batches st' !! j = Some m' →
       (capacity m ≤ capacity m')%nat)
  ∧ (∀ g, drawCount values ≠ 0 → instanceCount values ≠ 0 →
       instanceGrid values = Some g →
       ∀ m, m ∈ batches st' →
         (count m ≤ cellCount g)%nat ∧ (cellCount g ≤ capacity m)%nat).
Proof.
  intros Hr st'. pose proof (reachable_wf st Hr) as Hwf.
  split.
  { intros cc o h.
    destruct (getMdbData_cases cc o h) as [(r0 & -> & Hcap & E)|[Hsm E]];
      rewrite E; simpl.
    - split; [done|]. split; [intros r1 [= <-]; done|].
      intros Hlt. specialize (Hlt r0 eq_refl). lia.
    - rewrite deref_alloc, newMdbData_capacity. split; [done|].
      split.
      { intros r0 ->. specialize (Hsm r0 eq_refl). split; [lia|]. lia. }
      intros _. split; [done|].
      split; [rewrite length_app; simpl; lia|].
      split; [intros r Hlt; by apply deref_app_l|].
      split; [done|]. split; [done|].
      split.
      { unfold unusedArraysZero. by rewrite newMdbData_capacity. }
      done. }
  assert (∀ g, drawCount values ≠ 0 → instanceCount values ≠ 0 →
       instanceGrid values = Some g →
       ∀ m, m ∈ batches st' →
         (count m ≤ cellCount g)%nat ∧ (cellCount g ≤ capacity m)%nat)
    as Hcount.
  { intros g Hd Hi Hg m [j Hj]%list_elem_of_lookup.
    destruct (cull_batches cameraPlane frustum values g st Hwf Hd Hi Hg)
      as [_ Hb].
    by destruct (Hb j m Hj) as (_ & ? & ? & _). }
  destruct (cull_runs_or_not values) as [Hearly|(g & Hd & Hi & Hg)].
  { subst st'. rewrite (cull_early _ _ _ _ Hearly).
    split; [reflexivity|]. split.
    - intros _ j m m' E E'. rewrite batches_set_cullEnabled in E'.
      rewrite E in E'. by injection E' as <-.
    - intros g Hd Hi Hg. destruct Hearly as [?|[?|?]]; congruence. }
  apply (wf_set_cullEnabled false) in Hwf.
  destruct (activeLevels_cases values) as [Hl|(ll & Hll & Hne & Hl)].
  - subst st'. rewrite (cull_plain _ _ _ g _ Hd Hi Hg Hl) in *.
    destruct (cullPlain_spec cameraPlane frustum g (uLod values)
                (drawCount values) _ Hwf)
      as (r & Hmd & _ & _ & _ & _ & _ & _ & _ & _ & _ & _ & Hmono & _).
    split; [simpl in *; by rewrite Hmd|]. split; [|done].
    unfold lodMode. by rewrite Hl.
  - subst st'. rewrite (cull_lod _ _ _ g ll _ Hd Hi Hg Hll Hne) in *.
    destruct (cullLod_spec cameraPlane frustum g (uLod values) ll _ Hwf)
      as (rs & Hlist & _ & _ & _ & _ & Hmd & _ & _ & _ & _ & Hcap
          & Hslot & _).
    pose proof Hwf as (_ & Hmdlt & _).
    split.
    { simpl in *. rewrite Hmd. by rewrite Hcap. }
    split; [|done]. intros _ j m m' E E'.
    rewrite batches_set_cullEnabled in E'.
    rewrite (batches_eq _ rs) in E' by done.
    destruct (wf_list _ Hwf) as (rs0 & Hlist0 & _).
    rewrite <- (batches_set_cullEnabled false), (batches_eq _ rs0) in E
      by done.
    rewrite list_lookup_fmap in E, E'.
    destruct (rs0 !! j) as [r0|] eqn:E0; [|done].
    destruct (rs !! j) as [r|] eqn:E1; [|done].
    injection E as <-. injection E' as <-.
    apply (Hslot j r0 r); [|done].
    by rewrite Hlist0, list_lookup_fmap, E0.
Qed.


Lemma plain_loop_cap cameraPlane frustum g u dc cap s0 cells :
  local_cap cap s0 →
  local_cap cap (foldl (cullCellPlain cameraPlane frustum g u dc) s0 cells).
Proof.
  revert s0. induction cells as [|i cells IH]; intros s0 H; simpl; [done|].
  apply IH. rewrite cullCellPlain_step. case_match; [|done].
  by apply appendPlain_cap.
Qed.

(** ** Invariants of the heap over a pass *)

Section HeapInvariant.

Variable P : MultiDrawBaseData → Prop.
Hypothesis P_new : ∀ n, P (newMdbData n).
Hypothesis P_count : ∀ n m, P m → P (set_count n m).
Hypothesis P_arrays : ∀ cs ics bis m, P m →
  length cs = length (counts m) →
  length ics = length (instanceCounts m) →
  length bis = length (baseInstances m) →
  P (set_arrays cs ics bis m).
Hypothesis P_clear : ∀ m, P m → P (set_uniforms [] m).
Hypothesis P_rebuild : ∀ lv m, P m → P (rebuildUniform lv m).

Lemma heap_all_nil : heap_all P [].
Proof. intros r. unfold deref. rewrite lookup_nil. apply P_new. Qed.

Lemma heap_all_modify f r h :
  (∀ m, P m → P (f m)) → heap_all P h → heap_all P (modify f r h).
Proof.
  intros Hf Hh r'. rewrite deref_modify. case_decide; [apply Hf|]; apply Hh.
Qed.

Lemma heap_all_getMdbData cc o h :
  heap_all P h → heap_all P (getMdbData cc o h).1.
Proof.
  intros Hh.
  destruct (getMdbData_cases cc o h) as [(r0 & -> & _ & ->)|[_ ->]];
    [done|]. simpl.
  intros r. destruct (decide (r < length h)%nat).
  - rewrite deref_app_l by done. apply Hh.
  - unfold deref. destruct (decide (r = length h)) as [->|].
    + rewrite lookup_app_r, Nat.sub_diag by lia. apply P_new.
    + rewrite lookup_ge_None_2 by (rewrite length_app; simpl; lia).
      apply P_new.
Qed.

Lemma heap_all_prepareBatches cc n s :
  heap_all P s.1 → heap_all P (prepareBatches cc n s).1.
Proof.
  unfold prepareBatches. generalize (seq 0 n). intros idx.
  revert s. induction idx as [|i idx IH]; intros [h l] Hh; simpl; [done|].
  apply IH. unfold prepareBatch.
  pose proof (heap_all_getMdbData cc (mjoin (l !! i)) h Hh) as H1.
  destruct (getMdbData cc (mjoin (l !! i)) h) as [h1 r]. simpl in *.
  apply heap_all_modify; [apply P_count|done].
Qed.

Lemma heap_all_rebuildUniforms lvls i l h :
  heap_all P h → heap_all P (rebuildUniforms lvls i l h).
Proof.
  revert i h. induction lvls as [|lv lvls IH]; intros i h Hh; simpl; [done|].
  apply IH. case_match; [|done].
  apply heap_all_modify; [apply P_rebuild|done].
Qed.

Lemma P_appendLod begin cnt c m : P m → P (appendLod begin cnt c m).
Proof.
  intros Hm. unfold appendLod. case_match.
  - apply P_arrays; by rewrite ?length_insert.
  - apply P_count, P_arrays; by rewrite ?length_insert.
Qed.

Lemma heap_all_bandLoop d rad b n l lvls j h :
  heap_all P h → heap_all P (bandLoop d rad b n l lvls j h).
Proof.
  revert j h. induction lvls as [|lv lvls IH]; intros j h Hh; simpl; [done|].
  apply IH. repeat case_match; try done.
  apply heap_all_modify; [apply P_appendLod|done].
Qed.

Lemma heap_all_cellLoopLod cameraPlane frustum g u lvls l h cells :
  heap_all P h →
  heap_all P (foldl (cullCellLod cameraPlane frustum g u lvls l) h cells).
Proof.
  revert h. induction cells as [|i cells IH]; intros h Hh; simpl; [done|].
  apply IH. unfold cullCellLod. repeat case_match; try done.
  by apply heap_all_bandLoop.
Qed.

Lemma heap_all_cullLod cameraPlane frustum g u ll st :
  heap_all P (heap st) →
  heap_all P (heap (cullLod cameraPlane frustum g u ll st)).
Proof.
  intros Hh. unfold cullLod.
  pose proof (heap_all_prepareBatches (cellCount g) (length (lod_value ll))
    (heap st, setLength (length (lod_value ll)) (mdbDataList st)) Hh) as H1.
  destruct (prepareBatches _ _ _) as [h1 l1]. simpl in H1.
  destruct (negb _); simpl; apply heap_all_cellLoopLod; [|done].
  by apply heap_all_rebuildUniforms.
Qed.

Lemma heap_all_cullPlain cameraPlane frustum g u dc st :
  heap_ok (heap st) → heap_all P (heap st) →
  heap_all P (heap (cullPlain cameraPlane frustum g u dc st)).
Proof.
  intros Hok Hh. unfold cullPlain.
  pose proof (heap_all_getMdbData (cellCount g) (Some (mdbData st))
                (heap st) Hh) as H1.
  assert (heap_ok (getMdbData (cellCount g) (Some (mdbData st))
                     (heap st)).1) as Hok1.
  { destruct (getMdbData_cases (cellCount g) (Some (mdbData st)) (heap st))
      as [(r0 & _ & _ & ->)|[_ ->]]; [done|by apply heap_ok_alloc]. }
  destruct (getMdbData _ _ _) as [h1 r]. simpl in *.
  set (m := deref h1 r).
  set (s0 := mkLocal (baseInstances m) (instanceCounts m) (counts m) 0).
  destruct (Hok1 r) as [Hub Huc]. fold m in Hub, Huc.
  destruct (plain_loop_cap cameraPlane frustum g u dc (capacity m) s0
              (seq 0 (cellCount g))) as (Hb & Hi & Hc); [by split_and!|].
  set (s := foldl _ s0 _) in *.
  apply heap_all_modify; [apply P_clear|].
  intros r'. rewrite deref_modify. case_decide as Hd; [|apply H1].
  destruct Hd as [<- _]. fold m.
  apply P_count, P_arrays; [apply H1|unfold capacity in *; congruence..].
Qed.

Lemma heap_all_cull cameraPlane frustum values st :
  heap_ok (heap st) → heap_all P (heap st) →
  heap_all P (heap (cull cameraPlane frustum values st)).
Proof.
  intros Hok Hh. unfold cull.
  repeat case_match; try done; simpl;
    by (apply heap_all_cullLod || apply heap_all_cullPlain).
Qed.

Lemma reachable_heap_all st : reachable st → heap_all P (heap st).
Proof.
  induction 1 as [|? ? ? st Hr IH|]; [| |done].
  - apply (heap_all_getMdbData 0 None []), heap_all_nil.
  - apply heap_all_cull; [|done]. by destruct (reachable_wf st Hr).
Qed.

End HeapInvariant.


(** The draw count of every entry, for any grid. *)
Lemma pushEntry_count chk begin cnt c es :
  Forall (fun e => e_count e = toInt32 c) es →
  Forall (fun e => e_count e = toInt32 c) (pushEntry chk begin cnt c es).
Proof.
  intros H. unfold pushEntry. destruct (last es) as [e|] eqn:El.
  - case_match.
    + apply Forall_insert; [done|]. simpl.
      apply last_Some_elem_of in El.
      by apply (proj1 (Forall_forall _ _) H).
    + apply Forall_app. split; [done|]. by repeat constructor.
  - by repeat constructor.
Qed.

Lemma mergedEntries_count chk keep g c :
  Forall (fun e => e_count e = toInt32 c) (mergedEntries chk keep g c).
Proof.
  unfold mergedEntries. induction (cellCount g) as [|n IH]; [constructor|].
  rewrite foldl_seq_S. unfold cellStep at 1. case_match; [|done].
  by apply pushEntry_count.
Qed.


(** ** Further properties of [cull], [uncull] and [render] *)

Lemma batches_deref st m :
  m ∈ batches st → ∃ r, m = deref (heap st) r.
Proof.
  unfold batches. intros (o & _ & Ho)%list_elem_of_omap.
  destruct o as [r|]; [|done]. injection Ho as <-. by exists r.
Qed.

Lemma cull_enabled cameraPlane frustum values g st :
  drawCount values ≠ 0 → instanceCount values ≠ 0 →
  instanceGrid values = Some g →
  cullEnabled (cull cameraPlane frustum values st) = true.
Proof.
  intros Hd Hi Hg. unfold cull.
  rewrite (proj2 (Z.eqb_neq _ _) Hd), (proj2 (Z.eqb_neq _ _) Hi), Hg. done.
Qed.

(** X1. A pass that gets past the early returns leaves culling enabled
    and one batch per LOD band (a single batch without LOD table); the
    batch list has no hole and [render] hands exactly these batches to the
    render item. *)
Theorem cull_completed_hands_over_batches
    cameraPlane frustum values g st :
  reachable st →
  drawCount values ≠ 0 → instanceCount values ≠ 0 →
  instanceGrid values = Some g →
  let st' := cull cameraPlane frustum values st in
  cullEnabled st' = true
  ∧ length (batches st') = Nat.max 1 (length (activeLevels values))
  ∧ renderBatches st' = Some (Some <$> batches st').
Proof.
  intros Hr Hd Hi Hg st'.
  pose proof (reachable_wf st Hr) as Hwf.
  pose proof (wf_cull cameraPlane frustum values st Hwf) as Hwf'.
  fold st' in Hwf'.
  destruct (cull_batches cameraPlane frustum values g st Hwf Hd Hi Hg)
    as [Hlen _]. fold st' in Hlen.
  pose proof (cull_enabled cameraPlane frustum values g st Hd Hi Hg) as Hen.
  fold st' in Hen.
  split; [done|]. split; [done|].
  destruct (wf_list st' Hwf') as (rs & Hrs & _).
  unfold renderBatches. rewrite Hen, (batches_eq st' rs Hrs), Hrs.
  f_equal. rewrite <- !list_fmap_compose. done.
Qed.

(** X2. Under the partition invariant, an instance index is covered by an
    entry of a batch exactly when it belongs to a cell that passed all
    tests of that batch (overall distance test, frustum test and, with a
    LOD table, the distance test of the band). *)
Theorem cull_entries_cover_exactly_kept_cells
    cameraPlane frustum values g total st j m :
  reachable st →
  drawCount values ≠ 0 → instanceCount values ≠ 0 →
  instanceGrid values = Some g →
  partition_inv g total → total < 2 ^ 31 →
  batches (cull cameraPlane frustum values st) !! j = Some m →
  ∀ x, (∃ e, e ∈ entries m ∧ covers e x)
       ↔ (∃ i, (i < cellCount g)%nat
               ∧ batchKeep cameraPlane frustum values g j i = true
               ∧ inCell g i x).
Proof.
  intros Hr Hd Hi Hg Hp Hfit Hm x.
  destruct (cull_merge_inv cameraPlane frustum values g total st j m)
    as [Hinv _]; try done; [by apply reachable_wf|].
  rewrite <- (merge_covered_iff _ _ _ _ (entries m) x Hinv).
  split.
  - intros (e & [k Hk]%list_elem_of_lookup & Hc). by exists k, e.
  - intros (k & e & Hk & Hc). exists e. split; [|done].
    by eapply list_elem_of_lookup_2.
Qed.

(** X3. Under the partition invariant, the instance counts of the entries
    of a batch add up to the number of instances in the cells that passed
    the tests of that batch: with the disjointness of the entries, every
    kept instance is drawn once and no other. *)
Theorem cull_instance_total
    cameraPlane frustum values g total st j m :
  reachable st →
  drawCount values ≠ 0 → instanceCount values ≠ 0 →
  instanceGrid values = Some g →
  partition_inv g total → total < 2 ^ 31 →
  batches (cull cameraPlane frustum values st) !! j = Some m →
  instanceSum (entries m)
  = keptSize (batchKeep cameraPlane frustum values g j) g (cellCount g).
Proof.
  intros Hr Hd Hi Hg Hp Hfit Hm.
  destruct (cull_batches cameraPlane frustum values g st) as [_ Hb];
    try done; [by apply reachable_wf|].
  destruct (Hb j m Hm) as (-> & _).
  by apply (merge_sum_prefix _ _ g total).
Qed.

(** X4. Under the partition invariant, every entry of every batch of a
    completed pass lies within the instances of the grid:
    [0 <= baseInstance] and [baseInstance + instanceCount <= total]. *)
Theorem cull_entries_within_total
    cameraPlane frustum values g total st m e :
  reachable st →
  drawCount values ≠ 0 → instanceCount values ≠ 0 →
  instanceGrid values = Some g →
  partition_inv g total → total < 2 ^ 31 →
  m ∈ batches (cull cameraPlane frustum values st) → e ∈ entries m →
  0 ≤ e_baseInstance e
  ∧ e_baseInstance e + e_instanceCount e ≤ total.
Proof.
  intros Hr Hd Hi Hg Hp Hfit [j Hj]%list_elem_of_lookup
    [k Hk]%list_elem_of_lookup.
  destruct (cull_merge_inv cameraPlane frustum values g total st j m)
    as [Hinv _]; try done; [by apply reachable_wf|].
  destruct (merge_within_total _ _ g total _ Hp Hfit (entries m) k e Hinv Hk)
    as (? & _ & ?). done.
Qed.

(** X5. Under the partition invariant and with [Int32] draw counts in the
    LOD table: when every cell passes the tests of a batch, the batch is
    the single entry that draws all instances,
    [{baseInstance: 0, instanceCount: total}]. *)
Theorem cull_all_kept_single_entry
    cameraPlane frustum values g total st j m :
  reachable st →
  drawCount values ≠ 0 → instanceCount values ≠ 0 →
  instanceGrid values = Some g →
  partition_inv g total → 0 < total → total < 2 ^ 31 →
  (∀ lv, lv ∈ activeLevels values → isInt32 (lod_count lv)) →
  batches (cull cameraPlane frustum values st) !! j = Some m →
  (∀ i, (i < cellCount g)%nat →
     batchKeep cameraPlane frustum values g j i = true) →
  entries m = [mkEntry 0 total (toInt32 (batchDrawCount values j))]
  ∧ count m = 1%nat.
Proof.
  intros Hr Hd Hi Hg Hp Hpos Hfit Hint Hm Hall.
  destruct (cull_merge_inv cameraPlane frustum values g total st j m)
    as (Hinv & Hlen & _); try done; [by apply reachable_wf|].
  assert (count_fits (lodMode values) (batchDrawCount values j)) as Hfits.
  { intros Hmode. unfold lodMode in Hmode. apply Nat.ltb_lt in Hmode.
    unfold batchDrawCount.
    destruct (activeLevels values !! j) as [lv|] eqn:Elv.
    - apply toInt32_small, Hint. by eapply list_elem_of_lookup_2.
    - destruct (cull_batches cameraPlane frustum values g st)
        as [Hl _]; try done; [by apply reachable_wf|].
      apply lookup_lt_Some in Hm. apply lookup_ge_None in Elv. lia. }
  pose proof (merge_all_kept _ _ g total _ Hp Hfit (entries m) Hinv Hfits
                Hall Hpos) as He.
  split; [done|]. by rewrite <- Hlen, He.
Qed.

(** X6. Under the partition invariant, a batch of a completed pass is
    empty exactly when no cell that passed its tests has instances. *)
Theorem cull_batch_empty_iff
    cameraPlane frustum values g total st j m :
  reachable st →
  drawCount values ≠ 0 → instanceCount values ≠ 0 →
  instanceGrid values = Some g →
  partition_inv g total → total < 2 ^ 31 →
  batches (cull cameraPlane frustum values st) !! j = Some m →
  count m = 0%nat
  ↔ ∀ i, (i < cellCount g)%nat →
      batchKeep cameraPlane frustum values g j i = true → rangeSize g i = 0.
Proof.
  intros Hr Hd Hi Hg Hp Hfit Hm.
  destruct (cull_merge_inv cameraPlane frustum values g total st j m)
    as (Hinv & Hlen & _); try done; [by apply reachable_wf|].
  rewrite <- (merge_empty_iff _ _ g total _ Hp (entries m) Hinv).
  rewrite <- Hlen. split; [apply nil_length_inv|by intros ->].
Qed.

(** X7. For any grid, every entry of batch [j] of a completed pass carries
    the draw count of its batch, stored as [Int32]: [lodLevels[j][3]] with
    a LOD table, [values.drawCount] without. *)
Theorem cull_entry_draw_counts cameraPlane frustum values g st j m e :
  reachable st →
  drawCount values ≠ 0 → instanceCount values ≠ 0 →
  instanceGrid values = Some g →
  batches (cull cameraPlane frustum values st) !! j = Some m →
  e ∈ entries m →
  e_count e = toInt32 (batchDrawCount values j).
Proof.
  intros Hr Hd Hi Hg Hm He.
  destruct (cull_batches cameraPlane frustum values g st) as [_ Hb];
    try done; [by apply reachable_wf|].
  destruct (Hb j m Hm) as (Heq & _). rewrite Heq in He.
  revert e He. apply Forall_forall, mergedEntries_count.
Qed.

Lemma unusedArraysZero_all st :
  reachable st → heap_all unusedArraysZero (heap st).
Proof.
  apply reachable_heap_all.
  - intros n. unfold unusedArraysZero, capacity. simpl.
    by rewrite length_replicate.
  - by intros n m.
  - intros cs ics bis m (H1 & H2 & H3) _ Hi _.
    unfold unusedArraysZero, capacity in *. simpl. by rewrite Hi.
  - by intros m.
  - by intros lv m.
Qed.

(** X8. [cull] never writes the arrays [firsts], [offsets] and
    [baseVertices]: in every state a renderable goes through, they are
    zero-filled and as long as the other arrays, in every batch of the
    list and in the standalone buffer. *)
Theorem reachable_unused_arrays_zero st m :
  reachable st →
  m ∈ batches st ∨ m = deref (heap st) (mdbData st) →
  unusedArraysZero m ∧ uniform_cap m.
Proof.
  intros Hr Hm.
  assert (∃ r, m = deref (heap st) r) as [r ->].
  { destruct Hm as [Hm| ->]; [by apply batches_deref|by eexists]. }
  split; [by apply unusedArraysZero_all|].
  by destruct (reachable_wf st Hr) as (Hok & _).
Qed.

Lemma uniformsShape_all st :
  reachable st → heap_all uniformsShape (heap st).
Proof.
  apply reachable_heap_all.
  - intros n. by left.
  - by intros n m.
  - by intros cs ics bis m.
  - intros m _. by left.
  - intros lv m H. right. unfold rebuildUniform.
    destruct H as [->|[cell ->]]; simpl; by eexists.
Qed.

(** X9. In every state a renderable goes through, a batch has no uniform
    override or exactly one, named ['uLod']. *)
Theorem reachable_uniforms_shape st m :
  reachable st →
  m ∈ batches st ∨ m = deref (heap st) (mdbData st) →
  uniformsShape m.
Proof.
  intros Hr Hm.
  assert (∃ r, m = deref (heap st) r) as [r ->].
  { destruct Hm as [Hm| ->]; [by apply batches_deref|by eexists]. }
  by apply uniformsShape_all.
Qed.


(** ** The [uLod] uniforms of the bands *)

Lemma rebuildUniforms_other lvls i l h r :
  (∀ k, (i ≤ k)%nat → l !! k ≠ Some (Some r)) →
  deref (rebuildUniforms lvls i l h) r = deref h r.
Proof.
  revert i h. induction lvls as [|lv lvls IH]; intros i h Hr; simpl; [done|].
  rewrite IH by (intros; apply Hr; lia).
  destruct (l !! i) as [[ref|]|] eqn:E; simpl; try done.
  rewrite deref_modify. case_decide as H; [|done].
  destruct H as [-> _]. by destruct (Hr i).
Qed.

Lemma rebuildUniforms_at lvls i l h j0 r lv :
  slots_inj l → l !! j0 = Some (Some r) → (r < length h)%nat →
  (i ≤ j0)%nat → lvls !! (j0 - i)%nat = Some lv →
  deref (rebuildUniforms lvls i l h) r = rebuildUniform lv (deref h r).
Proof.
  intros Hinj Hr. revert i h.
  induction lvls as [|lv' lvls IH]; intros i h Hlt Hi Hlv; simpl; [done|].
  destruct (decide (i = j0)) as [->|Hne].
  - rewrite Nat.sub_diag in Hlv. injection Hlv as ->.
    rewrite rebuildUniforms_other.
    2:{ intros k Hk E. specialize (Hinj _ _ _ Hr E). lia. }
    rewrite Hr. simpl. rewrite deref_modify. by rewrite decide_True.
  - assert (j0 - i = S (j0 - S i))%nat as Hs by lia.
    rewrite Hs in Hlv. simpl in Hlv.
    rewrite (IH (S i)); [| |lia|done].
    + destruct (l !! i) as [[ref|]|] eqn:E; simpl; try done.
      rewrite deref_modify. case_decide as H; [|done].
      destruct H as [-> _]. specialize (Hinj _ _ _ Hr E). lia.
    + case_match; by rewrite ?length_modify.
Qed.

Lemma rebuildUniform_uniforms lv m :
  uniformsShape m →
  ∃ cell, uniforms (rebuildUniform lv m)
          = [("uLod"%string, vc_update cell (lodVec lv))].
Proof.
  unfold rebuildUniform. intros [->|[cell ->]]; simpl; by eexists.
Qed.

Lemma uniformsShape_new n : uniformsShape (newMdbData n).
Proof. by left. Qed.

Lemma uniformsShape_set_count n m :
  uniformsShape m → uniformsShape (set_count n m).
Proof. done. Qed.

(** A slot without a buffer, or with one that is too small, gets a new
    object, which has no uniforms. *)
Lemma prep_fresh cc olds h h' rs k r' :
  heap_ok h →
  (∀ k r, olds !! k = Some (Some r) → (r < length h)%nat) →
  slots_inj olds →
  prep cc olds h = (h', rs) → rs !! k = Some r' →
  (∀ r, olds !! k = Some (Some r) → (capacity (deref h r) < cc)%nat) →
  (length h ≤ r')%nat ∧ uniforms (deref h' r') = [].
Proof.
  revert h h' rs k.
  induction olds as [|o os IH]; intros h h' rs k Hok Hval Hinj Hprep Hk Hsm;
    simpl in Hprep.
  - injection Hprep as <- <-. done.
  - destruct (getMdbData cc o h) as [h1 r] eqn:Hget.
    destruct (prep cc os _) as [h2 rs'] eqn:Hrec.
    injection Hprep as <- <-.
    destruct (prepare_slot cc o h h1 r Hok) as
      (Hok2 & Hlen2 & Hr2 & Hc2 & Hcap2 & Hsh2 & Hfr2 & Hcase);
      [intros r0 ->; by apply (Hval 0%nat)|done|].
    assert (∀ k r0, os !! k = Some (Some r0) →
              (r0 < length (modify (set_count 0) r h1))%nat) as Hval2.
    { intros k0 r0 E. specialize (Hval (S k0) r0 E). lia. }
    assert (slots_inj os) as Hinj2.
    { intros j j' r0 E1 E2.
      specialize (Hinj (S j) (S j') r0 E1 E2). lia. }
    destruct k as [|k]; simpl in Hk.
    + injection Hk as <-.
      destruct Hcase as [(-> & Hc & _)|(-> & Hl & _)].
      { specialize (Hsm r eq_refl). lia. }
      split; [done|].
      destruct (prep_spec cc os _ h2 rs' Hok2 Hval2 Hinj2 Hrec)
        as (_ & _ & _ & _ & Hsh & _).
      destruct (Hsh (length h) Hr2) as [-> _].
      destruct (getMdbData_cases cc o h) as [(r0 & -> & Hcap & E)|[_ E]].
      * specialize (Hsm r0 eq_refl). lia.
      * rewrite E in Hget. injection Hget as <-.
        rewrite deref_modify.
        rewrite decide_True by (rewrite length_app; simpl; lia).
        by rewrite deref_alloc.
    + destruct (IH _ h2 rs' k Hok2 Hval2 Hinj2 Hrec Hk) as [Hge Hu].
      { intros r0 E. pose proof (Hval (S k) r0 E) as Hlt.
        destruct (Hsh2 r0 Hlt) as (_ & -> & _). by apply (Hsm r0). }
      split; [lia|done].
Qed.

Lemma cullLod_uniforms cameraPlane frustum g u ll st :
  wf st → heap_all uniformsShape (heap st) →
  let st' := cullLod cameraPlane frustum g u ll st in
  ∀ j r, mdbDataList st' !! j = Some (Some r) →
    (lod_version ll ≠ lodLevelsVersion st →
     ∀ lv, lod_value ll !! j = Some lv →
       ∃ cell, uniforms (deref (heap st') r)
               = [("uLod"%string, vc_update cell (lodVec lv))])
    ∧ (lod_version ll = lodLevelsVersion st →
       (∀ r0, mdbDataList st !! j = Some (Some r0) →
          (capacity (deref (heap st) r0) < cellCount g)%nat) →
       uniforms (deref (heap st') r) = []).
Proof.
  intros (Hok & Hmd & Hinj & Hval) Hsh. cbv zeta. unfold cullLod.
  pose proof (heap_all_prepareBatches uniformsShape uniformsShape_new
    uniformsShape_set_count (cellCount g) (length (lod_value ll))
    (heap st, setLength (length (lod_value ll)) (mdbDataList st)) Hsh)
    as Hsh1.
  rewrite prepareBatches_prep in Hsh1 |- *.
  destruct (prep _ _ _) as [h1 rs] eqn:Hprep. simpl in Hsh1.
  assert (∀ k r, setLength (length (lod_value ll)) (mdbDataList st) !! k
                 = Some (Some r) → (r < length (heap st))%nat) as Hval1.
  { intros k r E%setLength_lookup_Some.
    destruct (Hval _ _ E) as (r' & [= <-] & ?). done. }
  assert (slots_inj (setLength (length (lod_value ll)) (mdbDataList st)))
    as Hinj1.
  { intros j j' r E1%setLength_lookup_Some E2%setLength_lookup_Some.
    eauto. }
  destruct (prep_spec (cellCount g) _ (heap st) h1 rs Hok Hval1 Hinj1 Hprep)
    as (Hok1 & Hlen1 & Hnd & Hrs & _).
  intros j r Hj0.
  assert ((Some <$> rs) !! j = Some (Some r)) as Hj
    by (revert Hj0; by destruct (negb _)).
  clear Hj0. split.
  - intros Hne lv Hlv.
    rewrite (proj2 (Z.eqb_neq _ _) Hne). simpl in *.
    destruct (cellLoopLod_shape cameraPlane frustum g u (lod_value ll)
      (Some <$> rs) (rebuildUniforms (lod_value ll) 0 (Some <$> rs) h1)
      (seq 0 (cellCount g)) r) as [-> _].
    rewrite (rebuildUniforms_at _ 0 (Some <$> rs) h1 j r lv).
    + apply rebuildUniform_uniforms, Hsh1.
    + by apply slots_inj_fmap_Some.
    + done.
    + apply Hrs. rewrite list_lookup_fmap in Hj.
      destruct (rs !! j) as [r1|] eqn:E; [|done].
      injection Hj as <-. by eapply list_elem_of_lookup_2.
    + lia.
    + by rewrite Nat.sub_0_r.
  - intros He Hsm.
    rewrite (proj2 (Z.eqb_eq _ _) He). simpl in *.
    destruct (cellLoopLod_shape cameraPlane frustum g u (lod_value ll)
      (Some <$> rs) h1 (seq 0 (cellCount g)) r) as [-> _].
    rewrite list_lookup_fmap in Hj.
    destruct (rs !! j) as [r1|] eqn:E; [|done]. injection Hj as <-.
    apply (prep_fresh (cellCount g) _ (heap st) h1 rs j r1 Hok Hval1 Hinj1
             Hprep E).
    intros r0 E0%setLength_lookup_Some. by apply Hsm.
Qed.


Lemma batches_lookup st j m :
  wf st →
  batches st !! j = Some m
  ↔ ∃ r, mdbDataList st !! j = Some (Some r) ∧ m = deref (heap st) r.
Proof.
  intros Hwf. destruct (wf_list st Hwf) as (rs & Hrs & _).
  rewrite (batches_eq st rs Hrs), Hrs, !list_lookup_fmap.
  destruct (rs !! j) as [r|]; simpl; split.
  - intros [= <-]. by exists r.
  - by intros (r' & [= <-] & ->).
  - done.
  - by intros (? & ? & _).
Qed.

(** X10. A pass with a LOD table whose version differs from the recorded
    one records the version and leaves the batch of every band with the
    single uniform ['uLod'], updated to
    [(lodLevels[j][0], lodLevels[j][1], lodLevels[j][2], lodLevels[j][4])];
    the draw count [lodLevels[j][3]] is not part of it. *)
Theorem cull_lod_uniforms_rebuilt
    cameraPlane frustum values g ll st j m lv :
  reachable st →
  drawCount values ≠ 0 → instanceCount values ≠ 0 →
  instanceGrid values = Some g →
  lodLevels values = Some ll →
  lod_version ll ≠ lodLevelsVersion st →
  batches (cull cameraPlane frustum values st) !! j = Some m →
  lod_value ll !! j = Some lv →
  (∃ cell, uniforms m = [("uLod"%string, vc_update cell (lodVec lv))])
  ∧ lodLevelsVersion (cull cameraPlane frustum values st) = lod_version ll.
Proof.
  intros Hr Hd Hi Hg Hll Hver Hm Hlv.
  pose proof (reachable_wf st Hr) as Hwf.
  pose proof (wf_cull cameraPlane frustum values st Hwf) as Hwf'.
  apply (batches_lookup _ _ _ Hwf') in Hm as (r & Hj & ->).
  assert (lod_value ll ≠ []) as Hne by (by intros E; rewrite E in Hlv).
  rewrite (cull_lod _ _ _ g ll) in Hj |- * by done.
  apply (wf_set_cullEnabled false) in Hwf.
  split.
  - apply (cullLod_uniforms cameraPlane frustum g (uLod values) ll
             (set_cullEnabled false st) Hwf (uniformsShape_all st Hr) j r);
      done.
  - destruct (cullLod_spec cameraPlane frustum g (uLod values) ll _ Hwf)
      as (rs & _ & _ & _ & _ & _ & _ & _ & Hv & _). done.
Qed.

(** X11. A pass with a LOD table of the recorded version does not rebuild
    the uniforms: a band whose slot of the list held no batch, or a batch
    too small for the grid, gets a new batch without any uniform. *)
Theorem cull_lod_same_version_new_batch_without_uniforms
    cameraPlane frustum values g ll st j m :
  reachable st →
  drawCount values ≠ 0 → instanceCount values ≠ 0 →
  instanceGrid values = Some g →
  lodLevels values = Some ll → lod_value ll ≠ [] →
  lod_version ll = lodLevelsVersion st →
  batches (cull cameraPlane frustum values st) !! j = Some m →
  (∀ m0, batches st !! j = Some m0 → (capacity m0 < cellCount g)%nat) →
  uniforms m = [].
Proof.
  intros Hr Hd Hi Hg Hll Hne Hver Hm Hsmall.
  pose proof (reachable_wf st Hr) as Hwf.
  pose proof (wf_cull cameraPlane frustum values st Hwf) as Hwf'.
  apply (batches_lookup _ _ _ Hwf') in Hm as (r & Hj & ->).
  rewrite (cull_lod _ _ _ g ll) in Hj |- * by done.
  apply (cullLod_uniforms cameraPlane frustum g (uLod values) ll
           (set_cullEnabled false st) (wf_set_cullEnabled false st Hwf)
           (uniformsShape_all st Hr) j r); [done..|].
  intros r0 E. apply Hsmall, (batches_lookup _ _ _ Hwf). by exists r0.
Qed.

(** X12. A pass with a LOD table of the recorded version keeps, for a band
    whose slot of the list holds a batch large enough for the grid, the
    uniforms of that batch as they are. *)
Theorem cull_lod_same_version_keeps_uniforms
    cameraPlane frustum values g ll st j m m0 :
  reachable st →
  drawCount values ≠ 0 → instanceCount values ≠ 0 →
  instanceGrid values = Some g →
  lodLevels values = Some ll → lod_value ll ≠ [] →
  lod_version ll = lodLevelsVersion st →
  batches (cull cameraPlane frustum values st) !! j = Some m →
  batches st !! j = Some m0 → (cellCount g ≤ capacity m0)%nat →
  uniforms m = uniforms m0.
Proof.
  intros Hr Hd Hi Hg Hll Hne Hver Hm Hm0 Hcap.
  pose proof (reachable_wf st Hr) as Hwf.
  pose proof (wf_cull cameraPlane frustum values st Hwf) as Hwf'.
  apply (batches_lookup _ _ _ Hwf') in Hm as (r & Hj & ->).
  apply (batches_lookup _ _ _ Hwf) in Hm0 as (r0 & Hj0 & ->).
  rewrite (cull_lod _ _ _ g ll) in Hj |- * by done.
  destruct Hwf as (Hok & Hmd & Hinj & Hval).
  destruct (Hval j _ Hj0) as (r0' & [= <-] & Hlt).
  destruct (cullLod_spec cameraPlane frustum g (uLod values) ll
              (set_cullEnabled false st))
    as (rs & Hlist & _ & _ & _ & _ & _ & _ & _ & _ & _ & _ & Hslot & Hu);
    [by split_and!|].
  simpl in Hj. rewrite Hlist, list_lookup_fmap in Hj.
  destruct (rs !! j) as [r1|] eqn:E; [|done]. injection Hj as <-.
  destruct (Hslot j r0 r1 Hj0 E) as [_ Hsame].
  rewrite (Hsame Hcap). by apply Hu.
Qed.


(** ** Passes that create no batch object *)

Lemma prep_no_alloc cc olds h h' rs :
  heap_ok h →
  (∀ k r, olds !! k = Some (Some r) → (r < length h)%nat) →
  prep cc olds h = (h', rs) →
  (∀ k o, olds !! k = Some o →
     ∃ r, o = Some r ∧ (cc ≤ capacity (deref h r))%nat) →
  length h' = length h.
Proof.
  revert h h' rs.
  induction olds as [|o os IH]; intros h h' rs Hok Hval Hprep Hbig;
    simpl in Hprep.
  - by injection Hprep as <- <-.
  - destruct (getMdbData cc o h) as [h1 r] eqn:Hget.
    destruct (prep cc os _) as [h2 rs'] eqn:Hrec.
    injection Hprep as <- <-.
    destruct (prepare_slot cc o h h1 r Hok) as
      (Hok2 & Hlen2 & Hr2 & Hc2 & Hcap2 & Hsh2 & Hfr2 & Hcase);
      [intros r0 ->; by apply (Hval 0%nat)|done|].
    destruct Hcase as [(_ & _ & Hl)|(_ & _ & Hsm)].
    + rewrite <- Hl. apply (IH _ h2 rs' Hok2); [|done|].
      * intros k r0 E. specialize (Hval (S k) r0 E). lia.
      * intros k o' E. destruct (Hbig (S k) o' E) as (r0 & -> & Hc).
        exists r0. split; [done|].
        pose proof (Hval (S k) r0 E) as Hlt.
        by destruct (Hsh2 r0 Hlt) as (_ & -> & _).
    + destruct (Hbig 0%nat o eq_refl) as (r0 & -> & Hc).
      specialize (Hsm r0 eq_refl). lia.
Qed.

Lemma cullLod_no_alloc cameraPlane frustum g u ll st :
  wf st →
  (∀ k, (k < length (lod_value ll))%nat →
     ∃ r, mdbDataList st !! k = Some (Some r)
          ∧ (cellCount g ≤ capacity (deref (heap st) r))%nat) →
  length (heap (cullLod cameraPlane frustum g u ll st)) = length (heap st).
Proof.
  intros (Hok & Hmd & Hinj & Hval) Hbig. unfold cullLod.
  rewrite prepareBatches_prep.
  destruct (prep _ _ _) as [h1 rs] eqn:Hprep.
  assert (length h1 = length (heap st)) as <-.
  { apply (prep_no_alloc _ _ _ _ _ Hok) in Hprep; [done| |].
    - intros k r E%setLength_lookup_Some.
      destruct (Hval _ _ E) as (r' & [= <-] & ?). done.
    - intros k o E. pose proof (lookup_lt_Some _ _ _ E) as Hk.
      unfold setLength in *. rewrite length_resize in Hk.
      destruct (Hbig k Hk) as (r & Er & Hc).
      rewrite lookup_resize in E by (done || by eapply lookup_lt_Some).
      rewrite Er in E. injection E as <-. by exists r. }
  destruct (negb _); simpl;
    by rewrite cellLoopLod_length, ?rebuildUniforms_length.
Qed.

Lemma cullPlain_no_alloc cameraPlane frustum g u dc st :
  (cellCount g ≤ capacity (deref (heap st) (mdbData st)))%nat →
  length (heap (cullPlain cameraPlane frustum g u dc st)) = length (heap st).
Proof.
  intros Hcap. unfold cullPlain.
  destruct (getMdbData_cases (cellCount g) (Some (mdbData st)) (heap st))
    as [(r0 & _ & _ & ->)|[Hsm _]].
  - simpl. by rewrite !length_modify.
  - specialize (Hsm _ eq_refl). lia.
Qed.

(** X13. A pass that follows a pass with the same values, whatever the
    camera plane and the frustum of either, creates no batch object: it
    works on the batch objects of the first pass, all of them reused. *)
Theorem cull_next_pass_reuses_batches
    cameraPlane frustum cameraPlane' frustum' values st :
  reachable st →
  let st1 := cull cameraPlane frustum values st in
  let st2 := cull cameraPlane' frustum' values st1 in
  length (heap st2) = length (heap st1)
  ∧ mdbDataList st2 = mdbDataList st1
  ∧ mdbData st2 = mdbData st1.
Proof.
  intros Hr st1 st2.
  pose proof (reachable_wf st Hr) as Hwf.
  destruct (cull_runs_or_not values) as [Hearly|(g & Hd & Hi & Hg)].
  { subst st2 st1. by rewrite !(cull_early _ _ _ _ Hearly). }
  pose proof (wf_cull cameraPlane frustum values st Hwf) as Hwf1.
  fold st1 in Hwf1.
  apply (wf_set_cullEnabled false) in Hwf.
  pose proof (wf_set_cullEnabled false st1 Hwf1) as Hwf1'.
  destruct (activeLevels_cases values) as [Hl|(ll & Hll & Hne & Hl)].
  - subst st2. rewrite (cull_plain _ _ _ g _ Hd Hi Hg Hl).
    assert (st1 = set_cullEnabled true
              (cullPlain cameraPlane frustum g (uLod values)
                 (drawCount values) (set_cullEnabled false st))) as Est1
      by (subst st1; by apply cull_plain).
    destruct (cullPlain_spec cameraPlane frustum g (uLod values)
                (drawCount values) _ Hwf)
      as (r1 & Hmd1 & Hlist1 & _ & _ & _ & _ & _ & _ & _ & Hcap1 & _).
    destruct (cullPlain_spec cameraPlane' frustum' g (uLod values)
                (drawCount values) _ Hwf1')
      as (r2 & Hmd2 & Hlist2 & _ & _ & _ & _ & _ & _ & _ & _
          & _ & _ & Hreuse & _).
    assert (mdbData st1 = r1 ∧ mdbDataList st1 = [Some r1]
            ∧ heap st1 = heap (cullPlain cameraPlane frustum g (uLod values)
                 (drawCount values) (set_cullEnabled false st))) as
      (Emd & Elist & Eheap) by (by rewrite Est1).
    simpl in Hreuse. rewrite Emd, Eheap in Hreuse.
    specialize (Hreuse Hcap1). simpl.
    split.
    { rewrite cullPlain_no_alloc; [done|].
      change (cellCount g ≤ capacity (deref (heap st1) (mdbData st1)))%nat.
      by rewrite Emd, Eheap. }
    split; [by rewrite Hlist2, Elist, Hreuse|].
    by rewrite Hmd2, Emd.
  - subst st2. rewrite (cull_lod _ _ _ g ll _ Hd Hi Hg Hll Hne).
    assert (st1 = set_cullEnabled true
              (cullLod cameraPlane frustum g (uLod values) ll
                 (set_cullEnabled false st))) as Est1
      by (subst st1; by apply cull_lod).
    destruct (cullLod_spec cameraPlane frustum g (uLod values) ll _ Hwf)
      as (rs1 & Hlist1 & Hlen1 & _ & _ & _ & Hmd1 & _ & _ & _ & Hent1 & _).
    destruct (cullLod_spec cameraPlane' frustum' g (uLod values) ll _ Hwf1')
      as (rs2 & Hlist2 & Hlen2 & _ & _ & _ & Hmd2 & _ & _ & _ & _ & _
          & Hslot & _).
    assert (mdbDataList st1 = Some <$> rs1
            ∧ heap st1 = heap (cullLod cameraPlane frustum g (uLod values)
                 ll (set_cullEnabled false st))) as
      (Elist & Eheap) by (by rewrite Est1).
    simpl in Hslot. rewrite Elist, Eheap in Hslot.
    assert (∀ k, (k < length (lod_value ll))%nat →
              ∃ r, rs1 !! k = Some r
                   ∧ (cellCount g ≤ capacity (deref (heap st1) r))%nat)
      as Hbig.
    { intros k Hk.
      destruct (lookup_lt_is_Some_2 rs1 k) as [r E1]; [lia|].
      destruct (lookup_lt_is_Some_2 (lod_value ll) k) as [lv Elv]; [done|].
      destruct (Hent1 k r lv E1 Elv) as (_ & _ & Hcap).
      exists r. by rewrite Eheap. }
    simpl. split.
    { rewrite cullLod_no_alloc; [done..|]. intros k Hk.
      change (∃ r, mdbDataList st1 !! k = Some (Some r)
                ∧ (cellCount g ≤ capacity (deref (heap st1) r))%nat).
      destruct (Hbig k Hk) as (r & E & Hc). exists r.
      by rewrite Elist, list_lookup_fmap, E. }
    split; [|done].
    rewrite Hlist2, Elist. f_equal.
    apply list_eq. intros k.
    destruct (rs1 !! k) as [r|] eqn:E1.
    + destruct (lookup_lt_is_Some_2 rs2 k) as [r' E2].
      { apply lookup_lt_Some in E1. lia. }
      destruct (Hbig k) as (r0 & E0 & Hc).
      { apply lookup_lt_Some in E1. lia. }
      rewrite E1 in E0. injection E0 as <-.
      destruct (Hslot k r r') as [_ Hsame]; [|done|].
      { by rewrite list_lookup_fmap, E1. }
      rewrite Eheap in Hc. by rewrite E2, (Hsame Hc).
    + apply lookup_ge_None. apply lookup_ge_None in E1. lia.
Qed.


(** ** What a pass keeps of the past *)

(** X14. A completed pass starts every batch anew: the [count] and the
    entries of its batches are determined by the camera plane, the frustum
    and the values alone, whatever the earlier passes left in the batch
    objects. *)
Theorem cull_contents_independent_of_history
    cameraPlane frustum values g st st0 :
  reachable st → reachable st0 →
  drawCount values ≠ 0 → instanceCount values ≠ 0 →
  instanceGrid values = Some g →
  batchContents <$> batches (cull cameraPlane frustum values st)
  = batchContents <$> batches (cull cameraPlane frustum values st0).
Proof.
  intros Hr Hr0 Hd Hi Hg.
  destruct (cull_batches cameraPlane frustum values g st) as [Hlen Hb];
    try done; [by apply reachable_wf|].
  destruct (cull_batches cameraPlane frustum values g st0) as [Hlen0 Hb0];
    try done; [by apply reachable_wf|].
  apply list_eq. intros j. rewrite !list_lookup_fmap.
  destruct (batches (cull cameraPlane frustum values st) !! j)
    as [m|] eqn:E;
    destruct (batches (cull cameraPlane frustum values st0) !! j)
      as [m0|] eqn:E0; simpl.
  - destruct (Hb j m E) as (He & Hc & Hcap & Hu).
    destruct (Hb0 j m0 E0) as (He0 & Hc0 & Hcap0 & Hu0).
    unfold batchContents.
    rewrite <- (count_entries m), <- (count_entries m0) by (done || lia).
    by rewrite He, He0.
  - apply lookup_lt_Some in E. apply lookup_ge_None in E0. lia.
  - apply lookup_lt_Some in E0. apply lookup_ge_None in E. lia.
  - done.
Qed.

End Renderable.

Arguments mkMdb {ValueCell}.
Arguments firsts {ValueCell}.
Arguments counts {ValueCell}.
Arguments offsets {ValueCell}.
Arguments instanceCounts {ValueCell}.
Arguments baseVertices {ValueCell}.
Arguments baseInstances {ValueCell}.
Arguments count {ValueCell}.
Arguments uniforms {ValueCell}.
Arguments mkRenderable {ValueCell}.
Arguments heap {ValueCell}.
Arguments mdbData {ValueCell}.
Arguments mdbDataList {ValueCell}.
Arguments cullEnabled {ValueCell}.
Arguments lodLevelsVersion {ValueCell}.
Arguments deref {ValueCell}.
Arguments renderBatches {ValueCell}.
Arguments uncull {ValueCell}.
Arguments createRenderable {ValueCell}.
Arguments getMdbData {ValueCell}.
Arguments newMdbData {ValueCell}.
Arguments cull {Plane3D Frustum3D} _ _ {ValueCell}.
Arguments batches {ValueCell}.
Arguments entries {ValueCell}.
Arguments capacity {ValueCell}.
Arguments reachable {Plane3D Frustum3D} _ _ {ValueCell}.
Arguments inFrustum {Frustum3D}.
Arguments survives {Plane3D Frustum3D}.
Arguments distanceCulled {Plane3D}.
Arguments cellDistance {Plane3D}.
Arguments inBand {Plane3D}.
Arguments bandKeep {Plane3D Frustum3D}.
Arguments batchKeep {Plane3D Frustum3D}.
Arguments coveredIn {ValueCell}.
Arguments coveredOnceIn {ValueCell}.
Arguments batchContents {ValueCell}.
Arguments uniform_cap {ValueCell}.
Arguments unusedArraysZero {ValueCell}.
Arguments uniformsShape {ValueCell}.

(** ** The pass on the sample inputs *)

#[local] Abbreviation rcull :=
  (cull Ref.distanceToPoint Ref.intersectsSphere3D Ref.create Ref.update).
#[local] Abbreviation rreachable :=
  (reachable Ref.distanceToPoint Ref.intersectsSphere3D
             Ref.create Ref.update).
#[local] Abbreviation rinFrustum := (inFrustum Ref.intersectsSphere3D).
#[local] Abbreviation rstart := (@createRenderable Ref.ValueCell).

(** The partition invariant of a concrete grid, cell by cell. *)
#[local] Ltac partition_inv_tac :=
  unfold partition_inv; simpl; split_and!;
  [reflexivity | reflexivity
  | intros i Hi; repeat (destruct i as [|i]; [vm_compute; congruence|]);
    exfalso; lia
  | reflexivity].

(** Side conditions on concrete inputs. *)
#[local] Ltac concrete :=
  first [ reflexivity | apply reachable_create | assumption
        | simpl; lia | vm_compute; intros; congruence ].

Lemma cull_noop_on_degenerate_input_witness :
  (drawCount (mkValues 0 40 (Some Demo.grid4) Demo.noLod None) = 0
   ∨ instanceCount (mkValues 0 40 (Some Demo.grid4) Demo.noLod None) = 0
   ∨ instanceGrid (mkValues 0 40 (Some Demo.grid4) Demo.noLod None) = None)
  ∧ let st := rcull Demo.plane Demo.frustum
                (Demo.plainValues Demo.grid4 40 Demo.noLod) rstart in
    let st' := rcull Demo.plane Demo.frustum
                 (mkValues 0 40 (Some Demo.grid4) Demo.noLod None) st in
    heap st' = heap st ∧ mdbData st' = mdbData st
    ∧ mdbDataList st' = mdbDataList st
    ∧ lodLevelsVersion st' = lodLevelsVersion st
    ∧ cullEnabled st' = false
    ∧ renderBatches st' = None.
Proof.
  split; [left; reflexivity|].
  apply (cull_noop_on_degenerate_input _ _ Ref.distanceToPoint
           Ref.intersectsSphere3D _ Ref.create Ref.update).
  left; reflexivity.
Defined.

Lemma cull_plain_single_batch_no_uniforms_witness :
  let values := Demo.plainValues Demo.grid2 20 Demo.noLod in
  let st := rcull Demo.plane Demo.frustum
              (Demo.lodValues Demo.grid2 20 Demo.noLod)
              (rcull Demo.plane Demo.frustum values rstart) in
  let st' := rcull Demo.plane Demo.frustum values st in
  (rreachable st ∧ drawCount values ≠ 0 ∧ instanceCount values ≠ 0
   ∧ instanceGrid values = Some Demo.grid2 ∧ activeLevels values = [])
  ∧ uniforms (deref (heap st) (mdbData st')) ≠ []
  ∧ mdbDataList st' = [Some (mdbData st')]
  ∧ batches st' = [deref (heap st') (mdbData st')]
  ∧ uniforms (deref (heap st') (mdbData st')) = []
  ∧ renderBatches st' = Some [Some (deref (heap st') (mdbData st'))].
Proof.
  cbv zeta.
  assert (rreachable (rcull Demo.plane Demo.frustum
            (Demo.lodValues Demo.grid2 20 Demo.noLod)
            (rcull Demo.plane Demo.frustum
               (Demo.plainValues Demo.grid2 20 Demo.noLod) rstart))) as Hr
    by (apply reachable_cull, reachable_cull, reachable_create).
  split; [split_and!; concrete|].
  split; [concrete|].
  apply (cull_plain_single_batch_no_uniforms _ _ Ref.distanceToPoint
           Ref.intersectsSphere3D _ Ref.create Ref.update
           Demo.plane Demo.frustum _ Demo.grid2); concrete.
Defined.


(** C4, as stated, fails on a grid that satisfies the partition
    invariant with 2^31 instances: the instance count of its single
    visible cell is stored in an [Int32Array] and reads -2^31. *)
Lemma cull_batch_entries_disjoint_increasing_counterexample :
  let values := Demo.plainValues Demo.gridBig 2147483648 Demo.noLod in
  let st' := rcull Demo.plane Demo.frustum values rstart in
  rreachable rstart ∧ drawCount values ≠ 0 ∧ instanceCount values ≠ 0
  ∧ instanceGrid values = Some Demo.gridBig
  ∧ partition_inv Demo.gridBig 2147483648
  ∧ (batchContents <$> batches st')
    = [(1%nat, [mkEntry 0 (-2147483648) 6])]
  ∧ ¬ (∀ m, m ∈ batches st' →
         ∀ k e, entries m !! k = Some e → 0 < e_instanceCount e).
Proof.
  cbv zeta. split_and!; try concrete; try partition_inv_tac.
  intros H.
  assert (deref (heap (rcull Demo.plane Demo.frustum
            (Demo.plainValues Demo.gridBig 2147483648 Demo.noLod)
            rstart)) 1
          ∈ batches (rcull Demo.plane Demo.frustum
            (Demo.plainValues Demo.gridBig 2147483648 Demo.noLod)
            rstart)) as Hm
    by (vm_compute; apply list_elem_of_here).
  specialize (H _ Hm 0%nat (mkEntry 0 (-2147483648) 6) eq_refl).
  simpl in H. lia.
Qed.

Lemma cull_batch_entries_disjoint_increasing_witness :
  let values := Demo.plainValues Demo.grid3 30 Demo.noLod in
  let st' := rcull Demo.plane Demo.frustum values rstart in
  let m := deref (heap st') 1 in
  (rreachable rstart ∧ drawCount values ≠ 0 ∧ instanceCount values ≠ 0
   ∧ instanceGrid values = Some Demo.grid3
   ∧ partition_inv Demo.grid3 30 ∧ 30 < 2 ^ 31
   ∧ m ∈ batches st')
  ∧ entries m = [mkEntry 0 10 6; mkEntry 20 10 6]
  ∧ length (entries m) = count m
  ∧ (∀ k e, entries m !! k = Some e → 0 < e_instanceCount e)
  ∧ (∀ k k' e e', (k < k')%nat →
       entries m !! k = Some e → entries m !! k' = Some e' →
       e_baseInstance e < e_baseInstance e'
       ∧ ∀ x, ¬ (covers e x ∧ covers e' x)).
Proof.
  cbv zeta.
  assert (partition_inv Demo.grid3 30) as Hp by partition_inv_tac.
  assert (deref (heap (rcull Demo.plane Demo.frustum
            (Demo.plainValues Demo.grid3 30 Demo.noLod) rstart)) 1
          ∈ batches (rcull Demo.plane Demo.frustum
            (Demo.plainValues Demo.grid3 30 Demo.noLod) rstart)) as Hm
    by (vm_compute; apply list_elem_of_here).
  split; [split_and!; concrete|].
  split; [reflexivity|].
  apply (cull_batch_entries_disjoint_increasing _ _ Ref.distanceToPoint
           Ref.intersectsSphere3D _ Ref.create Ref.update
           Demo.plane Demo.frustum
           (Demo.plainValues Demo.grid3 30 Demo.noLod) Demo.grid3 30 rstart);
    concrete.
Defined.

#[local] Abbreviation rbatchKeep :=
  (batchKeep Ref.distanceToPoint Ref.intersectsSphere3D).
#[local] Abbreviation rcellDistance := (cellDistance Ref.distanceToPoint).
#[local] Abbreviation rdistanceCulled :=
  (distanceCulled Ref.distanceToPoint).
#[local] Abbreviation rinBand := (inBand Ref.distanceToPoint).

(** A batch has no entry with the given start and instance count. *)
#[local] Ltac no_such_entry :=
  let m := fresh "m" in let k := fresh "k" in let e := fresh "e" in
  let Hm := fresh "Hm" in let He := fresh "He" in
  let Hb := fresh "Hb" in let Hc := fresh "Hc" in
  intros (m & k & e & Hm & He & Hb & Hc);
  vm_compute in Hm; injection Hm as <-;
  repeat (destruct k as [|k];
          [vm_compute in He; injection He as <-; vm_compute in Hb, Hc;
           first [discriminate Hb | discriminate Hc]|]);
  vm_compute in He; discriminate He.

(** C1, as stated, fails in four ways.
    - On the grid with offsets [0, 10, 10, 25, 40] whose second cell is
      empty and out of the frustum: the cells 2 and 3 form a maximal run
      of visible cells, but they are merged into the entry of cell 0, so
      that no entry starts at the range of cell 2.
    - For a maximal run without instances, which leaves no entry at all.
    - In a band whose draw count is 2^31: the [Int32Array] holds -2^31,
      the comparison [l.counts[o - 1] === lodLevels[j][3]] fails, and two
      adjoining visible cells leave two entries.
    - On a grid of 2^31 instances: the [Int32Array] holds the instance
      count -2^31 for the single visible cell. *)
Lemma cull_merges_maximal_run_counterexample :
  let values := Demo.plainValues Demo.grid4 40 Demo.noLod in
  let st' := rcull Demo.plane Demo.frustum values rstart in
  let values_e := Demo.plainValues Demo.grid3e 20 Demo.noLod in
  let st_e := rcull Demo.plane Demo.frustum values_e rstart in
  let values_c :=
    mkValues 6 20 (Some Demo.grid2) Demo.noLod (Some Demo.bigCount) in
  let st_c := rcull Demo.plane Demo.frustum values_c rstart in
  let values_b := Demo.plainValues Demo.gridBig 2147483648 Demo.noLod in
  let st_b := rcull Demo.plane Demo.frustum values_b rstart in
  (partition_inv Demo.grid4 40
   ∧ (∀ i, (2 ≤ i < 4)%nat →
        rbatchKeep Demo.plane Demo.frustum values Demo.grid4 0 i = true)
   ∧ rbatchKeep Demo.plane Demo.frustum values Demo.grid4 0 1 = false
   ∧ cellCount Demo.grid4 = 4%nat
   ∧ offset Demo.grid4 2 = 10 ∧ runSize Demo.grid4 2 4 = 30
   ∧ (entries <$> batches st') = [[mkEntry 0 40 6]]
   ∧ ¬ ∃ m k e, batches st' !! 0%nat = Some m ∧ entries m !! k = Some e
                ∧ e_baseInstance e = offset Demo.grid4 2
                ∧ e_instanceCount e = runSize Demo.grid4 2 4)
  ∧ (partition_inv Demo.grid3e 20
     ∧ rbatchKeep Demo.plane Demo.frustum values_e Demo.grid3e 0 0 = false
     ∧ rbatchKeep Demo.plane Demo.frustum values_e Demo.grid3e 0 1 = true
     ∧ rbatchKeep Demo.plane Demo.frustum values_e Demo.grid3e 0 2 = false
     ∧ (entries <$> batches st_e) = [[]]
     ∧ ¬ ∃ m k e, batches st_e !! 0%nat = Some m ∧ entries m !! k = Some e
                  ∧ e_baseInstance e = offset Demo.grid3e 1
                  ∧ e_instanceCount e = runSize Demo.grid3e 1 2)
  ∧ (partition_inv Demo.grid2 20
     ∧ rbatchKeep Demo.plane Demo.frustum values_c Demo.grid2 0 0 = true
     ∧ rbatchKeep Demo.plane Demo.frustum values_c Demo.grid2 0 1 = true
     ∧ cellCount Demo.grid2 = 2%nat
     ∧ offset Demo.grid2 0 = 0 ∧ runSize Demo.grid2 0 2 = 20
     ∧ (entries <$> batches st_c)
       = [[mkEntry 0 10 (-2147483648); mkEntry 10 10 (-2147483648)]]
     ∧ ¬ ∃ m k e, batches st_c !! 0%nat = Some m ∧ entries m !! k = Some e
                  ∧ e_baseInstance e = offset Demo.grid2 0
                  ∧ e_instanceCount e = runSize Demo.grid2 0 2)
  ∧ (partition_inv Demo.gridBig 2147483648
     ∧ rbatchKeep Demo.plane Demo.frustum values_b Demo.gridBig 0 0 = true
     ∧ cellCount Demo.gridBig = 1%nat
     ∧ offset Demo.gridBig 0 = 0 ∧ runSize Demo.gridBig 0 1 = 2147483648
     ∧ (entries <$> batches st_b) = [[mkEntry 0 (-2147483648) 6]]
     ∧ ¬ ∃ m k e, batches st_b !! 0%nat = Some m ∧ entries m !! k = Some e
                  ∧ e_baseInstance e = offset Demo.gridBig 0
                  ∧ e_instanceCount e = runSize Demo.gridBig 0 1).
Proof.
  cbv zeta. split_and!; try reflexivity; try partition_inv_tac;
    try no_such_entry.
  intros i [H1 H2].
  do 2 (destruct i as [|i]; [lia|]).
  do 2 (destruct i as [|i]; [reflexivity|]). lia.
Qed.

(** The run of the cells 2 and 3 of a six-cell grid, in the batch of the
    first band: the cells 1 and 4 next to it are out of the frustum, the
    cells 0 and 5 beyond them are visible and hold instances. And the run
    of the single visible cell 1 of the grid with offsets [0, 0, 10],
    whose neighbour, cell 0, is empty and out of the frustum. *)
Lemma cull_merges_maximal_run_witness :
  let values := Demo.lodValues Demo.grid6 60 Demo.noLod in
  let st' := rcull Demo.plane Demo.frustum values rstart in
  let values_e := Demo.plainValues Demo.grid2e 10 Demo.noLod in
  let st_e := rcull Demo.plane Demo.frustum values_e rstart in
  (rreachable rstart ∧ drawCount values ≠ 0 ∧ instanceCount values ≠ 0
   ∧ instanceGrid values = Some Demo.grid6
   ∧ partition_inv Demo.grid6 60 ∧ 60 < 2 ^ 31
   ∧ (∀ lv, activeLevels values !! 0%nat = Some lv → isInt32 (lod_count lv))
   ∧ (2 < 4)%nat ∧ (4 ≤ cellCount Demo.grid6)%nat
   ∧ (∀ i, (2 ≤ i < 4)%nat →
        rbatchKeep Demo.plane Demo.frustum values Demo.grid6 0 i = true)
   ∧ 0 < runSize Demo.grid6 2 4
   ∧ (∀ i, (i < 2)%nat →
        rbatchKeep Demo.plane Demo.frustum values Demo.grid6 0 i = true →
        0 < rangeSize Demo.grid6 i →
        offset Demo.grid6 (S i) < offset Demo.grid6 2)
   ∧ (∀ i, (4 ≤ i < cellCount Demo.grid6)%nat →
        rbatchKeep Demo.plane Demo.frustum values Demo.grid6 0 i = true →
        0 < rangeSize Demo.grid6 i →
        offset Demo.grid6 4 < offset Demo.grid6 i))
  ∧ ((entries <$> batches st')
     = [[mkEntry 0 10 3; mkEntry 20 20 3; mkEntry 50 10 3]; []]
     ∧ ∃ m k e,
         batches st' !! 0%nat = Some m
         ∧ entries m !! k = Some e
         ∧ e_baseInstance e = offset Demo.grid6 2
         ∧ e_instanceCount e = runSize Demo.grid6 2 4
         ∧ ∀ k' e' x, entries m !! k' = Some e' →
             offset Demo.grid6 2 ≤ x < offset Demo.grid6 4 →
             covers e' x → k' = k)
  ∧ (drawCount values_e ≠ 0 ∧ instanceCount values_e ≠ 0
     ∧ instanceGrid values_e = Some Demo.grid2e
     ∧ partition_inv Demo.grid2e 10 ∧ 10 < 2 ^ 31
     ∧ rbatchKeep Demo.plane Demo.frustum values_e Demo.grid2e 0 0 = false
     ∧ rangeSize Demo.grid2e 0 = 0
     ∧ rbatchKeep Demo.plane Demo.frustum values_e Demo.grid2e 0 1 = true
     ∧ 0 < runSize Demo.grid2e 1 2)
  ∧ ((entries <$> batches st_e) = [[mkEntry 0 10 6]]
     ∧ ∃ m k e,
         batches st_e !! 0%nat = Some m
         ∧ entries m !! k = Some e
         ∧ e_baseInstance e = offset Demo.grid2e 1
         ∧ e_instanceCount e = runSize Demo.grid2e 1 2
         ∧ ∀ k' e' x, entries m !! k' = Some e' →
             offset Demo.grid2e 1 ≤ x < offset Demo.grid2e 2 →
             covers e' x → k' = k).
Proof.
  cbv zeta.
  assert (partition_inv Demo.grid6 60) as Hp by partition_inv_tac.
  assert (∀ lv,
    activeLevels (Demo.lodValues Demo.grid6 60 Demo.noLod) !! 0%nat
    = Some lv → isInt32 (lod_count lv)) as Hint.
  { intros lv [= <-]. unfold isInt32. simpl. lia. }
  assert (∀ i, (2 ≤ i < 4)%nat →
    rbatchKeep Demo.plane Demo.frustum
      (Demo.lodValues Demo.grid6 60 Demo.noLod) Demo.grid6 0 i = true)
    as Hrun.
  { intros i [H1 H2]. do 2 (destruct i as [|i]; [lia|]).
    do 2 (destruct i as [|i]; [reflexivity|]). lia. }
  assert (∀ i, (i < 2)%nat →
    rbatchKeep Demo.plane Demo.frustum
      (Demo.lodValues Demo.grid6 60 Demo.noLod) Demo.grid6 0 i = true →
    0 < rangeSize Demo.grid6 i →
    offset Demo.grid6 (S i) < offset Demo.grid6 2) as Hleft.
  { intros i Hi Hk _. destruct i as [|i]; [reflexivity|].
    destruct i as [|i]; [vm_compute in Hk; discriminate Hk|lia]. }
  assert (∀ i, (4 ≤ i < cellCount Demo.grid6)%nat →
    rbatchKeep Demo.plane Demo.frustum
      (Demo.lodValues Demo.grid6 60 Demo.noLod) Demo.grid6 0 i = true →
    0 < rangeSize Demo.grid6 i →
    offset Demo.grid6 4 < offset Demo.grid6 i) as Hright.
  { intros i [H1 H2] Hk _. simpl in H2.
    do 4 (destruct i as [|i]; [lia|]).
    destruct i as [|i]; [vm_compute in Hk; discriminate Hk|].
    destruct i as [|i]; [reflexivity|lia]. }
  assert (partition_inv Demo.grid2e 10) as Hpe by partition_inv_tac.
  split; [split_and!; first [exact Hp | exact Hint | exact Hrun
                            | exact Hleft | exact Hright | concrete]|].
  split.
  { split; [reflexivity|].
    apply (cull_merges_maximal_run _ _ Ref.distanceToPoint
           Ref.intersectsSphere3D _ Ref.create Ref.update
             Demo.plane Demo.frustum
             (Demo.lodValues Demo.grid6 60 Demo.noLod) Demo.grid6 60 rstart
             0 2 4);
      first [exact Hp | exact Hint | exact Hrun | exact Hleft | exact Hright
            | by left | concrete]. }
  assert (∀ lv,
    activeLevels (Demo.plainValues Demo.grid2e 10 Demo.noLod) !! 0%nat
    = Some lv → isInt32 (lod_count lv)) as Hinte
    by (intros lv E; discriminate E).
  assert (∀ i, (1 ≤ i < 2)%nat →
    rbatchKeep Demo.plane Demo.frustum
      (Demo.plainValues Demo.grid2e 10 Demo.noLod) Demo.grid2e 0 i = true)
    as Hrune.
  { intros i [H1 H2]. destruct i as [|i]; [lia|].
    destruct i as [|i]; [reflexivity|lia]. }
  assert (∀ i, (i < 1)%nat →
    rbatchKeep Demo.plane Demo.frustum
      (Demo.plainValues Demo.grid2e 10 Demo.noLod) Demo.grid2e 0 i = true →
    0 < rangeSize Demo.grid2e i →
    offset Demo.grid2e (S i) < offset Demo.grid2e 1) as Hlefte.
  { intros i Hi Hk _. destruct i as [|i]; [|lia].
    vm_compute in Hk. discriminate Hk. }
  assert (∀ i, (2 ≤ i < cellCount Demo.grid2e)%nat →
    rbatchKeep Demo.plane Demo.frustum
      (Demo.plainValues Demo.grid2e 10 Demo.noLod) Demo.grid2e 0 i = true →
    0 < rangeSize Demo.grid2e i →
    offset Demo.grid2e 2 < offset Demo.grid2e i) as Hrighte.
  { intros i [H1 H2]. simpl in H2. lia. }
  split; [split_and!; first [exact Hpe | reflexivity | concrete]|].
  split; [reflexivity|].
  exact (cull_merges_maximal_run _ _ Ref.distanceToPoint
           Ref.intersectsSphere3D _ Ref.create Ref.update
           Demo.plane Demo.frustum
           (Demo.plainValues Demo.grid2e 10 Demo.noLod) Demo.grid2e 10 rstart
           0 1 2 ltac:(apply reachable_create) ltac:(concrete)
           ltac:(concrete)
           eq_refl Hpe ltac:(concrete) Hinte (or_introl eq_refl)
           ltac:(lia) ltac:(simpl; lia) Hrune ltac:(reflexivity)
           Hlefte Hrighte).
Defined.

(** C3, as stated, fails when the overall range [uLod] is set and the
    cell lies outside it: the cell at distance 45 meets both bands, passes
    the frustum test and has instances, but no batch receives an entry. *)
Lemma cull_complete_per_band_counterexample :
  let values := Demo.lodValues Demo.grid2 20 Demo.farLod in
  let st' := rcull Demo.plane Demo.frustum values rstart in
  let d := rcellDistance Demo.plane Demo.grid2 0 in
  let r := radius (cellSphere Demo.grid2 0) in
  partition_inv Demo.grid2 20
  ∧ activeLevels values = [mkLodLevel 0 50 0 3 1; mkLodLevel 40 100 0 2 1]
  ∧ rinFrustum Demo.frustum Demo.grid2 0 = true
  ∧ offset Demo.grid2 0 < offset Demo.grid2 1
  ∧ meetsRange d r 0 50 ∧ meetsRange d r 40 100
  ∧ (entries <$> batches st') = [[]; []]
  ∧ ¬ coveredIn st' 0 Demo.grid2 0.
Proof.
  cbv zeta. split; [partition_inv_tac|].
  split_and!; try reflexivity; try (split; reflexivity).
  intros (m & k & e & Hm & He & _).
  vm_compute in Hm. injection Hm as <-. by destruct k.
Qed.

Lemma cull_complete_per_band_witness :
  let values := Demo.lodValues Demo.grid2 20 Demo.noLod in
  let lv := mkLodLevel 40 100 0 2 1 in
  (rreachable rstart ∧ drawCount values ≠ 0 ∧ instanceCount values ≠ 0
   ∧ instanceGrid values = Some Demo.grid2
   ∧ partition_inv Demo.grid2 20 ∧ 20 < 2 ^ 31
   ∧ activeLevels values !! 1%nat = Some lv
   ∧ (0 < cellCount Demo.grid2)%nat
   ∧ offset Demo.grid2 0 < offset Demo.grid2 1
   ∧ rinFrustum Demo.frustum Demo.grid2 0 = true
   ∧ rdistanceCulled Demo.plane Demo.grid2 (uLod values) 0 = false
   ∧ meetsRange (rcellDistance Demo.plane Demo.grid2 0)
                (radius (cellSphere Demo.grid2 0))
                (lod_minDistance lv) (lod_maxDistance lv))
  ∧ coveredOnceIn (rcull Demo.plane Demo.frustum values rstart)
                  1 Demo.grid2 0.
Proof.
  cbv zeta.
  assert (partition_inv Demo.grid2 20) as Hp by partition_inv_tac.
  split; [split_and!; try concrete; split; reflexivity|].
  apply (cull_complete_per_band _ _ Ref.distanceToPoint
           Ref.intersectsSphere3D _ Ref.create Ref.update
           Demo.plane Demo.frustum
           (Demo.lodValues Demo.grid2 20 Demo.noLod) Demo.grid2 20 rstart
           1 (mkLodLevel 40 100 0 2 1) 0); try concrete.
  split; reflexivity.
Defined.

(** C6, as stated, fails when [uLod] is set without LOD table: the cell
    at distance 10 passes the frustum test and has instances, but the
    overall range 100..200 skips it. The amended reading fails without
    the bound on the number of instances: on a grid of 2^31 instances
    the single visible cell leaves the entry [{0, -2^31}], which covers
    none of its instances. *)
Lemma cull_plain_distance_test_counterexample :
  let values := Demo.plainValues Demo.grid1 10 Demo.farLod in
  let st' := rcull Demo.plane Demo.frustum values rstart in
  let values_b := Demo.plainValues Demo.gridBig 2147483648 Demo.noLod in
  let st_b := rcull Demo.plane Demo.frustum values_b rstart in
  (partition_inv Demo.grid1 10
   ∧ activeLevels values = []
   ∧ rinFrustum Demo.frustum Demo.grid1 0 = true
   ∧ offset Demo.grid1 0 < offset Demo.grid1 1
   ∧ (entries <$> batches st') = [[]]
   ∧ ¬ coveredIn st' 0 Demo.grid1 0
   ∧ (entries <$> batches
        (rcull Demo.plane Demo.frustum
           (Demo.plainValues Demo.grid1 10 Demo.noLod) rstart))
     = [[mkEntry 0 10 6]])
  ∧ (partition_inv Demo.gridBig 2147483648
     ∧ activeLevels values_b = []
     ∧ uLod values_b = (0%float, 0%float)
     ∧ rinFrustum Demo.frustum Demo.gridBig 0 = true
     ∧ offset Demo.gridBig 0 < offset Demo.gridBig 1
     ∧ (entries <$> batches st_b) = [[mkEntry 0 (-2147483648) 6]]
     ∧ ¬ coveredIn st_b 0 Demo.gridBig 0).
Proof.
  cbv zeta. split.
  - split; [partition_inv_tac|].
    split_and!; try reflexivity.
    intros (m & k & e & Hm & He & _).
    vm_compute in Hm. injection Hm as <-. by destruct k.
  - split; [partition_inv_tac|].
    split_and!; try reflexivity.
    intros (m & k & e & Hm & He & Hc).
    vm_compute in Hm. injection Hm as <-.
    destruct k as [|k]; [|by destruct k].
    vm_compute in He. injection He as <-.
    assert (inCell Demo.gridBig 0 0) as Hx
      by (unfold inCell, offset; simpl; lia).
    apply Hc in Hx. unfold covers in Hx. simpl in Hx. lia.
Qed.

(** Without LOD table on the one-cell grid, the cell at distance 10 with
    radius 1: with [uLod = [0, 0]] the frustum test alone decides, with
    [uLod = [0, 50]] the distance test applies and the cell passes it; in
    both cases the cell is included. *)
Lemma cull_plain_distance_test_only_by_uLod_witness :
  let values := Demo.plainValues Demo.grid1 10 Demo.noLod in
  let st' := rcull Demo.plane Demo.frustum values rstart in
  let values_n := Demo.plainValues Demo.grid1 10 Demo.nearLod in
  let st_n := rcull Demo.plane Demo.frustum values_n rstart in
  let d := rcellDistance Demo.plane Demo.grid1 0 in
  let r := radius (cellSphere Demo.grid1 0) in
  (rreachable rstart ∧ drawCount values ≠ 0 ∧ instanceCount values ≠ 0
   ∧ instanceGrid values = Some Demo.grid1
   ∧ partition_inv Demo.grid1 10 ∧ 10 < 2 ^ 31
   ∧ activeLevels values = []
   ∧ (0 < cellCount Demo.grid1)%nat
   ∧ offset Demo.grid1 0 < offset Demo.grid1 1)
  ∧ (PrimFloat.eqb (fst (uLod values)) 0 = true
     ∧ PrimFloat.eqb (snd (uLod values)) 0 = true
     ∧ rinFrustum Demo.frustum Demo.grid1 0 = true
     ∧ coveredIn st' 0 Demo.grid1 0)
  ∧ (drawCount values_n ≠ 0 ∧ instanceCount values_n ≠ 0
     ∧ instanceGrid values_n = Some Demo.grid1
     ∧ activeLevels values_n = []
     ∧ hasLodOf (uLod values_n) = true
     ∧ PrimFloat.ltb (d + r)%float (fst (uLod values_n)) = false
     ∧ PrimFloat.ltb (snd (uLod values_n)) (d - r)%float = false
     ∧ coveredIn st_n 0 Demo.grid1 0).
Proof.
  cbv zeta.
  assert (partition_inv Demo.grid1 10) as Hp by partition_inv_tac.
  split; [split_and!; concrete|]. split.
  - split_and!; try reflexivity.
    apply (cull_plain_distance_test_only_by_uLod _ _ Ref.distanceToPoint
           Ref.intersectsSphere3D _ Ref.create Ref.update
             Demo.plane Demo.frustum
             (Demo.plainValues Demo.grid1 10 Demo.noLod) Demo.grid1 10
             rstart 0); concrete.
  - split_and!; try concrete.
    apply (proj1 (proj2 (cull_plain_distance_test_only_by_uLod _ _ Ref.distanceToPoint
           Ref.intersectsSphere3D _ Ref.create Ref.update
             Demo.plane Demo.frustum
             (Demo.plainValues Demo.grid1 10 Demo.nearLod) Demo.grid1 10
             rstart 0 ltac:(concrete) ltac:(concrete) ltac:(concrete)
             ltac:(concrete) Hp ltac:(concrete) ltac:(concrete)
             ltac:(concrete) ltac:(concrete)))).
    split; [reflexivity|]. right. split; reflexivity.
Defined.

Lemma cull_twice_same_batches_witness :
  let values := Demo.lodValues Demo.grid2 20 Demo.noLod in
  let st1 := rcull Demo.plane Demo.frustum values rstart in
  let st2 := rcull Demo.plane Demo.frustum values st1 in
  rreachable rstart
  ∧ mdbDataList st2 = mdbDataList st1
  ∧ batchContents <$> batches st2 = batchContents <$> batches st1
  ∧ uniforms <$> batches st2 = uniforms <$> batches st1
  ∧ lodLevelsVersion st2 = lodLevelsVersion st1
  ∧ (∀ ll, drawCount values ≠ 0 → instanceCount values ≠ 0 →
       is_Some (instanceGrid values) →
       lodLevels values = Some ll → lod_value ll ≠ [] →
       (lod_version ll =? lodLevelsVersion st1) = true).
Proof.
  cbv zeta. split; [apply reachable_create|].
  apply (cull_twice_same_batches _ _ Ref.distanceToPoint
           Ref.intersectsSphere3D _ Ref.create Ref.update
           Demo.plane Demo.frustum
           (Demo.lodValues Demo.grid2 20 Demo.noLod) rstart).
  apply reachable_create.
Defined.

(** C8, as stated, fails when a pass without LOD table follows a pass
    with one on a larger grid: the list then holds the standalone buffer,
    smaller than the band batch that was at index 0. *)
Lemma cull_capacity_counterexample :
  let st := rcull Demo.plane Demo.frustum
              (Demo.lodValues Demo.grid2 20 Demo.noLod) rstart in
  let st' := rcull Demo.plane Demo.frustum
               (Demo.plainValues Demo.grid1 10 Demo.noLod) st in
  rreachable st'
  ∧ (capacity <$> batches st) = [2%nat; 2%nat]
  ∧ (capacity <$> batches st') = [1%nat]
  ∧ ∃ m m', batches st !! 0%nat = Some m ∧ batches st' !! 0%nat = Some m'
            ∧ (capacity m' < capacity m)%nat.
Proof.
  cbv zeta. split; [apply reachable_cull, reachable_cull, reachable_create|].
  split; [reflexivity|]. split; [reflexivity|].
  eexists _, _. split; [reflexivity|]. split; [reflexivity|].
  vm_compute. lia.
Qed.

Lemma cull_capacity_witness :
  let values := Demo.lodValues Demo.grid2 20 Demo.noLod in
  let st := rcull Demo.plane Demo.frustum
              (Demo.plainValues Demo.grid1 10 Demo.noLod) rstart in
  let st' := rcull Demo.plane Demo.frustum values st in
  rreachable st
  ∧ (capacity <$> batches st) = [1%nat]
  ∧ (capacity <$> batches st') = [2%nat; 2%nat]
  ∧ (∀ cc o (h : list (MultiDrawBaseData Ref.ValueCell)),
     (cc ≤ capacity (deref (getMdbData cc o h).1 (getMdbData cc o h).2))%nat
     ∧ (∀ r0, o = Some r0 →
          (capacity (deref h r0)
           ≤ capacity (deref (getMdbData cc o h).1
                             (getMdbData cc o h).2))%nat
          ∧ ((cc ≤ capacity (deref h r0))%nat →
             getMdbData cc o h = (h, r0)))
     ∧ ((∀ r0, o = Some r0 → (capacity (deref h r0) < cc)%nat) →
        (getMdbData cc o h).2 = length h
        ∧ length (getMdbData cc o h).1 = S (length h)
        ∧ (∀ r, (r < length h)%nat →
             deref (getMdbData cc o h).1 r = deref h r)
        ∧ capacity (deref (getMdbData cc o h).1 (getMdbData cc o h).2) = cc
        ∧ (∀ r0, o = Some r0 →
             (capacity (deref h r0)
              < capacity (deref (getMdbData cc o h).1
                                (getMdbData cc o h).2))%nat)
        ∧ unusedArraysZero
            (deref (getMdbData cc o h).1 (getMdbData cc o h).2)
        ∧ batchContents
            (deref (getMdbData cc o h).1 (getMdbData cc o h).2) = (0%nat, [])
        ∧ counts (deref (getMdbData cc o h).1 (getMdbData cc o h).2)
          = replicate cc 0
        ∧ instanceCounts
            (deref (getMdbData cc o h).1 (getMdbData cc o h).2)
          = replicate cc 0
        ∧ baseInstances
            (deref (getMdbData cc o h).1 (getMdbData cc o h).2)
          = replicate cc 0
        ∧ uniforms (deref (getMdbData cc o h).1 (getMdbData cc o h).2)
          = []))
  ∧ (capacity (deref (heap st) (mdbData st))
     ≤ capacity (deref (heap st') (mdbData st')))%nat
  ∧ (lodMode values = true →
     ∀ j m m', batches st !! j = Some m → batches st' !! j = Some m' →
       (capacity m ≤ capacity m')%nat)
  ∧ (∀ g, drawCount values ≠ 0 → instanceCount values ≠ 0 →
       instanceGrid values = Some g →
       ∀ m, m ∈ batches st' →
         (count m ≤ cellCount g)%nat ∧ (cellCount g ≤ capacity m)%nat).
Proof.
  cbv zeta.
  assert (rreachable (rcull Demo.plane Demo.frustum
            (Demo.plainValues Demo.grid1 10 Demo.noLod) rstart)) as Hr
    by apply reachable_cull, reachable_create.
  split; [exact Hr|]. split; [reflexivity|]. split; [reflexivity|].
  apply (cull_capacity _ _ Ref.distanceToPoint
           Ref.intersectsSphere3D _ Ref.create Ref.update
           Demo.plane Demo.frustum
           (Demo.lodValues Demo.grid2 20 Demo.noLod) _ Hr).
Defined.

(** An empty batch covers no cell. *)
#[local] Ltac not_covered :=
  let m := fresh "m" in let k := fresh "k" in let e := fresh "e" in
  let Hm := fresh "Hm" in let He := fresh "He" in
  intros (m & k & e & Hm & He & _);
  vm_compute in Hm; injection Hm as <-; by destruct k.

(** C9, as stated, fails in four ways, each on a one-cell grid whose
    cell is in the frustum, at distance 52 with radius 2.
    - The cell touches the far end 50 of the first band, but the overall
      range 100..200 skips it before the bands are looked at: no batch
      receives an entry.
    - The cell touches the far end 50 of the overall range, but the only
      band starts at 60: the batch of the band stays empty.
    - The cell touches the near end 54 of an overall range whose far end
      10 lies before it: the second comparison skips it.
    - The cell touches the far end 50 of the overall range and holds
      2^31 instances: its entry reads [{0, -2^31}] and covers none of
      them. *)
Lemma cull_inclusive_thresholds_counterexample :
  let g := Demo.grid1touch in
  let d := rcellDistance Demo.plane g 0 in
  let r := radius (cellSphere g 0) in
  let values_a := Demo.lodValues g 10 Demo.farLod in
  let st_a := rcull Demo.plane Demo.frustum values_a rstart in
  let values_b := mkValues 6 10 (Some g) Demo.nearLod (Some Demo.farBand) in
  let st_b := rcull Demo.plane Demo.frustum values_b rstart in
  let values_c := Demo.plainValues g 10 Demo.crossedLod in
  let st_c := rcull Demo.plane Demo.frustum values_c rstart in
  let values_d := Demo.plainValues Demo.gridBig 2147483648 Demo.nearLod in
  let st_d := rcull Demo.plane Demo.frustum values_d rstart in
  (partition_inv g 10 ∧ offset g 0 < offset g 1
   ∧ rinFrustum Demo.frustum g 0 = true
   ∧ (d - r)%float = 50%float ∧ (d + r)%float = 54%float)
  ∧ (activeLevels values_a !! 0%nat = Some (mkLodLevel 0 50 0 3 1)
     ∧ uLod values_a = (100%float, 200%float)
     ∧ touchesRange d r 0 50
     ∧ (entries <$> batches st_a) = [[]; []]
     ∧ ¬ coveredIn st_a 0 g 0)
  ∧ (activeLevels values_b = [mkLodLevel 60 100 0 3 1]
     ∧ touchesRange d r (fst (uLod values_b)) (snd (uLod values_b))
     ∧ (entries <$> batches st_b) = [[]]
     ∧ ¬ coveredIn st_b 0 g 0)
  ∧ (activeLevels values_c = []
     ∧ PrimFloat.eqb (d + r)%float (fst (uLod values_c)) = true
     ∧ (entries <$> batches st_c) = [[]]
     ∧ ¬ coveredIn st_c 0 g 0)
  ∧ (partition_inv Demo.gridBig 2147483648
     ∧ offset Demo.gridBig 0 < offset Demo.gridBig 1
     ∧ rinFrustum Demo.frustum Demo.gridBig 0 = true
     ∧ activeLevels values_d = []
     ∧ touchesRange (rcellDistance Demo.plane Demo.gridBig 0)
         (radius (cellSphere Demo.gridBig 0))
         (fst (uLod values_d)) (snd (uLod values_d))
     ∧ (entries <$> batches st_d) = [[mkEntry 0 (-2147483648) 6]]
     ∧ ¬ coveredIn st_d 0 Demo.gridBig 0).
Proof.
  cbv zeta.
  split; [split_and!; try reflexivity; partition_inv_tac|].
  split; [split_and!; try reflexivity; try not_covered;
          right; split; reflexivity|].
  split; [split_and!; try reflexivity; try not_covered;
          right; split; reflexivity|].
  split; [split_and!; try reflexivity; not_covered|].
  split_and!; try reflexivity; try partition_inv_tac;
    try (right; split; reflexivity).
  intros (m & k & e & Hm & He & Hc).
  vm_compute in Hm. injection Hm as <-.
  destruct k as [|k]; [|by destruct k].
  vm_compute in He. injection He as <-.
  assert (inCell Demo.gridBig 0 0) as Hx
    by (unfold inCell, offset; simpl; lia).
  apply Hc in Hx. unfold covers in Hx. simpl in Hx. lia.
Qed.

(** The cell at distance 52 with radius 2 touches the far end 50 of the
    overall range and of the first band, and lies within the second
    band 40..100: it is included in the batches of both bands, and in the
    single batch when there is no LOD table. *)
Lemma cull_inclusive_thresholds_witness :
  let g := Demo.grid1touch in
  let values := mkValues 6 10 (Some g) Demo.nearLod (Some Demo.bands) in
  let values_p := Demo.plainValues g 10 Demo.nearLod in
  let d := rcellDistance Demo.plane g 0 in
  let r := radius (cellSphere g 0) in
  let st' := rcull Demo.plane Demo.frustum values rstart in
  let st_p := rcull Demo.plane Demo.frustum values_p rstart in
  (rreachable rstart ∧ drawCount values ≠ 0 ∧ instanceCount values ≠ 0
   ∧ instanceGrid values = Some g
   ∧ drawCount values_p ≠ 0 ∧ instanceCount values_p ≠ 0
   ∧ instanceGrid values_p = Some g
   ∧ partition_inv g 10 ∧ 10 < 2 ^ 31
   ∧ (0 < cellCount g)%nat
   ∧ offset g 0 < offset g 1
   ∧ rinFrustum Demo.frustum g 0 = true)
  ∧ ((d - r)%float = 50%float
     ∧ hasLodOf (uLod values) = true
     ∧ touchesRange d r (fst (uLod values)) (snd (uLod values))
     ∧ activeLevels values !! 0%nat = Some (mkLodLevel 0 50 0 3 1)
     ∧ touchesRange d r 0 50
     ∧ rdistanceCulled Demo.plane g (uLod values) 0 = false
     ∧ activeLevels values !! 1%nat = Some (mkLodLevel 40 100 0 2 1)
     ∧ rinBand Demo.plane g (mkLodLevel 40 100 0 2 1) 0 = true
     ∧ activeLevels values_p = [])
  ∧ PrimFloat.ltb (d + r)%float 54 = false
  ∧ gtb (d - r)%float 50 = false
  ∧ outsideRange d r 0 50 = false
  ∧ coveredIn st_p 0 g 0
  ∧ coveredIn st' 0 g 0
  ∧ coveredIn st' 1 g 0.
Proof.
  cbv zeta.
  assert (partition_inv Demo.grid1touch 10) as Hp by partition_inv_tac.
  assert (touchesRange (rcellDistance Demo.plane Demo.grid1touch 0)
            (radius (cellSphere Demo.grid1touch 0)) 0 50) as Ht
    by (right; split; reflexivity).
  pose proof (cull_inclusive_thresholds _ _ Ref.distanceToPoint
           Ref.intersectsSphere3D _ Ref.create Ref.update
           Demo.plane Demo.frustum
           (mkValues 6 10 (Some Demo.grid1touch) Demo.nearLod
                     (Some Demo.bands))
           Demo.grid1touch 10 rstart 0
           ltac:(concrete) ltac:(concrete) ltac:(concrete) ltac:(concrete)
           Hp ltac:(concrete) ltac:(concrete) ltac:(concrete)
           ltac:(concrete)) as Hl.
  pose proof (cull_inclusive_thresholds _ _ Ref.distanceToPoint
           Ref.intersectsSphere3D _ Ref.create Ref.update
           Demo.plane Demo.frustum
           (Demo.plainValues Demo.grid1touch 10 Demo.nearLod)
           Demo.grid1touch 10 rstart 0
           ltac:(concrete) ltac:(concrete) ltac:(concrete) ltac:(concrete)
           Hp ltac:(concrete) ltac:(concrete) ltac:(concrete)
           ltac:(concrete)) as Hq.
  cbv zeta in Hl, Hq.
  destruct Hl as (L1 & L2 & L3 & _ & L5 & L6).
  destruct Hq as (_ & _ & _ & P4 & _).
  split; [split_and!; concrete|].
  split; [split_and!; first [exact Ht | reflexivity]|].
  split; [by apply L1|]. split; [by apply L2|]. split; [by apply L3|].
  split; [apply P4; [reflexivity|exact Ht]|].
  split.
  - apply (L5 0%nat (mkLodLevel 0 50 0 3 1)); [reflexivity..|exact Ht].
  - apply (L6 1%nat (mkLodLevel 40 100 0 2 1));
      [reflexivity|exact Ht|reflexivity].
Defined.

(** ** The further properties on the sample grids *)

Lemma cull_completed_hands_over_batches_witness :
  let values := Demo.lodValues Demo.grid2 20 Demo.noLod in
  let st' := rcull Demo.plane Demo.frustum values rstart in
  (rreachable rstart ∧ drawCount values ≠ 0 ∧ instanceCount values ≠ 0
   ∧ instanceGrid values = Some Demo.grid2)
  ∧ cullEnabled st' = true
  ∧ length (batches st') = Nat.max 1 (length (activeLevels values))
  ∧ renderBatches st' = Some (Some <$> batches st').
Proof.
  cbv zeta. split; [split_and!; concrete|].
  apply (cull_completed_hands_over_batches _ _ Ref.distanceToPoint
           Ref.intersectsSphere3D _ Ref.create Ref.update
           Demo.plane Demo.frustum
           (Demo.lodValues Demo.grid2 20 Demo.noLod) Demo.grid2 rstart);
    concrete.
Defined.

Lemma cull_entries_cover_exactly_kept_cells_witness :
  let values := Demo.plainValues Demo.grid3 30 Demo.noLod in
  let st' := rcull Demo.plane Demo.frustum values rstart in
  let m := deref (heap st') 1 in
  (rreachable rstart ∧ drawCount values ≠ 0 ∧ instanceCount values ≠ 0
   ∧ instanceGrid values = Some Demo.grid3
   ∧ partition_inv Demo.grid3 30 ∧ 30 < 2 ^ 31
   ∧ batches st' !! 0%nat = Some m)
  ∧ entries m = [mkEntry 0 10 6; mkEntry 20 10 6]
  ∧ ∀ x, (∃ e, e ∈ entries m ∧ covers e x)
         ↔ (∃ i, (i < cellCount Demo.grid3)%nat
                 ∧ rbatchKeep Demo.plane Demo.frustum values Demo.grid3 0 i
                   = true
                 ∧ inCell Demo.grid3 i x).
Proof.
  cbv zeta.
  assert (partition_inv Demo.grid3 30) as Hp by partition_inv_tac.
  split; [split_and!; concrete|].
  split; [reflexivity|].
  apply (cull_entries_cover_exactly_kept_cells _ _ Ref.distanceToPoint
           Ref.intersectsSphere3D _ Ref.create Ref.update
           Demo.plane Demo.frustum
           (Demo.plainValues Demo.grid3 30 Demo.noLod) Demo.grid3 30 rstart
           0); concrete.
Defined.

Lemma cull_instance_total_witness :
  let values := Demo.plainValues Demo.grid3 30 Demo.noLod in
  let st' := rcull Demo.plane Demo.frustum values rstart in
  let m := deref (heap st') 1 in
  (rreachable rstart ∧ drawCount values ≠ 0 ∧ instanceCount values ≠ 0
   ∧ instanceGrid values = Some Demo.grid3
   ∧ partition_inv Demo.grid3 30 ∧ 30 < 2 ^ 31
   ∧ batches st' !! 0%nat = Some m)
  ∧ instanceSum (entries m) = 20
  ∧ instanceSum (entries m)
    = keptSize (rbatchKeep Demo.plane Demo.frustum values Demo.grid3 0)
               Demo.grid3 (cellCount Demo.grid3).
Proof.
  cbv zeta.
  assert (partition_inv Demo.grid3 30) as Hp by partition_inv_tac.
  split; [split_and!; concrete|].
  split; [reflexivity|].
  apply (cull_instance_total _ _ Ref.distanceToPoint
           Ref.intersectsSphere3D _ Ref.create Ref.update
           Demo.plane Demo.frustum
           (Demo.plainValues Demo.grid3 30 Demo.noLod) Demo.grid3 30 rstart
           0); concrete.
Defined.

Lemma cull_entries_within_total_witness :
  let values := Demo.plainValues Demo.grid3 30 Demo.noLod in
  let st' := rcull Demo.plane Demo.frustum values rstart in
  let m := deref (heap st') 1 in
  let e := mkEntry 20 10 6 in
  (rreachable rstart ∧ drawCount values ≠ 0 ∧ instanceCount values ≠ 0
   ∧ instanceGrid values = Some Demo.grid3
   ∧ partition_inv Demo.grid3 30 ∧ 30 < 2 ^ 31
   ∧ m ∈ batches st' ∧ e ∈ entries m)
  ∧ 0 ≤ e_baseInstance e
  ∧ e_baseInstance e + e_instanceCount e ≤ 30.
Proof.
  cbv zeta.
  assert (partition_inv Demo.grid3 30) as Hp by partition_inv_tac.
  assert (deref (heap (rcull Demo.plane Demo.frustum
            (Demo.plainValues Demo.grid3 30 Demo.noLod) rstart)) 1
          ∈ batches (rcull Demo.plane Demo.frustum
            (Demo.plainValues Demo.grid3 30 Demo.noLod) rstart)) as Hm
    by (vm_compute; apply list_elem_of_here).
  assert (mkEntry 20 10 6
          ∈ entries (deref (heap (rcull Demo.plane Demo.frustum
              (Demo.plainValues Demo.grid3 30 Demo.noLod) rstart)) 1)) as He
    by (vm_compute; apply list_elem_of_further, list_elem_of_here).
  split; [split_and!; concrete|].
  apply (cull_entries_within_total _ _ Ref.distanceToPoint
           Ref.intersectsSphere3D _ Ref.create Ref.update
           Demo.plane Demo.frustum
           (Demo.plainValues Demo.grid3 30 Demo.noLod) Demo.grid3 30 rstart
           _ _ ltac:(concrete) ltac:(concrete) ltac:(concrete)
           ltac:(concrete) Hp ltac:(concrete) Hm He).
Defined.

Lemma cull_all_kept_single_entry_witness :
  let values := Demo.plainValues Demo.grid2 20 Demo.noLod in
  let st' := rcull Demo.plane Demo.frustum values rstart in
  let m := deref (heap st') 1 in
  (rreachable rstart ∧ drawCount values ≠ 0 ∧ instanceCount values ≠ 0
   ∧ instanceGrid values = Some Demo.grid2
   ∧ partition_inv Demo.grid2 20 ∧ 0 < 20 ∧ 20 < 2 ^ 31
   ∧ (∀ lv, lv ∈ activeLevels values → isInt32 (lod_count lv))
   ∧ batches st' !! 0%nat = Some m
   ∧ (∀ i, (i < cellCount Demo.grid2)%nat →
        rbatchKeep Demo.plane Demo.frustum values Demo.grid2 0 i = true))
  ∧ entries m = [mkEntry 0 20 (toInt32 (batchDrawCount values 0))]
  ∧ count m = 1%nat.
Proof.
  cbv zeta.
  assert (partition_inv Demo.grid2 20) as Hp by partition_inv_tac.
  assert (∀ lv,
    lv ∈ activeLevels (Demo.plainValues Demo.grid2 20 Demo.noLod)
    → isInt32 (lod_count lv)) as Hint
    by (intros lv Hin; by apply elem_of_nil in Hin).
  assert (∀ i, (i < cellCount Demo.grid2)%nat →
    rbatchKeep Demo.plane Demo.frustum
      (Demo.plainValues Demo.grid2 20 Demo.noLod) Demo.grid2 0 i = true)
    as Hall.
  { intros i H2. simpl in H2.
    do 2 (destruct i as [|i]; [reflexivity|]). lia. }
  split; [split_and!; concrete|].
  apply (cull_all_kept_single_entry _ _ Ref.distanceToPoint
           Ref.intersectsSphere3D _ Ref.create Ref.update
           Demo.plane Demo.frustum
           (Demo.plainValues Demo.grid2 20 Demo.noLod) Demo.grid2 20 rstart
           0); concrete.
Defined.

Lemma cull_batch_empty_iff_witness :
  let values := Demo.plainValues Demo.grid3e 20 Demo.noLod in
  let st' := rcull Demo.plane Demo.frustum values rstart in
  let m := deref (heap st') 1 in
  (rreachable rstart ∧ drawCount values ≠ 0 ∧ instanceCount values ≠ 0
   ∧ instanceGrid values = Some Demo.grid3e
   ∧ partition_inv Demo.grid3e 20 ∧ 20 < 2 ^ 31
   ∧ batches st' !! 0%nat = Some m)
  ∧ count m = 0%nat
  ∧ (count m = 0%nat
     ↔ ∀ i, (i < cellCount Demo.grid3e)%nat →
         rbatchKeep Demo.plane Demo.frustum values Demo.grid3e 0 i = true →
         rangeSize Demo.grid3e i = 0).
Proof.
  cbv zeta.
  assert (partition_inv Demo.grid3e 20) as Hp by partition_inv_tac.
  split; [split_and!; concrete|].
  split; [reflexivity|].
  apply (cull_batch_empty_iff _ _ Ref.distanceToPoint
           Ref.intersectsSphere3D _ Ref.create Ref.update
           Demo.plane Demo.frustum
           (Demo.plainValues Demo.grid3e 20 Demo.noLod) Demo.grid3e 20
           rstart 0); concrete.
Defined.

Lemma cull_entry_draw_counts_witness :
  let values := Demo.lodValues Demo.grid2 20 Demo.noLod in
  let st' := rcull Demo.plane Demo.frustum values rstart in
  let m := deref (heap st') 2 in
  let e := mkEntry 0 10 2 in
  (rreachable rstart ∧ drawCount values ≠ 0 ∧ instanceCount values ≠ 0
   ∧ instanceGrid values = Some Demo.grid2
   ∧ batches st' !! 1%nat = Some m ∧ e ∈ entries m)
  ∧ e_count e = toInt32 (batchDrawCount values 1).
Proof.
  cbv zeta.
  assert (mkEntry 0 10 2
          ∈ entries (deref (heap (rcull Demo.plane Demo.frustum
              (Demo.lodValues Demo.grid2 20 Demo.noLod) rstart)) 2)) as He
    by (vm_compute; apply list_elem_of_here).
  split; [split_and!; concrete|].
  apply (cull_entry_draw_counts _ _ Ref.distanceToPoint
           Ref.intersectsSphere3D _ Ref.create Ref.update
           Demo.plane Demo.frustum
           (Demo.lodValues Demo.grid2 20 Demo.noLod) Demo.grid2 rstart
           1 _ _ ltac:(concrete) ltac:(concrete) ltac:(concrete)
           ltac:(concrete) ltac:(concrete) He).
Defined.

Lemma reachable_unused_arrays_zero_witness :
  let st := rcull Demo.plane Demo.frustum
              (Demo.lodValues Demo.grid2 20 Demo.noLod) rstart in
  let m := deref (heap st) 2 in
  (rreachable st ∧ (m ∈ batches st ∨ m = deref (heap st) (mdbData st)))
  ∧ unusedArraysZero m ∧ uniform_cap m.
Proof.
  cbv zeta.
  assert (rreachable (rcull Demo.plane Demo.frustum
            (Demo.lodValues Demo.grid2 20 Demo.noLod) rstart)) as Hr
    by apply reachable_cull, reachable_create.
  assert (deref (heap (rcull Demo.plane Demo.frustum
            (Demo.lodValues Demo.grid2 20 Demo.noLod) rstart)) 2
          ∈ batches (rcull Demo.plane Demo.frustum
            (Demo.lodValues Demo.grid2 20 Demo.noLod) rstart)) as Hm
    by (vm_compute; apply list_elem_of_further, list_elem_of_here).
  split; [split; [exact Hr|left; exact Hm]|].
  apply (reachable_unused_arrays_zero _ _ Ref.distanceToPoint
           Ref.intersectsSphere3D _ Ref.create Ref.update _ _ Hr).
  left; exact Hm.
Defined.

Lemma reachable_uniforms_shape_witness :
  let st := rcull Demo.plane Demo.frustum
              (Demo.lodValues Demo.grid2 20 Demo.noLod) rstart in
  let m := deref (heap st) 2 in
  (rreachable st ∧ (m ∈ batches st ∨ m = deref (heap st) (mdbData st)))
  ∧ uniformsShape m.
Proof.
  cbv zeta.
  assert (rreachable (rcull Demo.plane Demo.frustum
            (Demo.lodValues Demo.grid2 20 Demo.noLod) rstart)) as Hr
    by apply reachable_cull, reachable_create.
  assert (deref (heap (rcull Demo.plane Demo.frustum
            (Demo.lodValues Demo.grid2 20 Demo.noLod) rstart)) 2
          ∈ batches (rcull Demo.plane Demo.frustum
            (Demo.lodValues Demo.grid2 20 Demo.noLod) rstart)) as Hm
    by (vm_compute; apply list_elem_of_further, list_elem_of_here).
  split; [split; [exact Hr|left; exact Hm]|].
  apply (reachable_uniforms_shape _ _ Ref.distanceToPoint
           Ref.intersectsSphere3D _ Ref.create Ref.update _ _ Hr).
  left; exact Hm.
Defined.

Lemma cull_lod_uniforms_rebuilt_witness :
  let values := Demo.lodValues Demo.grid2 20 Demo.noLod in
  let st' := rcull Demo.plane Demo.frustum values rstart in
  let m := deref (heap st') 2 in
  let lv := mkLodLevel 40 100 0 2 1 in
  (rreachable rstart ∧ drawCount values ≠ 0 ∧ instanceCount values ≠ 0
   ∧ instanceGrid values = Some Demo.grid2
   ∧ lodLevels values = Some Demo.bands
   ∧ lod_version Demo.bands ≠ lodLevelsVersion rstart
   ∧ batches st' !! 1%nat = Some m
   ∧ lod_value Demo.bands !! 1%nat = Some lv)
  ∧ (∃ cell, uniforms m = [("uLod"%string, Ref.update cell (lodVec lv))])
  ∧ lodLevelsVersion st' = lod_version Demo.bands.
Proof.
  cbv zeta. split; [split_and!; concrete|].
  apply (cull_lod_uniforms_rebuilt _ _ Ref.distanceToPoint
           Ref.intersectsSphere3D _ Ref.create Ref.update
           Demo.plane Demo.frustum
           (Demo.lodValues Demo.grid2 20 Demo.noLod) Demo.grid2 Demo.bands
           rstart 1 _ _); concrete.
Defined.

Lemma cull_lod_same_version_new_batch_without_uniforms_witness :
  let values := Demo.lodValues Demo.grid2 20 Demo.noLod in
  let st := rcull Demo.plane Demo.frustum
              (Demo.lodValues Demo.grid1 10 Demo.noLod) rstart in
  let st' := rcull Demo.plane Demo.frustum values st in
  let m := deref (heap st') 4 in
  (rreachable st ∧ drawCount values ≠ 0 ∧ instanceCount values ≠ 0
   ∧ instanceGrid values = Some Demo.grid2
   ∧ lodLevels values = Some Demo.bands ∧ lod_value Demo.bands ≠ []
   ∧ lod_version Demo.bands = lodLevelsVersion st
   ∧ batches st' !! 1%nat = Some m
   ∧ (∀ m0, batches st !! 1%nat = Some m0 →
        (capacity m0 < cellCount Demo.grid2)%nat))
  ∧ uniforms m = [].
Proof.
  cbv zeta.
  assert (rreachable (rcull Demo.plane Demo.frustum
            (Demo.lodValues Demo.grid1 10 Demo.noLod) rstart)) as Hr
    by apply reachable_cull, reachable_create.
  assert (∀ m0,
    batches (rcull Demo.plane Demo.frustum
               (Demo.lodValues Demo.grid1 10 Demo.noLod) rstart) !! 1%nat
    = Some m0 → (capacity m0 < cellCount Demo.grid2)%nat) as Hsmall.
  { intros m0 H. vm_compute in H. injection H as <-.
    unfold capacity. simpl. lia. }
  split; [split_and!; concrete|].
  apply (cull_lod_same_version_new_batch_without_uniforms _ _ Ref.distanceToPoint
           Ref.intersectsSphere3D _ Ref.create Ref.update
           Demo.plane Demo.frustum
           (Demo.lodValues Demo.grid2 20 Demo.noLod) Demo.grid2 Demo.bands
           _ 1 _ Hr); concrete.
Defined.

Lemma cull_lod_same_version_keeps_uniforms_witness :
  let values := Demo.lodValues Demo.grid2 20 Demo.noLod in
  let st := rcull Demo.plane Demo.frustum values rstart in
  let st' := rcull Demo.plane Demo.frustum values st in
  let m := deref (heap st') 2 in
  let m0 := deref (heap st) 2 in
  (rreachable st ∧ drawCount values ≠ 0 ∧ instanceCount values ≠ 0
   ∧ instanceGrid values = Some Demo.grid2
   ∧ lodLevels values = Some Demo.bands ∧ lod_value Demo.bands ≠ []
   ∧ lod_version Demo.bands = lodLevelsVersion st
   ∧ batches st' !! 1%nat = Some m
   ∧ batches st !! 1%nat = Some m0
   ∧ (cellCount Demo.grid2 ≤ capacity m0)%nat)
  ∧ uniforms m = uniforms m0.
Proof.
  cbv zeta.
  assert (rreachable (rcull Demo.plane Demo.frustum
            (Demo.lodValues Demo.grid2 20 Demo.noLod) rstart)) as Hr
    by apply reachable_cull, reachable_create.
  split; [split_and!; concrete|].
  apply (cull_lod_same_version_keeps_uniforms _ _ Ref.distanceToPoint
           Ref.intersectsSphere3D _ Ref.create Ref.update
           Demo.plane Demo.frustum
           (Demo.lodValues Demo.grid2 20 Demo.noLod) Demo.grid2 Demo.bands
           _ 1 _ _ Hr); concrete.
Defined.

Lemma cull_next_pass_reuses_batches_witness :
  let values := Demo.lodValues Demo.grid2 20 Demo.noLod in
  let st1 := rcull Demo.plane Demo.frustum values rstart in
  let st2 := rcull (Ref.mkPlane3D (mkVec3 0 0 1) 30) [] values st1 in
  rreachable rstart
  ∧ length (heap st1) = 3%nat
  ∧ length (heap st2) = length (heap st1)
  ∧ mdbDataList st2 = mdbDataList st1
  ∧ mdbData st2 = mdbData st1.
Proof.
  cbv zeta. split; [apply reachable_create|]. split; [reflexivity|].
  apply (cull_next_pass_reuses_batches _ _ Ref.distanceToPoint
           Ref.intersectsSphere3D _ Ref.create Ref.update
           Demo.plane Demo.frustum (Ref.mkPlane3D (mkVec3 0 0 1) 30) []
           (Demo.lodValues Demo.grid2 20 Demo.noLod) rstart).
  apply reachable_create.
Defined.

Lemma cull_contents_independent_of_history_witness :
  let values := Demo.plainValues Demo.grid3 30 Demo.noLod in
  let st := rcull Demo.plane Demo.frustum
              (Demo.lodValues Demo.grid4 40 Demo.noLod) rstart in
  (rreachable st ∧ rreachable rstart
   ∧ drawCount values ≠ 0 ∧ instanceCount values ≠ 0
   ∧ instanceGrid values = Some Demo.grid3)
  ∧ batchContents <$> batches (rcull Demo.plane Demo.frustum values st)
    = batchContents <$> batches (rcull Demo.plane Demo.frustum values rstart).
Proof.
  cbv zeta.
  assert (rreachable (rcull Demo.plane Demo.frustum
            (Demo.lodValues Demo.grid4 40 Demo.noLod) rstart)) as Hr
    by apply reachable_cull, reachable_create.
  split; [split_and!; concrete|].
  apply (cull_contents_independent_of_history _ _ Ref.distanceToPoint
           Ref.intersectsSphere3D _ Ref.create Ref.update
           Demo.plane Demo.frustum
           (Demo.plainValues Demo.grid3 30 Demo.noLod) Demo.grid3);
    concrete.
Defined.
